(** * Hangar: chunked backend, merge engine and synchronisation client

    A shallow embedding of the parts of [hangar/backends/hdf5.py],
    [hangar/merger.py], [hangar/remotes.py] and [hangar/repository.py]
    that the specification's properties are about, with the properties
    stated and proved (or refuted) on the embedding.

    Python dictionaries are finite maps ([gmap]), Python sets are finite
    sets ([gset]) or, where the iteration order decides the outcome,
    duplicate-free lists; [str] and [bytes] are [string]; exceptions are
    the [Raise] branch of [result]; loops that the source does not bound
    take a fuel argument and return [None] when the fuel runs out. *)

From Stdlib Require Import ZArith Lia List String Ascii DecimalString DecimalNat.
From stdpp Require Import gmap strings list fin_maps.

Local Open Scope Z_scope.

(** ** Exceptions and results *)

Inductive exn : Type :=
  | ValueError
  | KeyError
  | IndexError
  | TypeError
  | AttributeError
  | RuntimeError
  | PermissionError
  | RpcError
  | RpcNotFound
  | RpcPermissionDenied
  | ZeroDivisionError
  | LibraryError.

#[export] Instance exn_eq_dec : EqDecision exn.
Proof. solve_decision. Defined.

Inductive result (A : Type) : Type :=
  | Ok (a : A)
  | Raise (e : exn).
Arguments Ok {A} a.
Arguments Raise {A} e.

#[export] Instance result_ret : MRet result := fun A a => Ok a.
#[export] Instance result_bind : MBind result := fun A B k r =>
  match r with
  | Ok a => k a
  | Raise e => Raise e
  end.

Definition of_option {A} (e : exn) (o : option A) : result A :=
  match o with
  | Some a => Ok a
  | None => Raise e
  end.

Definition is_ok {A} (r : result A) : bool :=
  match r with Ok _ => true | Raise _ => false end.

(** ** The Python string operations the sources use

    Separators are single bytes (the repository's separator constants),
    so [partition], [rpartition] and [split] take a character. *)

Module PyStr.

Fixpoint occurs (c : ascii) (s : string) : bool :=
  match s with
  | EmptyString => false
  | String a s' => Ascii.eqb a c || occurs c s'
  end.

(** [s[n:]] *)
Fixpoint drop_chars (n : nat) (s : string) : string :=
  match n, s with
  | O, _ => s
  | S n', String _ s' => drop_chars n' s'
  | S _, EmptyString => EmptyString
  end.

(** [s.partition(c)]: split at the first occurrence; [(s, '', '')] when
    there is none. *)
Fixpoint partition (c : ascii) (s : string) : string * string * string :=
  match s with
  | EmptyString => (EmptyString, EmptyString, EmptyString)
  | String a s' =>
      if Ascii.eqb a c then (EmptyString, String c EmptyString, s')
      else let '(h, m, t) := partition c s' in (String a h, m, t)
  end.

(** [s.rpartition(c)]: split at the last occurrence; [('', '', s)] when
    there is none. *)
Fixpoint rpartition (c : ascii) (s : string) : string * string * string :=
  match s with
  | EmptyString => (EmptyString, EmptyString, EmptyString)
  | String a s' =>
      let '(h, m, t) := rpartition c s' in
      match m with
      | String _ _ => (String a h, m, t)
      | EmptyString =>
          if Ascii.eqb a c then (EmptyString, String c EmptyString, s')
          else (EmptyString, EmptyString, String a s')
      end
  end.

(** [s.split(c)] *)
Fixpoint split (c : ascii) (s : string) : list string :=
  match s with
  | EmptyString => [EmptyString]
  | String a s' =>
      if Ascii.eqb a c then EmptyString :: split c s'
      else match split c s' with
           | x :: r => String a x :: r
           | [] => [String a EmptyString]
           end
  end.

(** [sep.join(parts)] *)
Fixpoint join (sep : string) (parts : list string) : string :=
  match parts with
  | [] => EmptyString
  | [x] => x
  | x :: rest => x +:+ sep +:+ join sep rest
  end.

(** [str(n)] of a non-negative [int]: its decimal digits. *)
Definition str_of_nat (n : nat) : string :=
  NilEmpty.string_of_uint (Nat.to_uint n).

(** [int(s)] on a string of decimal digits; anything else is a
    [ValueError]. (Python also accepts a sign, surrounding blanks and
    underscores; the records written by [encode] contain none.) *)
Definition int_of_str (s : string) : result nat :=
  match NilZero.uint_of_string s with
  | Some d => Ok (Nat.of_uint d)
  | None => Raise ValueError
  end.

(** [str(t)] of a tuple of non-negative ints: [()], [(3,)], [(2, 3)]. *)
Definition str_of_tuple (t : list nat) : string :=
  match t with
  | [] => "()"
  | [x] => "(" +:+ str_of_nat x +:+ ",)"
  | _ => "(" +:+ join ", " (map str_of_nat t) +:+ ")"
  end.

(** [re.compile(cls).sub('', s)] for a character class: drop every
    character the class matches. *)
Fixpoint re_sub_class (cls : ascii -> bool) (s : string) : string :=
  match s with
  | EmptyString => EmptyString
  | String a s' =>
      if cls a then re_sub_class cls s' else String a (re_sub_class cls s')
  end.

(** Decimal digits. *)
Definition is_digit (a : ascii) : bool :=
  Ascii.eqb a "0" || Ascii.eqb a "1" || Ascii.eqb a "2" || Ascii.eqb a "3"
  || Ascii.eqb a "4" || Ascii.eqb a "5" || Ascii.eqb a "6"
  || Ascii.eqb a "7" || Ascii.eqb a "8" || Ascii.eqb a "9".

Fixpoint all_chars (P : ascii -> bool) (s : string) : bool :=
  match s with
  | EmptyString => true
  | String a s' => P a && all_chars P s'
  end.

Definition digit_or_blank (a : ascii) : bool := is_digit a || Ascii.eqb a " ".

End PyStr.

(** ** hangar/backends/hdf5.py *)

Module Hdf5.

(** *** [HDF5_00_Parser] *)

Section Parser.

(** Not under the sources: the separator constants of the repository
    configuration ([hangar.seps.key], [.list], [.slice], [.hash]). *)
Variables SEP LISTSEP SLICESEP HASHSEP : ascii.

Definition FmtBackend : string := "hdf5_00".
Definition FmtCode : string := "00".
Definition FmtCodeIdx : nat := 3.

(** [ShapeFmtRE = re.compile('[,\(\)\[\]]')] *)
Definition ShapeFmtRE (a : ascii) : bool :=
  Ascii.eqb a "," || Ascii.eqb a "(" || Ascii.eqb a ")"
  || Ascii.eqb a "[" || Ascii.eqb a "]".

Record DataHashSpec : Type := mk_DataHashSpec {
  backend : string;
  uid : string;
  dataset : string;
  dataset_idx : string;
  shape : list nat
}.

#[export] Instance DataHashSpec_eq_dec : EqDecision DataHashSpec.
Proof. solve_decision. Defined.

(** An argument formatted into the record by an f-string: [dataset] is
    documented as [str], [dataset_idx] as [int or str]; the writer
    passes two ints. *)
Inductive fmt_arg : Type :=
  | IntArg (n : nat)
  | StrArg (s : string).

Definition format (a : fmt_arg) : string :=
  match a with
  | IntArg n => PyStr.str_of_nat n
  | StrArg s => s
  end.

Definition shape_field (sample_shape : list nat) : string :=
  PyStr.re_sub_class ShapeFmtRE (PyStr.str_of_tuple sample_shape).

Definition encode (uid : string) (dataset dataset_idx : fmt_arg)
    (sample_shape : list nat) : string :=
  FmtCode +:+ String SEP EmptyString +:+ uid
  +:+ String HASHSEP EmptyString
  +:+ format dataset +:+ String LISTSEP EmptyString +:+ format dataset_idx
  +:+ String SLICESEP EmptyString
  +:+ shape_field sample_shape.

(** [tuple([int(x) for x in parts])] *)
Fixpoint ints_of (parts : list string) : result (list nat) :=
  match parts with
  | [] => Ok []
  | x :: rest =>
      n ← PyStr.int_of_str x;
      ns ← ints_of rest;
      Ok (n :: ns)
  end.

Definition decode (db_val : string) : result DataHashSpec :=
  let db_str := PyStr.drop_chars FmtCodeIdx db_val in
  let '(uid, _, dset_vals) := PyStr.partition HASHSEP db_str in
  let '(dataset_vs, _, shape_vs) := PyStr.rpartition SLICESEP dset_vals in
  match PyStr.split LISTSEP dataset_vs with
  | [dataset; dataset_idx] =>
      shape ← (if String.eqb shape_vs EmptyString then Ok []
               else ints_of (PyStr.split LISTSEP shape_vs));
      Ok (mk_DataHashSpec FmtBackend uid dataset dataset_idx shape)
  | _ => Raise ValueError
  end.

End Parser.

(** *** [HDF5_00_FileHandles._chunk_opts] *)

(** [np.zeros(shape, dtype).nbytes]: the item size times the number of
    elements. *)
Definition product (shape : list Z) : Z := fold_right Z.mul 1 shape.

Definition nbytes (itemsize : Z) (shape : list Z) : Z :=
  itemsize * product shape.

Record chunk_state : Type := mk_chunk_state {
  chunk_shape : list Z;
  chunk_nbytes : Z;
  chunk_idx : nat
}.

Inductive loop_step : Type :=
  | Exit
  | Next (st : chunk_state)
  | Fail (e : exn).

(** One evaluation of the [while] condition and, if it holds, of the
    loop body. *)
Definition chunk_body (itemsize max_chunk_nbytes : Z) (st : chunk_state)
  : loop_step :=
  if chunk_nbytes st <=? max_chunk_nbytes then Exit
  else
    let shape_rank := length (chunk_shape st) in
    let idx := if (shape_rank <=? chunk_idx st)%nat then 0%nat
               else chunk_idx st in
    match chunk_shape st !! idx with
    | None => Fail IndexError
    | Some rank_dim =>
        if rank_dim <=? 2 then
          Next (mk_chunk_state (chunk_shape st) (chunk_nbytes st) (S idx))
        else
          let shape' := <[idx := rank_dim / 2]> (chunk_shape st) in
          Next (mk_chunk_state shape' (nbytes itemsize shape') (S idx))
    end.

Fixpoint chunk_loop (fuel : nat) (itemsize max_chunk_nbytes : Z)
    (st : chunk_state) : option (result (list Z * Z)) :=
  match fuel with
  | O => None
  | S fuel' =>
      match chunk_body itemsize max_chunk_nbytes st with
      | Exit => Some (Ok (chunk_shape st, chunk_nbytes st))
      | Fail e => Some (Raise e)
      | Next st' => chunk_loop fuel' itemsize max_chunk_nbytes st'
      end
  end.

(** The sample array enters through its shape and the item size of its
    dtype. [None] is "still looping when the fuel ran out". *)
Definition _chunk_opts (fuel : nat) (sample_shape : list Z) (itemsize : Z)
    (max_chunk_nbytes : Z) : option (result (list Z * Z)) :=
  chunk_loop fuel itemsize max_chunk_nbytes
    (mk_chunk_state sample_shape (nbytes itemsize sample_shape) 0).

(** *** [HDF5_00_FileHandles.create_schema] and [write_data] *)

(** A sample tensor: its shape and its contents. *)
Record ndarray : Type := mk_ndarray {
  arr_shape : list nat;
  arr_data : list Z
}.

(** A container file open for writing: the root attributes, the chunk
    layout of its collections, the slabs written so far (keyed by
    collection and row) and whether everything written has been
    flushed. *)
Record h5file : Type := mk_h5file {
  attrs : gmap string (list Z);
  chunks : list Z;
  slabs : gmap (nat * nat) ndarray;
  synced : bool;
  swmr_mode : bool
}.

Inductive link_dir : Type := STAGEDIR | REMOTEDIR.

(** The fields of [HDF5_00_FileHandles] the writer uses. [None] is
    Python's [None], the value of the cursor fields before the first
    container is created. [rng] counts the calls to [random_string]. *)
Record handles : Type := mk_handles {
  schema_shape : list nat;
  schema_itemsize : Z;
  wFp : gmap string h5file;
  w_uid : option string;
  hIdx : option nat;
  hNextPath : option nat;
  hColsRemain : option Z;
  hMaxSize : option Z;
  links : list (link_dir * string);
  rng : nat
}.

Definition set_cursor (st : handles) (idx path : option nat)
    (remain : option Z) : handles :=
  mk_handles (schema_shape st) (schema_itemsize st) (wFp st) (w_uid st)
    idx path remain (hMaxSize st) (links st) (rng st).

Definition set_file (st : handles) (file_uid : string) (fh : h5file)
  : handles :=
  mk_handles (schema_shape st) (schema_itemsize st)
    (<[file_uid := fh]> (wFp st)) (w_uid st)
    (hIdx st) (hNextPath st) (hColsRemain st) (hMaxSize st)
    (links st) (rng st).

(** [fh['/'].attrs.modify(name, value)] *)
Definition attrs_modify (name : string) (value : list Z) (fh : h5file)
  : h5file :=
  mk_h5file (<[name := value]> (attrs fh)) (chunks fh) (slabs fh) false
    (swmr_mode fh).

Definition flush (fh : h5file) : h5file :=
  mk_h5file (attrs fh) (chunks fh) (slabs fh) true (swmr_mode fh).

Section Writer.

(** Not under the sources: the repository configuration
    ([HDF_DSET_CONTENTS], [HDF_CHUNK_OPTS], the attribute names
    [HDF_ATTRS]), the separators and [utils.random_string]. *)
Variables num_collections collection_size max_nbytes : Z.
Variable HDF_ATTRS : string -> string.
Variable random_string : nat -> string.
Variables SEP LISTSEP SLICESEP HASHSEP : ascii.

(** The attributes written when a container is created. The version
    string, the dtype number, the cache sizing and the filter options
    are left out: no cursor decision reads them. *)
Definition initial_attrs (shape : list nat) (chunk : list Z)
  : gmap string (list Z) :=
  <[HDF_ATTRS "chunk_shape" := chunk]>
  (<[HDF_ATTRS "collections_remaining" := [num_collections]]>
  (<[HDF_ATTRS "collection_total" := [num_collections]]>
  (<[HDF_ATTRS "collection_max_size" := [collection_size]]>
  (<[HDF_ATTRS "next_location" := [0; 0]]>
  (<[HDF_ATTRS "schema_shape" := Z.of_nat <$> shape]> ∅))))).

Definition create_schema (fuel : nat) (remote_operation : bool)
    (st : handles) : option (result handles) :=
  match _chunk_opts fuel (Z.of_nat <$> schema_shape st) (schema_itemsize st)
          max_nbytes with
  | None => None
  | Some (Raise e) => Some (Raise e)
  | Some (Ok (chunk, chunk_bytes)) =>
      if chunk_bytes =? 0 then Some (Raise ZeroDivisionError)
      else
        let file_uid := random_string (rng st) in
        let fh := mk_h5file (initial_attrs (schema_shape st) chunk)
                    (1 :: chunk) ∅ true true in
        let dir := if remote_operation then REMOTEDIR else STAGEDIR in
        Some (Ok (mk_handles (schema_shape st) (schema_itemsize st)
                    (<[file_uid := fh]> (wFp st)) (Some file_uid)
                    (Some 0%nat) (Some 0%nat) (Some num_collections)
                    (Some collection_size)
                    ((dir, file_uid) :: links st) (S (rng st))))
  end.

(** [self.w_uid in self.wFp] *)
Definition writer_open (st : handles) : bool :=
  match w_uid st with
  | Some u => bool_decide (is_Some (wFp st !! u))
  | None => false
  end.

(** The cursor advance of [write_data], up to the point where a new
    container may be needed. [inl st'] continues with the container at
    hand, [inr st'] has persisted the cursor and asks for a new one. *)
Definition advance (st : handles) : result (handles + handles) :=
  idx ← of_option TypeError (hIdx st);
  size ← of_option TypeError (hMaxSize st);
  let idx := S idx in
  if Z.of_nat idx <? size then
    Ok (inl (set_cursor st (Some idx) (hNextPath st) (hColsRemain st)))
  else
    path ← of_option TypeError (hNextPath st);
    remain ← of_option TypeError (hColsRemain st);
    let st := set_cursor st (Some 0%nat) (Some (S path)) (Some (remain - 1)) in
    if remain - 1 <=? 1 then
      file_uid ← of_option KeyError (w_uid st);
      fh ← of_option KeyError (wFp st !! file_uid);
      let fh := attrs_modify "next_dset" [Z.of_nat (S path); 0] fh in
      let fh := attrs_modify "num_collections_remaining" [remain - 1] fh in
      Ok (inr (set_file st file_uid (flush fh)))
    else Ok (inl st).

(** [fh[f'/{path}'].write_direct(array, None, (idx, 0:s0, ...))]: the
    collection must exist, the row must lie inside it and the sample
    must fit the schema shape. *)
Definition write_direct (array : ndarray) (path idx : nat) (st : handles)
    (fh : h5file) : result h5file :=
  if negb (Z.of_nat path <? num_collections) then Raise KeyError
  else if negb (Z.of_nat idx <? collection_size) then Raise LibraryError
  else if negb (bool_decide (Forall2 le (arr_shape array) (schema_shape st)))
       then Raise LibraryError
  else Ok (mk_h5file (attrs fh) (chunks fh)
             (<[(path, idx) := array]> (slabs fh)) false (swmr_mode fh)).

Definition write_at_cursor (array : ndarray) (st : handles)
  : result (string * handles) :=
  file_uid ← of_option KeyError (w_uid st);
  fh ← of_option KeyError (wFp st !! file_uid);
  path ← of_option TypeError (hNextPath st);
  idx ← of_option TypeError (hIdx st);
  fh ← write_direct array path idx st fh;
  Ok (encode SEP LISTSEP SLICESEP HASHSEP file_uid (IntArg path) (IntArg idx)
        (arr_shape array),
      set_file st file_uid fh).

Definition write_data (fuel : nat) (array : ndarray) (remote_operation : bool)
    (st : handles) : option (result (string * handles)) :=
  let ready :=
    if writer_open st then
      match advance st with
      | Raise e => Some (Raise e)
      | Ok (inl st') => Some (Ok st')
      | Ok (inr st') => create_schema fuel remote_operation st'
      end
    else create_schema fuel remote_operation st in
  match ready with
  | None => None
  | Some (Raise e) => Some (Raise e)
  | Some (Ok st') => Some (write_at_cursor array st')
  end.

End Writer.

(** The reading of "the cursor is advanced before the first write to a
    new container": whenever [write_data] leaves a container current
    that was not current before, the slab at collection 0, row 0 of
    that container is empty. *)
Definition skips_first_slab
    (num_collections collection_size max_nbytes : Z)
    (HDF_ATTRS : string -> string) (random_string : nat -> string)
    (SEP LISTSEP SLICESEP HASHSEP : ascii) : Prop :=
  forall fuel array remote st loc st' u fh,
    write_data num_collections collection_size max_nbytes HDF_ATTRS
      random_string SEP LISTSEP SLICESEP HASHSEP fuel array remote st
    = Some (Ok (loc, st')) ->
    w_uid st' = Some u -> w_uid st <> Some u ->
    wFp st' !! u = Some fh ->
    slabs fh !! (0%nat, 0%nat) = None.

End Hdf5.

(** ** Records and the three-way differ *)

Module Diff.

(** A schema record ([RawArraysetSchemaVal]). *)
Record schema_spec : Type := mk_schema_spec {
  schema_uuid : string;
  schema_hash : string;
  schema_is_var : bool;
  schema_max_shape : list nat;
  schema_dtype : nat;
  schema_is_named : bool
}.

#[export] Instance schema_spec_eq_dec : EqDecision schema_spec.
Proof. solve_decision. Defined.

(** A sample key is the pair [(dset_name, data_name)], a sample value
    its [data_hash]. *)
Definition sample_key : Type := string * string.

Record dataset : Type := mk_dataset {
  schema : schema_spec;
  data : gmap sample_key string
}.

(** What [get_commit_ref_contents] returns: the nested dict with the
    keys ['metadata'] and ['datasets']. *)
Record contents : Type := mk_contents {
  metadata : gmap string string;
  datasets : gmap string dataset
}.

Section Changes.
Context {K : Type} `{Countable K} {V : Type} `{EqDecision V}.

Record changes : Type := mk_changes {
  additions : gmap K V;
  removals : gmap K V;
  mutations : gmap K V;
  unchanged : gmap K V
}.

(** The dict with the keys ['master'] and ['dev']. *)
Record branch_changes : Type := mk_branch_changes {
  master : changes;
  dev : changes
}.

(** Modelled from the spec: the change classification of [diff.py]
    (not under the sources). A key of the variant that the base lacks
    is an addition, a key of the base that the variant lacks a removal,
    a key of both is a mutation when the values differ and unchanged
    when they are equal. Additions, mutations and unchanged keys carry
    the variant's value, removals the base's. *)
Definition classify (base variant : gmap K V) : changes :=
  mk_changes
    (filter (fun kv => base !! kv.1 = None) variant)
    (filter (fun kv => variant !! kv.1 = None) base)
    (filter (fun kv => is_Some (base !! kv.1) /\ base !! kv.1 <> Some kv.2)
       variant)
    (filter (fun kv => base !! kv.1 = Some kv.2) variant).

(** Modelled from the spec: the three-way diff, master's and dev's
    changes against the common ancestor. *)
Definition three_way (ancestor master_map dev_map : gmap K V)
  : branch_changes :=
  mk_branch_changes (classify ancestor master_map) (classify ancestor dev_map).

(** The keys two change sets share with different values, and the keys
    they share. *)
Definition differing (x y : gmap K V) : gmap K V :=
  intersection_with (fun v1 v2 => if decide (v1 = v2) then None else Some v1)
    x y.

Definition shared (x y : gmap K V) : gmap K V :=
  intersection_with (fun v1 _ => Some v1) x y.

(** Modelled from the spec: the first three rows of the conflict table
    for one layer (add/add with different values, remove/mutate either
    way round, mutate/mutate with different values). *)
Definition layer_conflict (ancestor master_map dev_map : gmap K V) : bool :=
  let m := classify ancestor master_map in
  let d := classify ancestor dev_map in
  negb (bool_decide (differing (additions m) (additions d) = ∅))
  || negb (bool_decide (shared (removals m) (mutations d) = ∅))
  || negb (bool_decide (shared (removals d) (mutations m) = ∅))
  || negb (bool_decide (differing (mutations m) (mutations d) = ∅)).

End Changes.

Arguments changes K {_ _} V.
Arguments branch_changes K {_ _} V.

(** Modelled from the spec: the three layers of
    [ThreeWayCommitDiffer] ([diff.py] is not under the sources):
    metadata, schemas per arrayset, and samples per arrayset for the
    arraysets present in both master and dev (against the ancestor's
    samples of that arrayset, none if the ancestor lacks it). *)
Definition meta_changes (a m d : contents) : branch_changes string string :=
  three_way (metadata a) (metadata m) (metadata d).

Definition dataset_changes (a m d : contents)
  : branch_changes string schema_spec :=
  three_way (schema <$> datasets a) (schema <$> datasets m)
    (schema <$> datasets d).

Definition ancestor_samples (a : contents) (dsetn : string)
  : gmap sample_key string :=
  match datasets a !! dsetn with
  | Some ds => data ds
  | None => ∅
  end.

(** The dicts [sample_changes()['master']] and [['dev']], keyed by
    arrayset name. *)
Record per_dataset_changes : Type := mk_per_dataset_changes {
  sc_master : gmap string (changes sample_key string);
  sc_dev : gmap string (changes sample_key string)
}.

Definition sample_changes (a m d : contents) : per_dataset_changes :=
  let both := map_zip (datasets m) (datasets d) in
  mk_per_dataset_changes
    (map_imap (fun n md =>
       Some (classify (ancestor_samples a n) (data md.1))) both)
    (map_imap (fun n md =>
       Some (classify (ancestor_samples a n) (data md.2))) both).

(** Modelled from the spec: [determine_conflicts()['conflict_found']]
    with the conflict table applied at the three layers. *)
Definition conflict_found (a m d : contents) : bool :=
  layer_conflict (metadata a) (metadata m) (metadata d)
  || layer_conflict (schema <$> datasets a) (schema <$> datasets m)
       (schema <$> datasets d)
  || negb (bool_decide (map_Forall (fun n md =>
       layer_conflict (ancestor_samples a n) (data md.1) (data md.2) = false)
       (map_zip (datasets m) (datasets d)))).

End Diff.

(** ** The repository state and its record stores *)

(** A stable sort, as [list.sort] and [sorted] are: [le x y] says that
    [x] may stay in front of [y]. *)
Fixpoint insert_sorted {A} (le : A -> A -> bool) (x : A) (l : list A)
  : list A :=
  match l with
  | [] => [x]
  | y :: l' => if le x y then x :: y :: l' else y :: insert_sorted le x l'
  end.

Definition stable_sort {A} (le : A -> A -> bool) (l : list A) : list A :=
  foldr (insert_sorted le) [] l.

(** A [for] loop over a list that builds a list and may raise. *)
Fixpoint list_mapM {A B} (f : A -> result B) (l : list A) : result (list B) :=
  match l with
  | [] => Ok []
  | x :: rest =>
      y ← f x;
      ys ← list_mapM f rest;
      Ok (y :: ys)
  end.

Module Repo.
Import Diff.

Record commit_spec : Type := mk_commit_spec {
  commit_time : Z;
  commit_message : string;
  commit_user : string;
  commit_email : string;
  is_merge_commit : bool
}.

(** The three entries the ref store keeps per commit digest. *)
Record commit_record : Type := mk_commit_record {
  parents : list string;
  spec : commit_spec;
  refs : list (string * string)
}.

(** The branch store: branch heads, the writer lock sentinel, the
    branch the staging area is based on, and the remotes. *)
Record branch_env : Type := mk_branch_env {
  heads : gmap string string;
  writer_lock : string;
  staging_branch : string;
  remotes : gmap string string
}.

(** The container-file symlinks per directory. *)
Record data_dirs : Type := mk_data_dirs {
  stage_data : gset string;
  remote_data : gset string;
  store_data : gset string
}.

Record repo : Type := mk_repo {
  branchenv : branch_env;
  refenv : gmap string commit_record;
  stageenv : list (string * string);
  stagehashenv : gmap string string;
  hashenv : gmap string string;
  labelenv : gmap string string;
  dirs : data_dirs
}.

Definition set_branchenv (st : repo) (b : branch_env) : repo :=
  mk_repo b (refenv st) (stageenv st) (stagehashenv st) (hashenv st)
    (labelenv st) (dirs st).

Definition set_refenv (st : repo) (r : gmap string commit_record) : repo :=
  mk_repo (branchenv st) r (stageenv st) (stagehashenv st) (hashenv st)
    (labelenv st) (dirs st).

Definition set_stageenv (st : repo) (s : list (string * string)) : repo :=
  mk_repo (branchenv st) (refenv st) s (stagehashenv st) (hashenv st)
    (labelenv st) (dirs st).

Definition set_stagehashenv (st : repo) (s : gmap string string) : repo :=
  mk_repo (branchenv st) (refenv st) (stageenv st) s (hashenv st)
    (labelenv st) (dirs st).

Definition set_hashenv (st : repo) (h : gmap string string) : repo :=
  mk_repo (branchenv st) (refenv st) (stageenv st) (stagehashenv st) h
    (labelenv st) (dirs st).

Definition set_labelenv (st : repo) (l : gmap string string) : repo :=
  mk_repo (branchenv st) (refenv st) (stageenv st) (stagehashenv st)
    (hashenv st) l (dirs st).

Definition set_dirs (st : repo) (d : data_dirs) : repo :=
  mk_repo (branchenv st) (refenv st) (stageenv st) (stagehashenv st)
    (hashenv st) (labelenv st) d.

Definition set_heads (b : branch_env) (h : gmap string string) : branch_env :=
  mk_branch_env h (writer_lock b) (staging_branch b) (remotes b).

Definition set_writer_lock (b : branch_env) (holder : string) : branch_env :=
  mk_branch_env (heads b) holder (staging_branch b) (remotes b).

(** *** Programs: state and exceptions *)

Record prog (S A : Type) : Type := Prog { run : S -> result A * S }.
Arguments Prog {S A} _.
Arguments run {S A} _ _.

#[export] Instance prog_ret {S} : MRet (prog S) :=
  fun A a => Prog (fun st => (Ok a, st)).
#[export] Instance prog_bind {S} : MBind (prog S) := fun A B k p =>
  Prog (fun st =>
    match run p st with
    | (Ok a, st') => run (k a) st'
    | (Raise e, st') => (Raise e, st')
    end).

Definition raise {S A} (e : exn) : prog S A := Prog (fun st => (Raise e, st)).

Definition lift {S A} (r : result A) : prog S A := Prog (fun st => (r, st)).

Definition get {S} : prog S S := Prog (fun st => (Ok st, st)).

Definition put {S} (st : S) : prog S unit := Prog (fun _ => (Ok tt, st)).

(** [try: body finally: cleanup] *)
Definition try_finally {S A} (body : prog S A) (cleanup : prog S unit)
  : prog S A :=
  Prog (fun st =>
    let '(r, st1) := run body st in
    match run cleanup st1 with
    | (Ok _, st2) => (r, st2)
    | (Raise e, st2) => (Raise e, st2)
    end).

(** [try: body except e0: handler] *)
Definition try_except {S A} (body : prog S A) (e0 : exn) (handler : prog S A)
  : prog S A :=
  Prog (fun st =>
    match run body st with
    | (Raise e, st1) =>
        if bool_decide (e = e0) then run handler st1 else (Raise e, st1)
    | ok => ok
    end).

(** [for x in l: body(x)] *)
Fixpoint for_each {S A} (l : list A) (body : A -> prog S unit)
  : prog S unit :=
  match l with
  | [] => mret tt
  | x :: rest => body x;; for_each rest body
  end.

(** [post p st Q]: running [p] from [st] ends in a result and a state
    that satisfy [Q]. *)
Definition post {S A} (p : prog S A) (st : S) (Q : result A -> S -> Prop)
  : Prop :=
  Q (run p st).1 (run p st).2.

(** *** The cursor of the key-value store

    [first] positions the cursor on the first record and tells whether
    there is one; [delete] removes the record under the cursor, moves
    to the next and tells whether there was a record to remove. *)
Record cursor : Type := mk_cursor {
  records : list (string * string);
  positioned : bool
}.

Definition is_nil {A} (l : list A) : bool :=
  match l with [] => true | _ => false end.

Definition cursor_first (c : cursor) : bool * cursor :=
  let p := negb (is_nil (records c)) in (p, mk_cursor (records c) p).

Definition cursor_delete (c : cursor) : bool * cursor :=
  if positioned c then
    match records c with
    | [] => (false, c)
    | _ :: rest => (true, mk_cursor rest (negb (is_nil rest)))
    end
  else (false, c).

(** Who holds the writer lock of a repository. *)
Definition lock_of (st : repo) : string := writer_lock (branchenv st).

(** *** [records.heads] *)

Definition MERGE_PROCESS : string := "MERGE_PROCESS".

Section Heads.

(** Not under the sources: the force-release sentinel. *)
Variable force_release_sentinel : string.

(** Modelled from the spec: [heads.py] is not under the sources. A
    branch is a named pointer to a commit digest; looking up or moving
    a branch that does not exist and creating one that exists raise
    [ValueError] (the callers catch it). *)
Definition get_branch_names (b : branch_env) : list string :=
  elements (dom (heads b)).

Definition get_branch_head_commit (b : branch_env) (branch_name : string)
  : result string :=
  of_option ValueError (heads b !! branch_name).

Definition set_branch_head_commit (b : branch_env) (branch_name : string)
    (commit_hash : string) : result (string * branch_env) :=
  match heads b !! branch_name with
  | Some _ =>
      Ok (commit_hash, set_heads b (<[branch_name := commit_hash]> (heads b)))
  | None => Raise ValueError
  end.

Definition create_branch (b : branch_env) (branch_name : string)
    (base_commit : string) : result (string * branch_env) :=
  match heads b !! branch_name with
  | Some _ => Raise ValueError
  | None =>
      Ok (branch_name, set_heads b (<[branch_name := base_commit]> (heads b)))
  end.

Definition get_staging_branch_head (b : branch_env) : string :=
  staging_branch b.

Definition get_remote_address (b : branch_env) (name : string)
  : result string :=
  of_option KeyError (remotes b !! name).

(** Modelled from the spec: the writer lock is a single sentinel value,
    empty when free. [acquire] fails with [PermissionError] if the held
    uuid is non-empty and different; [release] succeeds if the held
    uuid matches or the force-release sentinel is given. *)
Definition acquire_writer_lock (b : branch_env) (writer_uuid : string)
  : result branch_env :=
  if String.eqb (writer_lock b) EmptyString
     || String.eqb (writer_lock b) writer_uuid
  then Ok (set_writer_lock b writer_uuid)
  else Raise PermissionError.

Definition release_writer_lock (b : branch_env) (writer_uuid : string)
  : result branch_env :=
  if String.eqb (writer_lock b) writer_uuid
     || String.eqb writer_uuid force_release_sentinel
  then Ok (set_writer_lock b EmptyString)
  else Raise RuntimeError.

End Heads.

(** *** [records.commiting] *)

(** Modelled from the spec: [commiting.py] is not under the sources.
    The ref store maps a commit digest to its parents, spec and refs. *)
Definition check_commit_hash_in_history (r : gmap string commit_record)
    (commit_hash : string) : bool :=
  bool_decide (is_Some (r !! commit_hash)).

Definition get_commit_spec (r : gmap string commit_record)
    (commit_hash : string) : result commit_spec :=
  of_option KeyError (spec <$> r !! commit_hash).

Definition get_commit_ref (r : gmap string commit_record)
    (commit_hash : string) : result (list (string * string)) :=
  of_option KeyError (refs <$> r !! commit_hash).

(** Modelled from the spec: [ancestors(c)] is a breadth-first walk over
    the parent links that yields [digest -> parents]. *)
Fixpoint ancestors_bfs (fuel : nat) (r : gmap string commit_record)
    (queue : list string) (seen : gmap string (list string))
  : gmap string (list string) :=
  match fuel with
  | O => seen
  | S fuel' =>
      match queue with
      | [] => seen
      | c :: rest =>
          if bool_decide (is_Some (seen !! c)) then
            ancestors_bfs fuel' r rest seen
          else
            let ps := match r !! c with
                      | Some rec => parents rec
                      | None => []
                      end in
            ancestors_bfs fuel' r (rest ++ ps) (<[c := ps]> seen)
      end
  end.

(** Every step takes one entry off the queue, and a commit puts its
    parents on the queue once: the number of commits plus the number of
    parent links plus one bounds the steps. *)
Definition bfs_fuel (r : gmap string commit_record) : nat :=
  S (map_fold (fun _ rec n => (S (length (parents rec)) + n)%nat) 0%nat r).

Definition ancestors_graph (r : gmap string commit_record) (head : string)
  : gmap string (list string) :=
  ancestors_bfs (S (bfs_fuel r)) r [head] ∅.

End Repo.

(** ** hangar/merger.py: patching *)

(** A [for] loop over the items of a dict that builds a dict and may
    raise. *)
Definition map_mapM `{Countable K} {A B : Type}
    (f : K -> A -> result B) (m : gmap K A) : result (gmap K B) :=
  map_fold (fun k a acc => bs ← acc; b ← f k a; Ok (<[k := b]> bs))
    (Ok ∅) m.

Module Merger.
Import Diff.

Section MergeChanges.
Context {K : Type} `{Countable K} {V : Type} `{EqDecision V}.

(** [k in d] for a dict [d] *)
Definition has_key (k : K) (d : gmap K V) : bool :=
  bool_decide (is_Some (d !! k)).

(** [del m_dict[k]] *)
Definition del_key (k : K) (m_dict : gmap K V) : result (gmap K V) :=
  if has_key k m_dict then Ok (delete k m_dict) else Raise KeyError.

Definition _merge_changes (changes : branch_changes K V) (m_dict : gmap K V)
  : result (gmap K V) :=
  let m_added := additions (master changes) in
  let m_unchanged := unchanged (master changes) in
  let m_mutated := mutations (master changes) in
  let d_added := additions (dev changes) in
  let d_removed := removals (dev changes) in
  let d_mutated := mutations (dev changes) in
  let m_dict :=
    map_fold (fun dK v m_dict =>
                if has_key dK m_added then m_dict else <[dK := v]> m_dict)
      m_dict d_added in
  m_dict ←
    map_fold (fun dK _ acc =>
                m_dict ← acc;
                if has_key dK m_unchanged then del_key dK m_dict
                else Ok m_dict)
      (Ok m_dict) d_removed;
  let m_dict :=
    map_fold (fun dK v m_dict =>
                if has_key dK m_mutated then m_dict else <[dK := v]> m_dict)
      m_dict d_mutated in
  Ok m_dict.

End MergeChanges.

Section ComputeMerge.

(** Not under the sources: [ThreeWayCommitDiffer.determine_conflicts];
    only its ['conflict_found'] entry is read. *)
Variable determine_conflicts : contents -> contents -> contents -> bool.

Definition merge_dataset_samples (a_cont m_cont d_cont : contents)
    (sample_changes : per_dataset_changes) (dsetn : string)
  : result (gmap sample_key string) :=
  match datasets m_cont !! dsetn with
  | None =>
      dd ← of_option KeyError (datasets d_cont !! dsetn);
      Ok (data dd)
  | Some md =>
      cm ← of_option KeyError (sc_master sample_changes !! dsetn);
      cd ← of_option KeyError (sc_dev sample_changes !! dsetn);
      _merge_changes (mk_branch_changes cm cd) (data md)
  end.

Definition _compute_merge_results (a_cont m_cont d_cont : contents)
  : result contents :=
  if determine_conflicts a_cont m_cont d_cont then Raise ValueError
  else
    let m_schema_dict := schema <$> datasets m_cont in
    o_schema_dict ←
      _merge_changes (dataset_changes a_cont m_cont d_cont) m_schema_dict;
    let sample_changes := sample_changes a_cont m_cont d_cont in
    o_data_dict ←
      map_mapM (fun dsetn _ =>
                  merge_dataset_samples a_cont m_cont d_cont sample_changes
                    dsetn)
        o_schema_dict;
    o_meta_dict ←
      _merge_changes (meta_changes a_cont m_cont d_cont) (metadata m_cont);
    out_datasets ←
      map_mapM (fun dsetn dsetSchema =>
                  dt ← of_option KeyError (o_data_dict !! dsetn);
                  Ok (mk_dataset dsetSchema dt))
        o_schema_dict;
    Ok (mk_contents o_meta_dict out_datasets).

End ComputeMerge.

(** The patch rules, read off a three-way diff: what the patched map
    [r] holds at every key, starting from master's map [m]. *)
Definition patched `{Countable K} {V : Type} `{EqDecision V}
    (a m d r : gmap K V) : Prop :=
  let ch := three_way a m d in
  forall k,
    (forall v, additions (dev ch) !! k = Some v ->
               additions (master ch) !! k = None -> r !! k = Some v)
    /\ (is_Some (removals (dev ch) !! k) ->
        is_Some (unchanged (master ch) !! k) -> r !! k = None)
    /\ (forall v, mutations (dev ch) !! k = Some v ->
                  mutations (master ch) !! k = None -> r !! k = Some v)
    /\ (is_Some (additions (master ch) !! k)
        \/ is_Some (mutations (master ch) !! k) -> r !! k = m !! k)
    /\ ((additions (dev ch) !! k = None
         \/ is_Some (additions (master ch) !! k)) ->
        (removals (dev ch) !! k = None
         \/ unchanged (master ch) !! k = None) ->
        (mutations (dev ch) !! k = None
         \/ is_Some (mutations (master ch) !! k)) ->
        r !! k = m !! k).

(** What [_merge_changes] leaves at a key, in terms of the three maps. *)
Definition merged_at `{Countable K} {V : Type} `{EqDecision V}
    (a m d : gmap K V) (k : K) : option V :=
  match a !! k, d !! k with
  | None, Some vd => match m !! k with Some vm => Some vm | None => Some vd end
  | Some va, None => if decide (m !! k = Some va) then None else m !! k
  | Some va, Some vd =>
      if decide (va = vd) then m !! k
      else match m !! k with
           | Some vm => if decide (va = vm) then Some vd else Some vm
           | None => Some vd
           end
  | None, None => m !! k
  end.

(** ** hangar/merger.py: history, staging status and the merge entry
    point *)

Import Repo.

Record HistoryDiffStruct : Type := mk_HistoryDiffStruct {
  masterHEAD : string;
  devHEAD : string;
  ancestorHEAD : string;
  canFF : bool
}.

(** The encoders of [records.parsing] that
    [_merge_dict_to_lmdb_tuples] calls (not under the sources). *)
Record parsing_codec : Type := mk_parsing_codec {
  dataset_total_count_db_key : string;
  dataset_total_count_db_val_from_raw_val : nat -> string;
  dataset_record_schema_db_key_from_raw_key : string -> string;
  dataset_record_schema_db_val_from_raw_val : schema_spec -> string;
  dataset_record_count_db_key_from_raw_key : string -> string;
  dataset_record_count_db_val_from_raw_val : nat -> string;
  data_record_db_key_from_raw_key : string -> string -> string;
  data_record_db_val_from_raw_val : string -> string;
  metadata_count_db_key : string;
  metadata_count_db_val_from_raw_val : nat -> string;
  metadata_record_db_key_from_raw_key : string -> string;
  metadata_record_db_val_from_raw_val : string -> string
}.

Section Merge.

(** Not under the sources. The iteration order of a Python [set] is
    not determined by its elements: [set_iter] is the order in which
    the run at hand iterates a set. *)
Variable set_iter : gset string -> list string.
Variable force_release_sentinel : string.
Variable get_commit_ancestors_graph :
  gmap string commit_record -> string -> gmap string (list string).
Variable get_commit_ref_contents :
  gmap string commit_record -> string -> result contents.
Variable determine_conflicts : contents -> contents -> contents -> bool.
Variable parsing : parsing_codec.
Variable remove_unused_dataset_hdf_files :
  data_dirs -> gmap string string -> result data_dirs.
Variable commit_digest :
  list (string * string) -> list string -> commit_spec -> string.
Variable commit_spec_of : string -> bool -> commit_spec.

(** The resolution of [merge_master] and of [merge_dev]: a branch name
    gives its head, a commit digest of the history itself. *)
Definition resolve_head (st : repo) (name : string) : result string :=
  if bool_decide (name ∈ get_branch_names (branchenv st)) then
    get_branch_head_commit (branchenv st) name
  else if check_commit_hash_in_history (refenv st) name then Ok name
  else Raise ValueError.

(** [ancestorOrder.sort(key=lambda t: t[1], reverse=True)] *)
Definition newest_first (x y : string * Z) : bool := y.2 <=? x.2.

Definition _determine_ancestors (st : repo) (merge_master merge_dev : string)
  : result HistoryDiffStruct :=
  mHEAD ← resolve_head st merge_master;
  dHEAD ← resolve_head st merge_dev;
  let mAncestors := get_commit_ancestors_graph (refenv st) mHEAD in
  let dAncestors := get_commit_ancestors_graph (refenv st) dHEAD in
  let cAncestors := dom mAncestors ∩ dom dAncestors in
  let canFF := bool_decide (mHEAD ∈ cAncestors) in
  ancestorOrder ←
    list_mapM (fun ancestor =>
                 sp ← get_commit_spec (refenv st) ancestor;
                 Ok (ancestor, commit_time sp))
      (set_iter cAncestors);
  let ancestorOrder := stable_sort newest_first ancestorOrder in
  commonAncestor ← of_option IndexError (fst <$> head ancestorOrder);
  Ok (mk_HistoryDiffStruct mHEAD dHEAD commonAncestor canFF).

Definition staging_area_status (st : repo) : result string :=
  let head_branch := get_staging_branch_head (branchenv st) in
  head_commit ← get_branch_head_commit (branchenv st) head_branch;
  base_refs ← (if String.eqb head_commit EmptyString then Ok []
               else get_commit_ref (refenv st) head_commit);
  let stage_refs := stageenv st in
  if bool_decide (base_refs <> stage_refs) then Ok "DIRTY"%string
  else Ok "CLEAN"%string.

Definition _fast_forward_merge (master_branch new_masterHEAD : string)
  : prog repo string :=
  st ← get;
  '(success, b) ← lift (set_branch_head_commit (branchenv st) master_branch
                          new_masterHEAD);
  put (set_branchenv st b);;
  mret success.

(** [positionExists = cursor.first()] and the [while positionExists]
    loop of [_overwrite_stageenv]. *)
Fixpoint delete_while_positioned (fuel : nat) (positionExists : bool)
    (c : cursor) : option cursor :=
  match fuel with
  | O => None
  | S fuel' =>
      if positionExists then
        let '(p, c') := cursor_delete c in
        delete_while_positioned fuel' p c'
      else Some c
  end.

(** The loop deletes one record per iteration and takes one more
    iteration to find the cursor unpositioned, so two more iterations
    than there are records end it. [putmulti(..., append=True)] then
    loads the sorted tuples into the empty store. *)
Definition _overwrite_stageenv (sorted_tuple_output : list (string * string))
  : prog repo unit :=
  st ← get;
  let '(positionExists, c) := cursor_first (mk_cursor (stageenv st) false) in
  match delete_while_positioned (S (S (length (stageenv st)))) positionExists c
  with
  | Some c' => put (set_stageenv st (records c' ++ sorted_tuple_output))
  | None => raise RuntimeError
  end.

Definition dataset_entries (dsetn : string) (ds : dataset)
  : list (string * string) :=
  (dataset_record_schema_db_key_from_raw_key parsing dsetn,
   dataset_record_schema_db_val_from_raw_val parsing (schema ds))
  :: (dataset_record_count_db_key_from_raw_key parsing dsetn,
      dataset_record_count_db_val_from_raw_val parsing (size (data ds)))
  :: map (fun kv : sample_key * string =>
            (data_record_db_key_from_raw_key parsing kv.1.1 kv.1.2,
             data_record_db_val_from_raw_val parsing kv.2))
       (map_to_list (data ds)).

Definition _merge_dict_to_lmdb_tuples (patchedRecs : contents)
  : list (string * string) :=
  let entries :=
    (dataset_total_count_db_key parsing,
     dataset_total_count_db_val_from_raw_val parsing
       (size (datasets patchedRecs)))
    :: flat_map (fun nd : string * dataset => dataset_entries nd.1 nd.2)
         (map_to_list (datasets patchedRecs))
    ++ (metadata_count_db_key parsing,
        metadata_count_db_val_from_raw_val parsing
          (size (metadata patchedRecs)))
    :: map (fun kv : string * string =>
              (metadata_record_db_key_from_raw_key parsing kv.1,
               metadata_record_db_val_from_raw_val parsing kv.2))
         (map_to_list (metadata patchedRecs)) in
  stable_sort (fun x y => String.leb x.1 y.1) entries.

(** Modelled from the spec: [commiting.commit_records] is not under the
    sources. The staging records become the refs of a new commit whose
    digest is computed from refs, parents and spec; the three entries
    are stored under the digest; the head of the written branch moves
    to the digest; the staged containers move to the store. A merge
    commit has the heads of master and dev as parents and moves
    master. *)
Definition commit_records (message : string) (is_merge : bool)
    (merge_master merge_dev : string) : prog repo string :=
  st ← get;
  let b := branchenv st in
  branch_name ← mret (if is_merge then merge_master
                      else get_staging_branch_head b);
  commit_parents ←
    lift (if is_merge then
            m ← get_branch_head_commit b merge_master;
            d ← get_branch_head_commit b merge_dev;
            Ok [m; d]
          else
            p ← get_branch_head_commit b branch_name;
            Ok (if String.eqb p EmptyString then [] else [p]));
  let commit_spec := commit_spec_of message is_merge in
  let commit_refs := stageenv st in
  let commit_hash := commit_digest commit_refs commit_parents commit_spec in
  '(_, b') ← lift (set_branch_head_commit b branch_name commit_hash);
  let d := dirs st in
  put (set_dirs
         (set_branchenv
            (set_refenv st
               (<[commit_hash :=
                    mk_commit_record commit_parents commit_spec commit_refs]>
                  (refenv st)))
            b')
         (mk_data_dirs ∅ (remote_data d) (store_data d ∪ stage_data d)));;
  mret commit_hash.

(** Modelled from the spec: [hashs.clear_stage_hash_records] empties
    the stage-hash index. *)
Definition clear_stage_hash_records : prog repo unit :=
  st ← get;
  put (set_stagehashenv st ∅).

Definition _three_way_merge (message master_branch_name masterHEAD
    dev_branch_name devHEAD ancestorHEAD : string) : prog repo string :=
  st ← get;
  a_cont ← lift (get_commit_ref_contents (refenv st) ancestorHEAD);
  m_cont ← lift (get_commit_ref_contents (refenv st) masterHEAD);
  d_cont ← lift (get_commit_ref_contents (refenv st) devHEAD);
  mergeContents ←
    lift (_compute_merge_results determine_conflicts a_cont m_cont d_cont);
  let formatedContents := _merge_dict_to_lmdb_tuples mergeContents in
  d ← lift (remove_unused_dataset_hdf_files (dirs st) (stagehashenv st));
  put (set_dirs st d);;
  _overwrite_stageenv formatedContents;;
  commit_hash ← commit_records message true master_branch_name
                  dev_branch_name;
  clear_stage_hash_records;;
  mret commit_hash.

Definition select_merge_algorithm (message master_branch_name
    dev_branch_name : string) : prog repo string :=
  st ← get;
  stgStatus ← lift (staging_area_status st);
  if negb (String.eqb stgStatus "CLEAN") then raise RuntimeError
  else
    b ← lift (acquire_writer_lock (branchenv st) MERGE_PROCESS);
    put (set_branchenv st b);;
    try_finally
      (st ← get;
       branchDiff ← lift (_determine_ancestors st master_branch_name
                            dev_branch_name);
       if canFF branchDiff then
         _fast_forward_merge master_branch_name (devHEAD branchDiff)
       else
         _three_way_merge message master_branch_name (masterHEAD branchDiff)
           dev_branch_name (devHEAD branchDiff) (ancestorHEAD branchDiff))
      (st ← get;
       b ← lift (release_writer_lock force_release_sentinel (branchenv st)
                   MERGE_PROCESS);
       put (set_branchenv st b)).

End Merge.

(** The commit time recorded for a digest. *)
Definition time_of (st : repo) (c : string) : Z :=
  match refenv st !! c with
  | Some rec => commit_time (spec rec)
  | None => 0
  end.

(** The common ancestors [_determine_ancestors] chooses from. *)
Definition common_ancestors
    (graph : gmap string commit_record -> string -> gmap string (list string))
    (st : repo) (mHEAD dHEAD : string) : gset string :=
  dom (graph (refenv st) mHEAD) ∩ dom (graph (refenv st) dHEAD).

(** [set_iter] enumerates the elements of every set. *)
Definition enumerates (set_iter : gset string -> list string) : Prop :=
  forall s x, x ∈ set_iter s <-> x ∈ s.

(** The reading of "ties are broken by lexicographic digest order":
    whatever the iteration order of the set of common ancestors, the
    chosen merge base is the least ([least = true]) or the greatest
    digest among the common ancestors that share its commit time. *)
Definition lex_tie_break (least : bool) : Prop :=
  forall set_iter st merge_master merge_dev res,
    enumerates set_iter ->
    _determine_ancestors set_iter ancestors_graph st merge_master merge_dev
    = Ok res ->
    forall c,
      c ∈ common_ancestors ancestors_graph st (masterHEAD res) (devHEAD res) ->
      time_of st c = time_of st (ancestorHEAD res) ->
      if least then String.leb (ancestorHEAD res) c = true
      else String.leb c (ancestorHEAD res) = true.

(** Two iteration orders: ascending and descending digests. *)
Definition iter_ascending (s : gset string) : list string :=
  stable_sort String.leb (elements s).

Definition iter_descending (s : gset string) : list string :=
  reverse (iter_ascending s).

End Merger.

(** ** hangar/remotes.py and hangar/repository.py: synchronisation *)

Module Remotes.
Import Hdf5 Diff Repo.

(** A temporary ref db: the unpacked refs of one commit. *)
Definition ref_db : Type := list (string * string).

(** The calls of [HangarClient], with the arguments the callers pass. *)
Inductive rpc_call : Type :=
  | FetchBranchRecord (branch : string)
  | FetchFindMissingCommits (branch : string)
  | FetchFindMissingLabels (commit : string)
  | FetchLabel (digest : string)
  | FetchFindMissingSchemas (commit : string)
  | FetchSchema (digest : string)
  | FetchFindMissingHashRecords (commit : string)
  | FetchCommitRecord (commit : string)
  | FetchData (schema : string) (hashes : gset string)
  | PushFindMissingCommits (branch : string)
  | PushFindMissingSchemas (commit : string) (tmpDB : option ref_db)
  | PushFindMissingHashRecords (commit : string) (tmpDB : option ref_db)
  | PushFindMissingLabels (commit : string) (tmpDB : option ref_db)
  | PushSchema (digest val : string)
  | PushData (schema : string) (hashes : list string)
  | PushLabel (digest val : string)
  | PushCommitRecord (commit parentVal specVal refVal : string)
  | PushBranchRecord (branch head : string).

(** The wire form of a commit. *)
Record commit_content : Type := mk_commit_content {
  cc_commit : string;
  cmtParentVal : string;
  cmtSpecVal : string;
  cmtRefVal : string
}.

(** The server as the client sees it: what each call answers, given
    the calls made before it. An [RpcError] is the [Raise] branch
    ([RpcNotFound] and [RpcPermissionDenied] for the two status codes
    the client tells apart). *)
Record server : Type := mk_server {
  branch_head : list rpc_call -> string -> result string;
  missing_commits : list rpc_call -> string -> result (list string);
  missing_labels : list rpc_call -> string -> list string;
  label_value : list rpc_call -> string -> string * string;
  missing_schemas : list rpc_call -> string -> list string;
  schema_value : list rpc_call -> string -> string * string;
  missing_hash_records : list rpc_call -> string -> list (string * string);
  commit_value : list rpc_call -> string -> commit_content;
  data_batch : list rpc_call -> string -> gset string -> list (string * string);
  push_missing_commits : list rpc_call -> string -> result (list string);
  push_missing_schemas :
    list rpc_call -> string -> option ref_db -> list string;
  push_missing_hash_records :
    list rpc_call -> string -> option ref_db -> list (string * string);
  push_missing_labels :
    list rpc_call -> string -> option ref_db -> list string
}.

(** The client side of a synchronisation: the repository, whether it
    is initialised, and the calls made so far. *)
Record session : Type := mk_session {
  local : repo;
  repo_is_initialized : bool;
  log : list rpc_call
}.

Definition set_local (s : session) (st : repo) : session :=
  mk_session st (repo_is_initialized s) (log s).

Definition set_log (s : session) (l : list rpc_call) : session :=
  mk_session (local s) (repo_is_initialized s) l.

(** A call: it is logged and answered. *)
Definition rpc {A} (call : rpc_call) (answer : list rpc_call -> result A)
  : prog session A :=
  s ← get;
  put (set_log s (log s ++ [call]));;
  lift (answer (log s)).

Definition rpc_total {A} (call : rpc_call) (answer : list rpc_call -> A)
  : prog session A :=
  rpc call (fun l => Ok (answer l)).

(** A write to the local repository. *)
Definition modify_local (f : repo -> repo) : prog session unit :=
  s ← get;
  put (set_local s (f (local s))).

Definition __verify_repo_initialized : prog session unit :=
  s ← get;
  if repo_is_initialized s then mret tt else raise RuntimeError.

(** [m[k].append(v)] on a [defaultdict(list)]; the dict keeps the keys
    in the order of their first insertion. *)
Fixpoint group_append {V} (k : string) (v : V) (m : list (string * list V))
  : list (string * list V) :=
  match m with
  | [] => [(k, [v])]
  | (k', vs) :: rest =>
      if String.eqb k' k then (k', vs ++ [v]) :: rest
      else (k', vs) :: group_append k v rest
  end.

(** Modelled from the spec: promotion of the remote-data containers to
    the store ([commiting.move_process_data_to_store] with
    [remote_operation=True]). *)
Definition move_remote_data_to_store (st : repo) : repo :=
  let d := dirs st in
  set_dirs st (mk_data_dirs (stage_data d) ∅ (store_data d ∪ remote_data d)).

Section Sync.

(** Not under the sources: the connection to the server at an
    address ([remote/client.py]), [ContentWriter] and [ContentReader]
    ([remote/content.py]), [summarize.list_history] (only its ['order']
    entry is read), and the iteration order of Python sets. *)
Variable connect : string -> result server.
Variable set_iter : gset string -> list string.
Variable list_history_order : repo -> string -> list string.
Variable CW_label : string -> string -> repo -> repo.
Variable CW_schema : string -> string -> repo -> repo.
Variable CW_data :
  string -> list (string * string) -> option string -> repo
  -> list string * repo.
Variable CW_commit : commit_content -> repo -> repo.

(** The transfer of a fetch in [Remote.fetch], from
    [fetch_find_missing_commits] to the update of the remote-tracking
    branch. *)
Definition transfer_commit (client : server) (commit : string)
  : prog session unit :=
  m_labels ← rpc_total (FetchFindMissingLabels commit)
               (fun l => missing_labels client l commit);
  for_each (set_iter (list_to_set m_labels)) (fun label =>
    '(recieved_hash, labelVal) ← rpc_total (FetchLabel label)
                                   (fun l => label_value client l label);
    modify_local (CW_label recieved_hash labelVal));;
  m_schemas ← rpc_total (FetchFindMissingSchemas commit)
                (fun l => missing_schemas client l commit);
  for_each m_schemas (fun schema =>
    '(schema_hash, schemaVal) ← rpc_total (FetchSchema schema)
                                  (fun l => schema_value client l schema);
    modify_local (CW_schema schema_hash schemaVal));;
  m_hashes ← rpc_total (FetchFindMissingHashRecords commit)
               (fun l => missing_hash_records client l commit);
  let m_schema_hash_map :=
    foldl (fun m (ds : string * string) => group_append ds.2 ds m)
      [] m_hashes in
  for_each m_schema_hash_map (fun group =>
    modify_local (fun st =>
      (CW_data group.1 group.2 (Some "50"%string) st).2)).

Definition update_tracking_branch (bName bHEAD : string)
  : prog session unit :=
  s ← get;
  let b := branchenv (local s) in
  match create_branch b bName bHEAD with
  | Ok (_, b') => put (set_local s (set_branchenv (local s) b'))
  | Raise ValueError =>
      '(_, b') ← lift (set_branch_head_commit b bName bHEAD);
      put (set_local s (set_branchenv (local s) b'))
  | Raise e => raise e
  end.

Definition fetch_transfer (client : server) (remote branch sHEAD : string)
  : prog session string :=
  m_cmts ← rpc (FetchFindMissingCommits branch)
             (fun l => missing_commits client l branch);
  for_each m_cmts (transfer_commit client);;
  for_each m_cmts (fun commit =>
    content ← rpc_total (FetchCommitRecord commit)
                (fun l => commit_value client l commit);
    modify_local (CW_commit content));;
  let fetchBranchName := remote +:+ "/" +:+ branch in
  update_tracking_branch fetchBranchName sHEAD;;
  mret fetchBranchName.

(** [Remote.fetch] *)
Definition fetch (remote branch : string) : prog session string :=
  __verify_repo_initialized;;
  s ← get;
  address ← lift (get_remote_address (branchenv (local s)) remote);
  client ← lift (connect address);
  match get_branch_head_commit (branchenv (local s)) branch with
  | Raise ValueError =>
      sHEAD ← rpc (FetchBranchRecord branch)
                (fun l => branch_head client l branch);
      fetch_transfer client remote branch sHEAD
  | Raise e => raise e
  | Ok cHEAD =>
      let c_bhistory := list_history_order (local s) branch in
      sHEAD ← rpc (FetchBranchRecord branch)
                (fun l => branch_head client l branch);
      if String.eqb sHEAD cHEAD then mret branch
      else if bool_decide (sHEAD ∈ c_bhistory) then mret branch
      else fetch_transfer client remote branch sHEAD
  end.

(** The reply of the older client interface, which [Repository.fetch]
    reads: an error code (0 for success) and the branch record. *)
Record branch_reply : Type := mk_branch_reply {
  error_code : Z;
  rec_commit : string
}.

Definition reply_of (r : result string) : branch_reply :=
  match r with
  | Ok c => mk_branch_reply 0 c
  | Raise _ => mk_branch_reply 5 EmptyString
  end.

Definition fetch_branch_reply (client : server) (branch : string)
  : prog session branch_reply :=
  rpc_total (FetchBranchRecord branch)
    (fun l => reply_of (branch_head client l branch)).

(** [Repository.fetch]. Inside the [try] block [inl None] is the bare
    [return] and [inr s_branch] falls through to the transfer. *)
Definition repository_fetch (remote_name branch_name : string)
    (concat_branch_names : bool) : prog session (option string) :=
  __verify_repo_initialized;;
  s ← get;
  address ← lift (get_remote_address (branchenv (local s)) remote_name);
  client ← lift (connect address);
  checked ←
    try_except
      (c_bcommit ← lift (get_branch_head_commit (branchenv (local s))
                           branch_name);
       let c_bhistory := list_history_order (local s) branch_name in
       s_branch ← fetch_branch_reply client branch_name;
       if error_code s_branch =? 0 then
         let s_bcommit := rec_commit s_branch in
         if String.eqb s_bcommit c_bcommit then mret (inl None)
         else if bool_decide (s_bcommit ∈ c_bhistory) then mret (inl None)
         else mret (inr s_branch)
       else mret (inr s_branch))
      ValueError
      (s_branch ← fetch_branch_reply client branch_name;
       mret (inr s_branch));
  match checked with
  | inl early => mret early
  | inr s_branch =>
      m_commits ← rpc (FetchFindMissingCommits branch_name)
                    (fun l => missing_commits client l branch_name);
      let transfer (acc : gset string) (commit : string)
          : prog session (gset string) :=
        labels ← rpc_total (FetchFindMissingLabels commit)
                   (fun l => missing_labels client l commit);
        m_schemas ← rpc_total (FetchFindMissingSchemas commit)
                      (fun l => missing_schemas client l commit);
        for_each m_schemas (fun schema =>
          '(schema_hash, schemaVal) ← rpc_total (FetchSchema schema)
                                        (fun l => schema_value client l schema);
          modify_local (CW_schema schema_hash schemaVal));;
        m_hashes ← rpc_total (FetchFindMissingHashRecords commit)
                     (fun l => missing_hash_records client l commit);
        let m_schema_hash_map :=
          foldl (fun m (ds : string * string) => group_append ds.2 ds m)
            [] m_hashes in
        for_each m_schema_hash_map (fun group =>
          modify_local (fun st =>
            (CW_data group.1 group.2 (Some "50"%string) st).2));;
        mret (acc ∪ list_to_set labels) in
      m_labels ← foldl (fun acc commit => a ← acc; transfer a commit)
                   (mret ∅) m_commits;
      for_each (set_iter m_labels) (fun label =>
        '(recieved_hash, labelVal) ← rpc_total (FetchLabel label)
                                       (fun l => label_value client l label);
        modify_local (CW_label recieved_hash labelVal));;
      for_each m_commits (fun commit =>
        content ← rpc_total (FetchCommitRecord commit)
                    (fun l => commit_value client l commit);
        modify_local (CW_commit content));;
      let bHEAD := rec_commit s_branch in
      let bName := if concat_branch_names
                   then remote_name +:+ "/" +:+ branch_name
                   else branch_name in
      update_tracking_branch bName bHEAD;;
      mret (Some bName)
  end.

End Sync.

(** *** [fetch_data]: partial-clone materialisation *)

(** A decoded entry of the hash index. Modelled from the spec: the
    chunked backend is variant ["00"] (its parser reports the backend
    [hdf5_00]), the reference-only remote backend is variant ["50"] and
    its entries keep the schema hash of the data. *)
Inductive hash_spec : Type :=
  | Hdf5_00 (location : Hdf5.DataHashSpec)
  | Remote_50 (schema_hash : string).

#[export] Instance hash_spec_eq_dec : EqDecision hash_spec.
Proof. solve_decision. Defined.

Definition backend_of (v : hash_spec) : string :=
  match v with
  | Hdf5_00 location => Hdf5.backend location
  | Remote_50 _ => "50"
  end.

(** [hashSpec.schema_hash]: only the entries of the remote backend
    have the attribute. *)
Definition schema_hash_of (v : hash_spec) : result string :=
  match v with
  | Hdf5_00 _ => Raise AttributeError
  | Remote_50 h => Ok h
  end.

Section FetchData.

(** Not under the sources: the connection, [ContentWriter.data], the
    data hashes of a checked-out commit
    ([RecordQuery(...).data_hashes()]), the decoded hash index
    ([HashQuery.map_all_hash_keys_raw_to_values_raw]) and the
    iteration order of Python sets. *)
Variable connect : string -> result server.
Variable set_iter : gset string -> list string.
Variable CW_data :
  string -> list (string * string) -> option string -> repo
  -> list string * repo.
Variable data_hashes : repo -> string -> list string.
Variable map_all_hash_keys_raw_to_values_raw :
  gmap string string -> gmap string hash_spec.

(** The loop that builds [m_schema_hash_map]. *)
Fixpoint schema_hash_map (hashMap : gmap string hash_spec)
    (digests : list string) (m : list (string * list string))
  : result (list (string * list string)) :=
  match digests with
  | [] => Ok m
  | digest :: rest =>
      hashSpec ← of_option KeyError (hashMap !! digest);
      if String.eqb (backend_of hashSpec) "50" then
        h ← schema_hash_of hashSpec;
        schema_hash_map hashMap rest (group_append h digest m)
      else schema_hash_map hashMap rest m
  end.

(** The [while len(hashes) > 0] loop for one schema. [None]: the fuel
    ran out with digests still missing. *)
Fixpoint fetch_group (fuel : nat) (client : server) (schema : string)
    (hashes : gset string) (s : session) : option session :=
  match fuel with
  | O => None
  | S fuel' =>
      if bool_decide (hashes = ∅) then Some s
      else
        let ret := data_batch client (log s) schema hashes in
        let s := set_log s (log s ++ [FetchData schema hashes]) in
        let '(saved_digests, st) := CW_data schema ret None (local s) in
        fetch_group fuel' client schema (hashes ∖ list_to_set saved_digests)
          (set_local s st)
  end.

Fixpoint fetch_groups (fuel : nat) (client : server)
    (groups : list (string * list string)) (s : session) : option session :=
  match groups with
  | [] => Some s
  | (schema, digests) :: rest =>
      match fetch_group fuel client schema (list_to_set digests) s with
      | Some s' => fetch_groups fuel client rest s'
      | None => None
      end
  end.

(** [all([branch, commit])] *)
Definition truthy (o : option string) : bool :=
  match o with
  | Some (String _ _) => true
  | _ => false
  end.

(** The part of [fetch_data] after the commit is known. *)
Definition fetch_commit_data (fuel : nat) (client : server) (cmt : string)
    (s : session) : option (result string * session) :=
  let cmtData_hashs : gset string :=
    list_to_set (data_hashes (local s) cmt) in
  let hashMap := map_all_hash_keys_raw_to_values_raw (hashenv (local s)) in
  match schema_hash_map hashMap (set_iter cmtData_hashs) [] with
  | Raise e => Some (Raise e, s)
  | Ok m_schema_hash_map =>
      match fetch_groups fuel client m_schema_hash_map s with
      | None => None
      | Some s' =>
          Some (Ok cmt, set_local s' (move_remote_data_to_store (local s')))
      end
  end.

(** [Remote.fetch_data] *)
Definition fetch_data (fuel : nat) (remote : string)
    (branch commit : option string) (s : session)
  : option (result string * session) :=
  if negb (repo_is_initialized s) then Some (Raise RuntimeError, s)
  else
    match get_remote_address (branchenv (local s)) remote with
    | Raise e => Some (Raise e, s)
    | Ok address =>
        match connect address with
        | Raise e => Some (Raise e, s)
        | Ok client =>
            if truthy branch && truthy commit then Some (Raise ValueError, s)
            else
              let cmt :=
                match branch, commit with
                | Some b, _ => get_branch_head_commit (branchenv (local s)) b
                | None, Some c =>
                    if check_commit_hash_in_history (refenv (local s)) c
                    then Ok c else Raise ValueError
                | None, None => Raise ValueError
                end in
              match cmt with
              | Raise e => Some (Raise e, s)
              | Ok cmt => fetch_commit_data fuel client cmt s
              end
        end
    end.

(** [Repository.fetch_data]: the same walk for a given commit hash (the
    remaining digests are kept in a list instead of a set). *)
Definition repository_fetch_data (fuel : nat) (remote_name : string)
    (commit_hash : string) (s : session)
  : option (result string * session) :=
  if negb (repo_is_initialized s) then Some (Raise RuntimeError, s)
  else
    match get_remote_address (branchenv (local s)) remote_name with
    | Raise e => Some (Raise e, s)
    | Ok address =>
        match connect address with
        | Raise e => Some (Raise e, s)
        | Ok client => fetch_commit_data fuel client commit_hash s
        end
    end.

End FetchData.

(** The digests requested by the calls of a log. *)
Definition requested (calls : list rpc_call) (d : string) : Prop :=
  exists schema hashes, FetchData schema hashes ∈ calls /\ d ∈ hashes.

(** The reading of "bytes are requested for exactly the digests whose
    hash-index entry names the chunked backend". *)
Definition requests_chunked_entries
    (connect : string -> result server)
    (set_iter : gset string -> list string)
    (CW_data : string -> list (string * string) -> option string -> repo
               -> list string * repo)
    (data_hashes : repo -> string -> list string)
    (hash_index : gmap string string -> gmap string hash_spec) : Prop :=
  forall fuel remote branch commit s cmt s',
    fetch_data connect set_iter CW_data data_hashes hash_index
      fuel remote branch commit s = Some (Ok cmt, s') ->
    forall d,
      requested (drop (length (log s)) (log s')) d
      <-> d ∈ data_hashes (local s) cmt
          /\ exists location,
               hash_index (hashenv (local s)) !! d = Some (Hdf5_00 location).

(** [d] is listed under [k] in a [defaultdict(list)]. *)
Definition grouped (m : list (string * list string)) (k d : string) : Prop :=
  exists l, (k, l) ∈ m /\ d ∈ l.

(** The commit [Remote.fetch_data] works on: [branch] and [commit]
    must not both be set; a branch gives its head, a commit must be in
    the history. *)
Definition resolve_commit (st : repo) (branch commit : option string)
  : result string :=
  if truthy branch && truthy commit then Raise ValueError
  else
    match branch, commit with
    | Some b, _ => get_branch_head_commit (branchenv st) b
    | None, Some c =>
        if check_commit_hash_in_history (refenv st) c then Ok c
        else Raise ValueError
    | None, None => Raise ValueError
    end.

(** The hash index has an entry for every digest of a set, and its
    entries with the backend ["50"] are reference-only entries. *)
Definition index_covers (hashMap : gmap string hash_spec)
    (digests : gset string) : Prop :=
  forall d, d ∈ digests ->
    exists v, hashMap !! d = Some v
              /\ (backend_of v = "50"%string -> exists h, v = Remote_50 h).

Section Retries.

Variable CW_data :
  string -> list (string * string) -> option string -> repo
  -> list string * repo.
Variable client : server.

(** Of the digests a call asks for, the writer saves at least one. *)
Definition writer_progresses : Prop :=
  forall schema calls hashes st,
    hashes <> ∅ ->
    exists d, d ∈ hashes
      /\ d ∈ (CW_data schema (data_batch client calls schema hashes) None st).1.

(** The calls for one schema, from one session to another. With no
    digest left nothing is done. Otherwise the digests that are left
    are requested, the writer is given what the server sent for them,
    the digests the writer reports as saved are taken off, and the
    same is done for the rest, in the repository as the writer left
    it. *)
Inductive retries (schema : string)
  : gset string -> session -> session -> Prop :=
  | retries_done s : retries schema ∅ s s
  | retries_step hashes s saved_digests st s' :
      hashes <> ∅ ->
      CW_data schema (data_batch client (log s) schema hashes) None (local s)
      = (saved_digests, st) ->
      retries schema (hashes ∖ list_to_set saved_digests)
        (set_local (set_log s (log s ++ [FetchData schema hashes])) st) s' ->
      retries schema hashes s s'.

(** The groups of [m_schema_hash_map], one after the other. *)
Inductive group_runs
  : list (string * list string) -> session -> session -> Prop :=
  | group_runs_nil s : group_runs [] s s
  | group_runs_cons schema digests rest s s1 s' :
      retries schema (list_to_set digests) s s1 ->
      group_runs rest s1 s' ->
      group_runs ((schema, digests) :: rest) s s'.

(** What [fetch_data] does from one session to another: the digests of
    the commit whose entry is a reference-only entry are grouped by
    the schema hash of the entry (one group per schema hash, none
    empty); the groups are fetched one after the other, each by
    [retries]; then the remote data is promoted to the store. *)
Definition materialises (hashMap : gmap string hash_spec)
    (digests : gset string) (s s' : session) : Prop :=
  exists groups s1,
    NoDup groups.*1
    /\ (forall schema d,
          grouped groups schema d
          <-> d ∈ digests /\ hashMap !! d = Some (Remote_50 schema))
    /\ Forall (fun g => g.2 <> []) groups
    /\ group_runs groups s s1
    /\ s' = set_local s1 (move_remote_data_to_store (local s1)).

End Retries.

(** The calls added to the log request exactly the digests of a set
    whose entry is a reference-only entry. *)
Definition requests_references (hashMap : gmap string hash_spec)
    (digests : gset string) (s s' : session) : Prop :=
  exists calls,
    log s' = log s ++ calls
    /\ (forall call, call ∈ calls -> exists schema hashes,
          call = FetchData schema hashes)
    /\ forall d,
         requested calls d
         <-> d ∈ digests /\ exists schema, hashMap !! d = Some (Remote_50 schema).

(** *** [push] *)

(** [getattr(self, name)] on a [Remote]: [__init__] sets [_env],
    [_repo_path] and [_client], and the class defines no other data
    attribute or property. Only the environments are modelled, so the
    two other attributes have no value here. *)
Definition remote_getattr (s : session) (name : string) : result repo :=
  if String.eqb name "_env" then Ok (local s)
  else Raise AttributeError.

(** [isEmpty = curs.first()] and the [while not isEmpty] loop of
    [Remote.push]. [None]: still looping when the fuel ran out. *)
Fixpoint delete_while_not (fuel : nat) (isEmpty : bool) (c : cursor)
  : option cursor :=
  match fuel with
  | O => None
  | S fuel' =>
      if isEmpty then Some c
      else
        let '(r, c') := cursor_delete c in
        delete_while_not fuel' r c'
  end.

(** [not val] for [bytes] or [None] *)
Definition falsy (o : option string) : bool :=
  match o with
  | Some (String _ _) => false
  | _ => true
  end.

(** What the commit loop of a push collects. *)
Record missing_objects : Type := mk_missing_objects {
  m_schemas : gset string;
  m_schema_hashs : list (string * gset string);
  m_labels : gset string
}.

(** [m[k].update(vs)] on a [defaultdict(set)] *)
Fixpoint group_update (k : string) (vs : gset string)
    (m : list (string * gset string)) : list (string * gset string) :=
  match m with
  | [] => [(k, vs)]
  | (k', s) :: rest =>
      if String.eqb k' k then (k', s ∪ vs) :: rest
      else (k', s) :: group_update k vs rest
  end.

(** The outcome of a push: the branch name of the two early returns,
    or [True]. *)
Inductive push_result : Type :=
  | ReturnedBranch (branch : string)
  | ReturnedTrue.

Section Push.

(** Not under the sources: the connection, [ContentReader],
    [summarize.list_history], [commiting.unpack_commit_ref] and the
    iteration order of Python sets. *)
Variable connect : string -> result server.
Variable set_iter : gset string -> list string.
Variable list_history_order : repo -> string -> list string.
Variable CR_schema : repo -> string -> option string.
Variable CR_label : repo -> string -> option string.
Variable CR_commit : repo -> string -> option commit_content.
Variable unpack_commit_ref :
  gmap string commit_record -> ref_db -> string -> result ref_db.

(** [PERMISSION_DENIED] becomes [PermissionError], any other
    [RpcError] is raised again. *)
Definition find_missing_commits (client : server) (branch : string)
  : prog session (list string) :=
  s ← get;
  put (set_log s (log s ++ [PushFindMissingCommits branch]));;
  match push_missing_commits client (log s) branch with
  | Ok commits => mret commits
  | Raise RpcPermissionDenied => raise PermissionError
  | Raise e => raise e
  end.

(** [Remote.push] up to the commit loop: [inl] is an early return. *)
Definition push_prelude (remote branch : string)
  : prog session (push_result + server * list string) :=
  __verify_repo_initialized;;
  s ← get;
  address ← lift (get_remote_address (branchenv (local s)) remote);
  cHEAD ← lift (get_branch_head_commit (branchenv (local s)) branch);
  client ← lift (connect address);
  let c_bhistory := list_history_order (local s) branch in
  put (set_log s (log s ++ [FetchBranchRecord branch]));;
  early ←
    match branch_head client (log s) branch with
    | Raise RpcNotFound => mret false
    | Raise e => raise e
    | Ok sHEAD =>
        if String.eqb sHEAD cHEAD then mret true
        else if negb (bool_decide (sHEAD ∈ c_bhistory))
                && negb (String.eqb sHEAD EmptyString) then mret true
        else mret false
    end;
  if early : bool then mret (inl (ReturnedBranch branch))
  else
    m_commits ← find_missing_commits client branch;
    mret (inr (client, m_commits)).

(** The three [push_find_missing_*] calls for one commit, with the
    temporary ref db. *)
Definition find_missing_objects (client : server) (commit : string)
    (tmpDB : ref_db) (acc : missing_objects) : prog session missing_objects :=
  schema_digests ← rpc_total (PushFindMissingSchemas commit (Some tmpDB))
                     (fun l => push_missing_schemas client l commit
                                 (Some tmpDB));
  mis_hashes_sch ← rpc_total (PushFindMissingHashRecords commit (Some tmpDB))
                     (fun l => push_missing_hash_records client l commit
                                 (Some tmpDB));
  let m_cmt_schema_hashs :=
    foldl (fun m (hs : string * string) => group_append hs.2 hs.1 m)
      [] mis_hashes_sch in
  let hashs :=
    foldl (fun m (g : string * list string) =>
             group_update g.1 (list_to_set g.2) m)
      (m_schema_hashs acc) m_cmt_schema_hashs in
  missing_labels ← rpc_total (PushFindMissingLabels commit (Some tmpDB))
                     (fun l => push_missing_labels client l commit
                                 (Some tmpDB));
  mret (mk_missing_objects (m_schemas acc ∪ list_to_set schema_digests)
          hashs (m_labels acc ∪ list_to_set missing_labels)).

(** The loop over the missing commits of [Remote.push]. *)
Fixpoint count_objects (fuel : nat) (client : server)
    (m_commits : list string) (tmpDB : ref_db) (acc : missing_objects)
    (s : session) : option (result missing_objects * session) :=
  match m_commits with
  | [] => Some (Ok acc, s)
  | commit :: rest =>
      let '(isEmpty, c) := cursor_first (mk_cursor tmpDB false) in
      match delete_while_not fuel isEmpty c with
      | None => None
      | Some c' =>
          match (env ← remote_getattr s "env";
                 unpack_commit_ref (refenv env) (records c') commit) with
          | Raise e => Some (Raise e, s)
          | Ok tmpDB' =>
              match run (find_missing_objects client commit tmpDB' acc) s with
              | (Raise e, s') => Some (Raise e, s')
              | (Ok acc', s') =>
                  count_objects fuel client rest tmpDB' acc' s'
              end
          end
      end
  end.

Definition push_commit (client : server) (commit : string)
  : prog session unit :=
  s ← get;
  match CR_commit (local s) commit with
  | None => raise KeyError
  | Some cmtContent =>
      rpc_total (PushCommitRecord (cc_commit cmtContent)
                   (cmtParentVal cmtContent) (cmtSpecVal cmtContent)
                   (cmtRefVal cmtContent)) (fun _ => tt)
  end.

Definition push_label (client : server) (label : string)
  : prog session unit :=
  s ← get;
  let labelVal := CR_label (local s) label in
  if falsy labelVal then raise KeyError
  else rpc_total (PushLabel label (default EmptyString labelVal))
         (fun _ => tt).

Definition push_schema (client : server) (schema : string)
  : prog session unit :=
  s ← get;
  let schemaVal := CR_schema (local s) schema in
  if falsy schemaVal then raise KeyError
  else rpc_total (PushSchema schema (default EmptyString schemaVal))
         (fun _ => tt).

Definition push_branch_record (client : server) (branch : string)
  : prog session unit :=
  s ← get;
  branchHead ← lift (get_branch_head_commit (branchenv (local s)) branch);
  rpc_total (PushBranchRecord branch branchHead) (fun _ => tt).

(** [Remote.push] after the commit loop. *)
Definition send_objects (client : server) (branch : string)
    (m_commits : list string) (acc : missing_objects)
  : prog session push_result :=
  for_each (set_iter (m_schemas acc)) (push_schema client);;
  for_each (m_schema_hashs acc) (fun g =>
    rpc_total (PushData g.1 (set_iter g.2)) (fun _ => tt));;
  for_each (set_iter (m_labels acc)) (push_label client);;
  for_each m_commits (push_commit client);;
  push_branch_record client branch;;
  mret ReturnedTrue.

(** [Remote.push]. The temporary ref db is created empty. *)
Definition push (fuel : nat) (remote branch : string) (s : session)
  : option (result push_result * session) :=
  match run (push_prelude remote branch) s with
  | (Raise e, s') => Some (Raise e, s')
  | (Ok (inl early), s') => Some (Ok early, s')
  | (Ok (inr (client, m_commits)), s') =>
      match count_objects fuel client m_commits []
              (mk_missing_objects ∅ [] ∅) s' with
      | None => None
      | Some (Raise e, s'') => Some (Raise e, s'')
      | Some (Ok acc, s'') =>
          Some (run (send_objects client branch m_commits acc) s'')
      end
  end.

(** [Repository.push]: the three [push_find_missing_*] calls are made
    with the commit alone. *)
Definition repository_push_commit (client : server) (commit : string)
    (labels : gset string) : prog session (gset string) :=
  schema_digests ← rpc_total (PushFindMissingSchemas commit None)
                     (fun l => push_missing_schemas client l commit None);
  for_each schema_digests (push_schema client);;
  mis_hashes_sch ← rpc_total (PushFindMissingHashRecords commit None)
                     (fun l => push_missing_hash_records client l commit None);
  let missing_schema_hashs :=
    foldl (fun m (hs : string * string) => group_append hs.2 hs.1 m)
      [] mis_hashes_sch in
  for_each missing_schema_hashs (fun g =>
    rpc_total (PushData g.1 g.2) (fun _ => tt));;
  missing_labels ← rpc_total (PushFindMissingLabels commit None)
                     (fun l => push_missing_labels client l commit None);
  mret (labels ∪ list_to_set missing_labels).

Definition repository_push (remote_name branch_name : string)
  : prog session bool :=
  __verify_repo_initialized;;
  s ← get;
  address ← lift (get_remote_address (branchenv (local s)) remote_name);
  client ← lift (connect address);
  c_bcommit ← lift (get_branch_head_commit (branchenv (local s)) branch_name);
  let c_bhistory := list_history_order (local s) branch_name in
  s_branch ← fetch_branch_reply client branch_name;
  let rejected :=
    (error_code s_branch =? 0)
    && (String.eqb (rec_commit s_branch) c_bcommit
        || (negb (bool_decide (rec_commit s_branch ∈ c_bhistory))
            && negb (String.eqb (rec_commit s_branch) EmptyString))) in
  if rejected then mret false
  else
    m_commits ← find_missing_commits client branch_name;
    m_labels ← foldl (fun acc commit =>
                        a ← acc; repository_push_commit client commit a)
                 (mret ∅) m_commits;
    for_each (set_iter m_labels) (push_label client);;
    for_each m_commits (push_commit client);;
    push_branch_record client branch_name;;
    mret true.

End Push.

(** Whether a call is a [push_find_missing_*] with a ref db. *)
Definition carries_ref_db (call : rpc_call) : bool :=
  match call with
  | PushFindMissingSchemas _ (Some _)
  | PushFindMissingHashRecords _ (Some _)
  | PushFindMissingLabels _ (Some _) => true
  | _ => false
  end.

End Remotes.

(** ** hangar/backends/hdf5.py: the rest of [HDF5_00_FileHandles] *)

Module Hdf5Files.
Import PyStr Hdf5.

(** *** Fuel for [_chunk_opts] *)

Definition sum_extents (sample_shape : list Z) : Z :=
  fold_right Z.add 0 sample_shape.

(** Iterations that end the loop of [_chunk_opts] whenever it can end:
    a halving takes at least 2 off the sum of the extents, and between
    two halvings the index passes over every axis at most twice. *)
Definition chunk_fuel (sample_shape : list Z) : nat :=
  let rank := Z.of_nat (length sample_shape) in
  S (Z.to_nat ((2 * rank + 2) * sum_extents sample_shape + 2 * rank + 1)).

(** *** Runs of the writer *)

Section WriterRuns.

Variables num_collections collection_size max_nbytes : Z.
Variable HDF_ATTRS : string -> string.
Variable random_string : nat -> string.
Variables SEP LISTSEP SLICESEP HASHSEP : ascii.

(** The handles a writing process can hold: those [__init__] leaves
    (no file, no cursor), and those a [write_data] that returned
    leaves. *)
Inductive written : handles -> Prop :=
  | written_init sample_shape itemsize dir_links n :
      written (mk_handles sample_shape itemsize ∅ None None None None None
                 dir_links n)
  | written_step fuel array remote_operation st loc st' :
      written st ->
      write_data num_collections collection_size max_nbytes HDF_ATTRS
        random_string SEP LISTSEP SLICESEP HASHSEP fuel array
        remote_operation st = Some (Ok (loc, st')) ->
      written st'.

(** The slots of a container that may hold a sample: a row inside the
    collection, in collection 0 or in a collection other than the
    last. *)
Definition slots_ok (fh : h5file) : Prop :=
  forall q j, is_Some (slabs fh !! (q, j)) ->
    Z.of_nat j < collection_size
    /\ (q = 0%nat \/ Z.of_nat q + 1 < num_collections).

(** What holds of the handles between two writes: the containers were
    named by earlier calls of [random_string], every sample sits in a
    slot that may hold one, and the cursor stands on the last sample
    written to the current container, behind every other sample of
    it. *)
Definition cursor_ok (st : handles) : Prop :=
  (forall u fh, wFp st !! u = Some fh -> slots_ok fh)
  /\ (forall u, is_Some (wFp st !! u) ->
        exists k, (k < rng st)%nat /\ u = random_string k)
  /\ match w_uid st with
     | None => wFp st = ∅
     | Some u =>
         exists fh i p,
           wFp st !! u = Some fh
           /\ hIdx st = Some i /\ hNextPath st = Some p
           /\ hColsRemain st = Some (num_collections - Z.of_nat p)
           /\ hMaxSize st = Some collection_size
           /\ (p = 0%nat \/ Z.of_nat p + 1 < num_collections)
           /\ is_Some (slabs fh !! (p, i))
           /\ forall q j, is_Some (slabs fh !! (q, j)) ->
                (q < p)%nat \/ (q = p /\ (j <= i)%nat)
     end.

End WriterRuns.

(** *** [open], [close], [__exit__] and [read_data] *)

(** [s.endswith(suffix)] *)
Fixpoint endswith (s suffix : string) : bool :=
  String.eqb s suffix
  || match s with
     | EmptyString => false
     | String _ s' => endswith s' suffix
     end.

(** The four directories of the backend under the repository path. *)
Inductive backend_dir : Type := StageDir | RemoteDir | DataDir | StoreDir.

(** [os.listdir]: the entries of a directory, [None] where there is no
    directory. *)
Definition listing : Type := backend_dir -> option (list string).

Definition makedirs (d : backend_dir) (ls : listing) : listing :=
  fun d' =>
    match d, d' with
    | StageDir, StageDir | RemoteDir, RemoteDir
    | DataDir, DataDir | StoreDir, StoreDir => Some []
    | _, _ => ls d'
    end.

(** An entry of [rFp]: as [open] registers it, a [partial] that opens
    the file at a path when it is called; once called, the open
    file. *)
Inductive read_handle : Type :=
  | Partial (dir : backend_dir) (file_name : string)
  | Opened (fh : h5file).

(** [HDF5_00_FileHandles] with the fields of the reading side: [writer]
    holds the fields [write_data] works on. *)
Record file_handles : Type := mk_file_handles {
  writer : handles;
  mode : option string;
  rFp : gmap string read_handle
}.

Definition set_writer (h : file_handles) (st : handles) : file_handles :=
  mk_file_handles st (mode h) (rFp h).

Definition set_rFp (h : file_handles) (m : gmap string read_handle)
  : file_handles :=
  mk_file_handles (writer h) (mode h) m.

(** [[x for x in os.listdir(d) if x.endswith('.hdf5')]] *)
Definition hdf5_entries (entries : list string) : list string :=
  List.filter (fun x => endswith x ".hdf5") entries.

(** The loop [for uid in uids: self.rFp[uid] = partial(h5py.File,
    pjoin(d, f'{uid}.hdf5'), 'r', ...)]. *)
Definition register (d : backend_dir) (uids : list string)
    (m : gmap string read_handle) : gmap string read_handle :=
  foldl (fun m uid => <[uid := Partial d (uid +:+ ".hdf5")]> m) m uids.

Definition open (open_mode : string) (remote_operation : bool)
    (ls : listing) (h : file_handles) : listing * file_handles :=
  let h := mk_file_handles (writer h) (Some open_mode) (rFp h) in
  let '(ls, h) :=
    if String.eqb open_mode "a" then
      let process_dir := if remote_operation then RemoteDir else StageDir in
      let ls := match ls process_dir with
                | Some _ => ls
                | None => makedirs process_dir ls
                end in
      let process_uids := hdf5_entries (default [] (ls process_dir)) in
      (ls, set_rFp h (register process_dir process_uids (rFp h)))
    else (ls, h) in
  if remote_operation then (ls, h)
  else
    match ls StoreDir with
    | None => (ls, h)
    | Some entries =>
        (ls, set_rFp h (register StoreDir (hdf5_entries entries) (rFp h)))
    end.

(** The three statements that [__exit__], [close] and the cursor
    advance share: the cursor goes to the attributes [next_dset] and
    [num_collections_remaining] of the current container, which is
    flushed. *)
Definition persist_cursor (st : handles) : result handles :=
  if writer_open st then
    file_uid ← of_option KeyError (w_uid st);
    fh ← of_option KeyError (wFp st !! file_uid);
    path ← of_option TypeError (hNextPath st);
    idx ← of_option TypeError (hIdx st);
    remain ← of_option TypeError (hColsRemain st);
    let fh := attrs_modify "next_dset" [Z.of_nat path; Z.of_nat idx] fh in
    let fh := attrs_modify "num_collections_remaining" [remain] fh in
    Ok (set_file st file_uid (flush fh))
  else Ok st.

Definition __exit__ (h : file_handles) : result file_handles :=
  st ← persist_cursor (writer h);
  Ok (set_writer h st).

(** [close]. The second component is the write handles that were
    closed, with the files as they were left. *)
Definition close (h : file_handles)
  : result (file_handles * gmap string h5file) :=
  if bool_decide (mode h = Some "a"%string) then
    st ← persist_cursor (writer h);
    let st :=
      if writer_open (writer h) then
        mk_handles (schema_shape st) (schema_itemsize st) (wFp st) None
          None None None None (links st) (rng st)
      else st in
    Ok (mk_file_handles
          (mk_handles (schema_shape st) (schema_itemsize st) ∅ (w_uid st)
             (hIdx st) (hNextPath st) (hColsRemain st) (hMaxSize st)
             (links st) (rng st))
          (mode h) (rFp h),
        wFp st)
  else Ok (mk_file_handles (writer h) (mode h) ∅, ∅).

Section Reader.

(** Not under the sources: [h5py]. [open_file d name] is what
    [h5py.File(pjoin(d, name), 'r', ...)] gives, [read_direct fh col
    idx shape] what [fh[col].read_direct(destArr, (idx, 0:s0, ...),
    None)] leaves in [destArr]. *)
Variable open_file : backend_dir -> string -> result h5file.
Variable read_direct : h5file -> string -> nat -> list nat -> result ndarray.

(** [self.Fp[uid]] with [Fp = ChainMap(rFp, wFp)] *)
Definition Fp_lookup (h : file_handles) (file_uid : string)
  : result read_handle :=
  match rFp h !! file_uid with
  | Some r => Ok r
  | None =>
      fh ← of_option KeyError (wFp (writer h) !! file_uid);
      Ok (Opened fh)
  end.

(** [read_data]. Subscripting a [partial] raises the [TypeError] that
    the handler waits for: it calls the partial and stores the open
    file in [rFp], the first map of the chain. An open file is not
    callable, so a [TypeError] of [read_direct] itself ends in a
    [TypeError] of the handler. *)
Definition read_data (hashVal : DataHashSpec) (h : file_handles)
  : result ndarray * file_handles :=
  match int_of_str (dataset_idx hashVal) with
  | Raise e => (Raise e, h)
  | Ok dsetIdx =>
      let dsetCol := "/" +:+ dataset hashVal in
      match Fp_lookup h (uid hashVal) with
      | Raise e => (Raise e, h)
      | Ok (Opened fh) =>
          (read_direct fh dsetCol dsetIdx (shape hashVal), h)
      | Ok (Partial d name) =>
          match open_file d name with
          | Raise e => (Raise e, h)
          | Ok fh =>
              (read_direct fh dsetCol dsetIdx (shape hashVal),
               set_rFp h (<[uid hashVal := Opened fh]> (rFp h)))
          end
      end
  end.

End Reader.

(** *** [_dataset_opts] *)

(** The Python values that pass through [_dataset_opts]. *)
Inductive pyval : Type :=
  | VNone
  | VBool (b : bool)
  | VInt (n : Z)
  | VStr (s : string)
  | VTuple (items : list Z).

#[export] Instance pyval_eq_dec : EqDecision pyval.
Proof. solve_decision. Defined.

(** [bool(v)] *)
Definition truth (v : pyval) : bool :=
  match v with
  | VNone => false
  | VBool b => b
  | VInt n => negb (n =? 0)
  | VStr s => negb (String.eqb s EmptyString)
  | VTuple items => negb (Repo.is_nil items)
  end.

(** [l.index(x)]: the first position of [x], [ValueError] if there is
    none. *)
Fixpoint index_of (x : string) (l : list string) : result Z :=
  match l with
  | [] => Raise ValueError
  | y :: rest =>
      if String.eqb y x then Ok 0
      else n ← index_of x rest; Ok (n + 1)
  end.

Definition compressors : list string :=
  ["blosclz"; "lz4"; "lz4hc"; "snappy"; "zlib"; "zstd"]%string.

Definition _dataset_opts (complib : string) (complevel : Z) (shuffle : pyval)
    (fletcher32 : bool) : result (gmap string pyval) :=
  if String.prefix "blosc" complib then
    let shuffle :=
      if bool_decide (shuffle = VStr "bit") then 2
      else if truth shuffle then 1 else 0 in
    complib ← index_of complib (map (fun c => "blosc:" +:+ c) compressors);
    let args : gmap string pyval :=
      {[ "compression"%string := VInt 32001;
         "compression_opts"%string :=
           VTuple [0; 0; 0; 0; complevel; shuffle; complib];
         "fletcher32"%string := VBool fletcher32 ]} in
    Ok (if negb (shuffle =? 0) then <["shuffle"%string := VBool false]> args
        else args)
  else
    Ok {[ "shuffle"%string := shuffle;
          "compression"%string := VStr complib;
          "compression_opts"%string :=
            (if String.eqb complib "lzf" then VNone else VInt complevel);
          "fletcher32"%string := VBool fletcher32 ]}.

(** *** [remove_unused] *)

(** [os.path.splitext] on a name without directory part: the split is
    at the last dot, unless nothing but dots comes before it. *)
Definition splitext (p : string) : string * string :=
  let '(root, dot, ext) := rpartition "." p in
  if String.eqb dot EmptyString then (p, EmptyString)
  else if all_chars (Ascii.eqb ".") root then (p, EmptyString)
  else (root, "." +:+ ext).

(** [os.remove] raises [FileNotFoundError] for a path that does not
    exist. *)
Inductive os_error : Type := FileNotFoundError.

Section RemoveUnused.

(** Not under the sources: [HashQuery.list_all_hash_values] and the
    iteration order of Python sets. *)
Variable set_iter : gset string -> list string.
Variable list_all_hash_values : gmap string string -> list Remotes.hash_spec.

(** [set(v.uid for v in stgHashs if v.backend == FmtBackend)] *)
Definition staged_files (stgHashs : list Remotes.hash_spec) : gset string :=
  list_to_set
    (omap (fun v =>
             match v with
             | Remotes.Hdf5_00 location =>
                 if String.eqb (backend location) FmtBackend
                 then Some (uid location) else None
             | Remotes.Remote_50 _ => None
             end)
       stgHashs).

(** [set(psplitext(x)[0] for x in os.listdir(stg_dir) if
    x.endswith('.hdf5'))] *)
Definition staged_uids (stg : gset string) : gset string :=
  list_to_set (map (fun x => (splitext x).1) (hdf5_entries (elements stg))).

(** The removal loop: the link in the stage directory, then the data
    file. The first path that does not exist ends it. *)
Fixpoint remove_files (unused_uids : list string) (stg dat : gset string)
  : option os_error * (gset string * gset string) :=
  match unused_uids with
  | [] => (None, (stg, dat))
  | unused_uid :: rest =>
      let name := unused_uid +:+ ".hdf5" in
      if bool_decide (name ∈ stg) then
        let stg := stg ∖ {[ name ]} in
        if bool_decide (name ∈ dat) then remove_files rest stg (dat ∖ {[ name ]})
        else (Some FileNotFoundError, (stg, dat))
      else (Some FileNotFoundError, (stg, dat))
  end.

(** [remove_unused]: [stg_dir] is the listing of the stage directory
    ([None] if it is no directory), [dat_dir] that of the data
    directory. *)
Definition remove_unused (stagehashenv : gmap string string)
    (stg_dir : option (gset string)) (dat_dir : gset string)
  : option os_error * (option (gset string) * gset string) :=
  match stg_dir with
  | None => (None, (None, dat_dir))
  | Some stg =>
      let stgHashs := list_all_hash_values stagehashenv in
      let stg_files := staged_files stgHashs in
      let stg_uids := staged_uids stg in
      let unused_uids := stg_uids ∖ stg_files in
      let '(err, (stg', dat')) :=
        remove_files (set_iter unused_uids) stg dat_dir in
      (err, (Some stg', dat'))
  end.

End RemoveUnused.

End Hdf5Files.

(** ** Small repositories used in the examples *)

Module Fixtures.
Import PyStr Hdf5 Diff Repo Merger Remotes.

Definition test_uid (n : nat) : string := "uid" +:+ str_of_nat n.

Definition fresh_handles : handles :=
  mk_handles [2%nat] 8 ∅ None None None None None [] 0.

Definition test_array : ndarray := mk_ndarray [2%nat] [7; 7].

Definition first_file : h5file :=
  mk_h5file (initial_attrs 3 2 id [2%nat] [2]) [1; 2]
    {[ (0%nat, 0%nat) := test_array ]} false true.

Definition after_first_write : handles :=
  mk_handles [2%nat] 8 {[ "uid0"%string := first_file ]} (Some "uid0"%string)
    (Some 0%nat) (Some 0%nat) (Some 3) (Some 2)
    [(STAGEDIR, "uid0"%string)] 1.

Definition schema_d : schema_spec :=
  mk_schema_spec "uuid-d" "hash-d" false [50%nat] 7 true.

Definition schema_e : schema_spec :=
  mk_schema_spec "uuid-e" "hash-e" false [3%nat; 3%nat] 11 true.

Definition merge_ancestor : contents :=
  mk_contents {[ "k0" := "v0" ]}%string
    {[ "d"%string :=
         mk_dataset schema_d
           {[ ("d", "0") := "h0"; ("d", "1") := "h1" ]}%string ]}.

Definition merge_master : contents :=
  mk_contents {[ "k0" := "v0"; "km" := "vm" ]}%string
    {[ "d"%string :=
         mk_dataset schema_d
           {[ ("d", "0") := "h0m"; ("d", "1") := "h1";
              ("d", "2") := "h2" ]}%string ]}.

Definition merge_dev : contents :=
  mk_contents {[ "k0" := "v0"; "kd" := "vd" ]}%string
    {[ "d"%string :=
         mk_dataset schema_d {[ ("d", "0") := "h0" ]}%string;
       "e"%string :=
         mk_dataset schema_e {[ ("e", "0") := "g0" ]}%string ]}.

Definition merge_result : contents :=
  mk_contents {[ "k0" := "v0"; "km" := "vm"; "kd" := "vd" ]}%string
    {[ "d"%string :=
         mk_dataset schema_d
           {[ ("d", "0") := "h0m"; ("d", "2") := "h2" ]}%string;
       "e"%string :=
         mk_dataset schema_e {[ ("e", "0") := "g0" ]}%string ]}.

Definition spec_at (t : Z) : commit_spec :=
  mk_commit_spec t "msg" "u" "u@e" false.

(** A history in which the root [aaa] and its child [bbb] carry the
    same commit time; master [ccc] and dev [ddd] are both children of
    [bbb]. *)
Definition tie_repo : repo :=
  mk_repo
    (mk_branch_env {[ "master" := "ccc"; "dev" := "ddd" ]}%string
       EmptyString "master" ∅)
    {[ "aaa"%string := mk_commit_record [] (spec_at 5) [];
       "bbb"%string := mk_commit_record ["aaa"%string] (spec_at 5) [];
       "ccc"%string := mk_commit_record ["bbb"%string] (spec_at 6) [];
       "ddd"%string := mk_commit_record ["bbb"%string] (spec_at 7) [] ]}
    [] ∅ ∅ ∅ (mk_data_dirs ∅ ∅ ∅).

(** Three commits: [base], and on top of it [m1] on master and [d1] on
    dev. The staging area equals the refs of [m1]. *)
Definition three_commits : gmap string commit_record :=
  {[ "base"%string := mk_commit_record [] (spec_at 1) [("k", "v0")]%string;
     "m1"%string :=
       mk_commit_record ["base"%string] (spec_at 2) [("k", "v1")]%string;
     "d1"%string :=
       mk_commit_record ["base"%string] (spec_at 3) [("k", "v2")]%string ]}.

Definition branched_repo : repo :=
  mk_repo
    (mk_branch_env {[ "master" := "m1"; "dev" := "d1" ]}%string
       EmptyString "master" ∅)
    three_commits [("k", "v1")]%string ∅ ∅ ∅ (mk_data_dirs ∅ ∅ ∅).

(** Master and dev set the same metadata key to different values. *)
Definition conflicting_contents (_ : gmap string commit_record) (c : string)
  : result contents :=
  if String.eqb c "base" then Ok (mk_contents {[ "k" := "v0" ]}%string ∅)
  else if String.eqb c "m1" then Ok (mk_contents {[ "k" := "v1" ]}%string ∅)
  else if String.eqb c "d1" then Ok (mk_contents {[ "k" := "v2" ]}%string ∅)
  else Raise KeyError.

(** Master and dev make the changes of [merge_master] and [merge_dev]. *)
Definition mergeable_contents (_ : gmap string commit_record) (c : string)
  : result contents :=
  if String.eqb c "base" then Ok merge_ancestor
  else if String.eqb c "m1" then Ok merge_master
  else if String.eqb c "d1" then Ok merge_dev
  else Raise KeyError.

Definition test_codec : parsing_codec :=
  mk_parsing_codec "a.count" str_of_nat
    (fun n => "a:" +:+ n) schema_hash
    (fun n => "a:" +:+ n +:+ ":count") str_of_nat
    (fun n k => "a:" +:+ n +:+ ":" +:+ k) id
    "l.count" str_of_nat
    (fun k => "l:" +:+ k) id.

Definition keep_dirs (d : data_dirs) (_ : gmap string string)
  : result data_dirs := Ok d.

Definition test_digest (_ : list (string * string)) (_ : list string)
    (_ : commit_spec) : string := "merge".

Definition test_spec (message : string) (is_merge : bool) : commit_spec :=
  mk_commit_spec 9 message "u" "u@e" is_merge.

Definition test_merge (contents_of :
    gmap string commit_record -> string -> result contents) :=
  select_merge_algorithm iter_ascending "FORCE_RELEASE" ancestors_graph
    contents_of conflict_found test_codec keep_dirs test_digest test_spec.

(** Master still at [base], dev one commit ahead. *)
Definition behind_repo : repo :=
  mk_repo
    (mk_branch_env {[ "master" := "base"; "dev" := "d1" ]}%string
       EmptyString "master" ∅)
    three_commits [("k", "v0")]%string ∅ ∅ ∅ (mk_data_dirs ∅ ∅ ∅).

(** A clone of [branched_repo] with the remote [origin], and a server
    whose [master] is at the same commit. *)
Definition cloned_repo : repo :=
  mk_repo
    (mk_branch_env {[ "master" := "m1"; "dev" := "d1" ]}%string
       EmptyString "master" {[ "origin" := "localhost:50051" ]}%string)
    three_commits [("k", "v1")]%string ∅ ∅ ∅ (mk_data_dirs ∅ ∅ ∅).

Definition quiet_server : server :=
  mk_server
    (fun _ b => if String.eqb b "master" then Ok "m1"%string
                else Raise RpcNotFound)
    (fun _ _ => Ok [])
    (fun _ _ => []) (fun _ d => (d, EmptyString))
    (fun _ _ => []) (fun _ d => (d, EmptyString))
    (fun _ _ => [])
    (fun _ c => mk_commit_content c EmptyString EmptyString EmptyString)
    (fun _ _ _ => [])
    (fun _ _ => Ok [])
    (fun _ _ _ => []) (fun _ _ _ => []) (fun _ _ _ => []).

Definition test_connect (s : server) (address : string) : result server :=
  if String.eqb address "localhost:50051" then Ok s else Raise RpcError.

Definition test_history (st : repo) (branch : string) : list string :=
  match heads (branchenv st) !! branch with
  | Some c => elements (dom (ancestors_graph (refenv st) c))
  | None => []
  end.

Definition keep_label (_ _ : string) (st : repo) : repo := st.

Definition save_all (_ : string) (batch : list (string * string))
    (_ : option string) (st : repo) : list string * repo :=
  (map fst batch, st).

Definition keep_commit (_ : commit_content) (st : repo) : repo := st.

Definition cloned_session : session := mk_session cloned_repo true [].

(** A partial clone: the commit [m1] has one sample stored in the
    chunked backend and one that is only referenced. *)
Definition partial_hashes (_ : repo) (c : string) : list string :=
  if String.eqb c "m1" then ["h00"; "h50"]%string else [].

Definition partial_index (_ : gmap string string) : gmap string hash_spec :=
  {[ "h00"%string :=
       Hdf5_00 (mk_DataHashSpec "hdf5_00" "uid0" "0" "0" [2%nat]);
     "h50"%string := Remote_50 "sch" ]}.

Definition data_server : server :=
  mk_server
    (fun _ b => if String.eqb b "master" then Ok "m1"%string
                else Raise RpcNotFound)
    (fun _ _ => Ok [])
    (fun _ _ => []) (fun _ d => (d, EmptyString))
    (fun _ _ => []) (fun _ d => (d, EmptyString))
    (fun _ _ => [])
    (fun _ c => mk_commit_content c EmptyString EmptyString EmptyString)
    (fun _ _ hashes => map (fun d => (d, "bytes"%string)) (elements hashes))
    (fun _ _ => Ok [])
    (fun _ _ _ => []) (fun _ _ _ => []) (fun _ _ _ => []).

Definition after_fetch_data : session :=
  mk_session cloned_repo true [FetchData "sch" {[ "h50"%string ]}].

(** A server whose [master] is one commit behind [cloned_repo]: it
    reports the commit [m1] missing. *)
Definition stale_server : server :=
  mk_server
    (fun _ b => if String.eqb b "master" then Ok "base"%string
                else Raise RpcNotFound)
    (fun _ _ => Ok [])
    (fun _ _ => []) (fun _ d => (d, EmptyString))
    (fun _ _ => []) (fun _ d => (d, EmptyString))
    (fun _ _ => [])
    (fun _ c => mk_commit_content c EmptyString EmptyString EmptyString)
    (fun _ _ _ => [])
    (fun _ _ => Ok ["m1"%string])
    (fun _ _ _ => []) (fun _ _ _ => []) (fun _ _ _ => []).

Definition read_value (_ : repo) (d : string) : option string :=
  Some ("value of " +:+ d).

Definition read_commit (_ : repo) (c : string) : option commit_content :=
  Some (mk_commit_content c "base" "spec" "refs").

Definition unpack_refs (_ : gmap string commit_record) (db : ref_db)
    (c : string) : result ref_db :=
  Ok (db ++ [(c, "refs"%string)]).

Definition after_repository_push : list rpc_call :=
  [ FetchBranchRecord "master";
    PushFindMissingCommits "master";
    PushFindMissingSchemas "m1" None;
    PushFindMissingHashRecords "m1" None;
    PushFindMissingLabels "m1" None;
    PushCommitRecord "m1" "base" "spec" "refs";
    PushBranchRecord "master" "m1" ]%string.

End Fixtures.
(** ** More examples *)

Module Fixtures2.
Import PyStr Hdf5 Diff Repo Merger Remotes Fixtures Hdf5Files.

Definition second_file : h5file :=
  mk_h5file (initial_attrs 3 2 id [2%nat] [2]) [1; 2]
    {[ (0%nat, 0%nat) := test_array; (0%nat, 1%nat) := test_array ]}
    false true.

Definition after_second_write : handles :=
  mk_handles [2%nat] 8 {[ "uid0"%string := second_file ]}
    (Some "uid0"%string) (Some 1%nat) (Some 0%nat) (Some 3) (Some 2)
    [(STAGEDIR, "uid0"%string)] 1.

(** A stand-in for [h5py]'s [read_direct]: the sample stored in the
    slab, if it was stored with the shape asked for. *)
Definition read_slab (fh : h5file) (col : string) (idx : nat)
    (sample_shape : list nat) : result ndarray :=
  match col with
  | String "/" name =>
      match int_of_str name with
      | Ok p =>
          match slabs fh !! (p, idx) with
          | Some a =>
              if bool_decide (arr_shape a = sample_shape) then Ok a
              else Raise TypeError
          | None => Raise LibraryError
          end
      | Raise _ => Raise KeyError
      end
  | _ => Raise KeyError
  end.

Definition no_file (d : backend_dir) (name : string) : result h5file :=
  Raise LibraryError.

Definition writing_handles : file_handles :=
  mk_file_handles after_first_write (Some "a"%string) ∅.

Definition closed_first_file : h5file :=
  mk_h5file
    (<["num_collections_remaining"%string := [3]]>
       (<["next_dset"%string := [0; 0]]> (attrs first_file)))
    [1; 2] {[ (0%nat, 0%nat) := test_array ]} true true.

Definition closed_handles : file_handles :=
  mk_file_handles
    (mk_handles [2%nat] 8 ∅ None None None None None
       [(STAGEDIR, "uid0"%string)] 1)
    (Some "a"%string) ∅.

Definition staged_hashes (_ : gmap string string) : list hash_spec :=
  [ Hdf5_00 (mk_DataHashSpec "hdf5_00" "uid0" "0" "0" [2%nat]);
    Remote_50 "sch" ].

Definition stage_listing : gset string :=
  {[ "uid0.hdf5"; "uid1.hdf5"; "notes.txt" ]}%string.

Definition data_listing : gset string :=
  {[ "uid0.hdf5"; "uid1.hdf5"; "uid2.hdf5" ]}%string.

Definition stage_kept : gset string :=
  {[ "uid0.hdf5"; "notes.txt" ]}%string.

Definition data_kept : gset string :=
  {[ "uid0.hdf5"; "uid2.hdf5" ]}%string.

End Fixtures2.

(** * Properties *)

Import PyStr Hdf5 Fixtures.

(** ** Properties of the location record codec *)

Section StrLemmas.
Import PyStr.

Lemma app_cons a s t : String a s +:+ t = String a (s +:+ t).
Proof. reflexivity. Qed.

Lemma app_empty t : EmptyString +:+ t = t.
Proof. reflexivity. Qed.

Lemma app_empty_r s : s +:+ EmptyString = s.
Proof.
  induction s as [|a s IH]; [reflexivity|]. rewrite app_cons. now f_equal.
Qed.

Lemma app_assoc' s t u : s +:+ (t +:+ u) = (s +:+ t) +:+ u.
Proof.
  induction s as [|a s IH]; [reflexivity|]. rewrite !app_cons. now f_equal.
Qed.

Lemma occurs_app c s t : occurs c (s +:+ t) = occurs c s || occurs c t.
Proof.
  induction s as [|a s IH]; [reflexivity|].
  rewrite app_cons. simpl. rewrite IH. apply orb_assoc.
Qed.

Lemma partition_first c u r :
  occurs c u = false ->
  partition c (u +:+ String c r) = (u, String c EmptyString, r).
Proof.
  induction u as [|a u IH]; intros H.
  - rewrite app_empty. simpl. now rewrite Ascii.eqb_refl.
  - simpl in H. apply orb_false_elim in H as [Ha Hu].
    rewrite app_cons. simpl. rewrite Ha, (IH Hu). reflexivity.
Qed.

Lemma rpartition_none c s :
  occurs c s = false -> rpartition c s = (EmptyString, EmptyString, s).
Proof.
  induction s as [|a s IH]; intros H; [reflexivity|].
  simpl in H. apply orb_false_elim in H as [Ha Hs].
  simpl. rewrite (IH Hs), Ha. reflexivity.
Qed.

Lemma rpartition_last c u r :
  occurs c r = false ->
  rpartition c (u +:+ String c r) = (u, String c EmptyString, r).
Proof.
  intros H. induction u as [|a u IH].
  - rewrite app_empty. simpl.
    rewrite (rpartition_none _ _ H), Ascii.eqb_refl. reflexivity.
  - rewrite app_cons. simpl. rewrite IH. reflexivity.
Qed.

Lemma split_none c s : occurs c s = false -> split c s = [s].
Proof.
  induction s as [|a s IH]; intros H; [reflexivity|].
  simpl in H. apply orb_false_elim in H as [Ha Hs].
  simpl. rewrite Ha, (IH Hs). reflexivity.
Qed.

Lemma split_app c u r :
  occurs c u = false -> split c (u +:+ String c r) = u :: split c r.
Proof.
  induction u as [|a u IH]; intros H.
  - rewrite app_empty. simpl. now rewrite Ascii.eqb_refl.
  - simpl in H. apply orb_false_elim in H as [Ha Hu].
    rewrite app_cons. simpl. rewrite Ha, (IH Hu). reflexivity.
Qed.

Lemma re_sub_class_app cls s t :
  re_sub_class cls (s +:+ t) = re_sub_class cls s +:+ re_sub_class cls t.
Proof.
  induction s as [|a s IH]; [reflexivity|].
  rewrite app_cons. simpl. rewrite IH. now destruct (cls a).
Qed.

Lemma all_chars_app P s t :
  all_chars P (s +:+ t) = all_chars P s && all_chars P t.
Proof.
  induction s as [|a s IH]; [reflexivity|].
  rewrite app_cons. simpl. rewrite IH. apply andb_assoc.
Qed.

Lemma digits_of_uint d : all_chars is_digit (NilEmpty.string_of_uint d) = true.
Proof. induction d; simpl; auto. Qed.

Lemma str_of_nat_digits n : all_chars is_digit (str_of_nat n) = true.
Proof. apply digits_of_uint. Qed.

Lemma to_uint_nonnil n : Nat.to_uint n <> Decimal.Nil.
Proof.
  rewrite <- (Unsigned.of_to n) at 1. rewrite Unsigned.to_of.
  apply DecimalFacts.unorm_nonnil.
Qed.

Lemma str_of_nat_nonempty n : str_of_nat n <> EmptyString.
Proof.
  unfold str_of_nat. pose proof (to_uint_nonnil n) as H.
  destruct (Nat.to_uint n); simpl; congruence.
Qed.

Lemma int_of_str_of_nat n : int_of_str (str_of_nat n) = Ok n.
Proof.
  unfold int_of_str, NilZero.uint_of_string.
  pose proof (str_of_nat_nonempty n) as Hne.
  destruct (str_of_nat n) as [|a s] eqn:E; [congruence|].
  rewrite <- E. unfold str_of_nat. rewrite NilEmpty.usu.
  now rewrite Unsigned.of_to.
Qed.

Lemma all_chars_occurs P c s :
  all_chars P s = true -> P c = false -> occurs c s = false.
Proof.
  intros Hs Hc. induction s as [|a s IH]; [reflexivity|].
  simpl in *. apply andb_prop in Hs as [Ha Hs]. rewrite (IH Hs), orb_false_r.
  destruct (Ascii.eqb_spec a c); [congruence | reflexivity].
Qed.

Lemma all_chars_id cls P s :
  all_chars P s = true -> (forall a, P a = true -> cls a = false) ->
  re_sub_class cls s = s.
Proof.
  intros Hs Hd. induction s as [|a s IH]; [reflexivity|].
  simpl in *. apply andb_prop in Hs as [Ha Hs].
  now rewrite (Hd _ Ha), (IH Hs).
Qed.

Lemma digit_not_in_class a : is_digit a = true -> Hdf5.ShapeFmtRE a = false.
Proof.
  unfold is_digit, Hdf5.ShapeFmtRE. intros H.
  repeat (apply orb_prop in H as [H|H]);
    apply Ascii.eqb_eq in H; subst a; reflexivity.
Qed.

Lemma re_sub_digits n :
  re_sub_class Hdf5.ShapeFmtRE (str_of_nat n) = str_of_nat n.
Proof.
  eapply all_chars_id; [apply str_of_nat_digits | apply digit_not_in_class].
Qed.

End StrLemmas.

Section ParserProps.
Import PyStr Hdf5.

Example encode_rank2 :
  encode ":" " " "*" "$" "abc123" (IntArg 0) (IntArg 12) [2; 3]%nat
  = "00:abc123$0 12*2 3"%string.
Proof. reflexivity. Qed.

Example encode_rank1 :
  encode ":" " " "*" "$" "abc123" (IntArg 3) (IntArg 7) [50]%nat
  = "00:abc123$3 7*50"%string.
Proof. reflexivity. Qed.

Example decode_rank2 :
  decode " " "*" "$" "00:abc123$0 12*2 3"
  = Ok (mk_DataHashSpec "hdf5_00" "abc123" "0" "12" [2; 3]%nat).
Proof. reflexivity. Qed.

Example decode_rank0 :
  decode " " "*" "$" (encode ":" " " "*" "$" "u" (IntArg 1) (IntArg 2) [])
  = Ok (mk_DataHashSpec "hdf5_00" "u" "1" "2" []).
Proof. reflexivity. Qed.

Lemma re_sub_join l :
  re_sub_class ShapeFmtRE (join ", " (map str_of_nat l))
  = join " " (map str_of_nat l).
Proof.
  induction l as [|x l IH]; [reflexivity|].
  destruct l as [|y l]; [apply re_sub_digits|].
  change (join ", " (map str_of_nat (x :: y :: l)))
    with (str_of_nat x +:+ ", " +:+ join ", " (map str_of_nat (y :: l))).
  change (join " " (map str_of_nat (x :: y :: l)))
    with (str_of_nat x +:+ " " +:+ join " " (map str_of_nat (y :: l))).
  rewrite !re_sub_class_app, re_sub_digits, IH. reflexivity.
Qed.

(** The shape field is the decimal extents separated by single blanks. *)
Lemma shape_field_join sample_shape :
  shape_field sample_shape = join " " (map str_of_nat sample_shape).
Proof.
  unfold shape_field, str_of_tuple.
  destruct sample_shape as [|x [|y rest]]; [reflexivity| |].
  - rewrite !re_sub_class_app, re_sub_digits.
    change (re_sub_class ShapeFmtRE "(") with EmptyString.
    change (re_sub_class ShapeFmtRE ",)") with EmptyString.
    rewrite app_empty, app_empty_r. reflexivity.
  - rewrite !re_sub_class_app, re_sub_join.
    change (re_sub_class ShapeFmtRE "(") with EmptyString.
    change (re_sub_class ShapeFmtRE ")") with EmptyString.
    rewrite app_empty, app_empty_r. reflexivity.
Qed.

Lemma all_chars_weaken (P Q : ascii -> bool) s :
  (forall a, P a = true -> Q a = true) ->
  all_chars P s = true -> all_chars Q s = true.
Proof.
  intros HPQ. induction s as [|a s IH]; [reflexivity|]. simpl.
  intros H. apply andb_prop in H as [Ha Hs]. now rewrite (HPQ _ Ha), IH.
Qed.

Lemma shape_field_chars l :
  all_chars digit_or_blank (join " " (map str_of_nat l)) = true.
Proof.
  assert (Hd : forall n, all_chars digit_or_blank (str_of_nat n) = true).
  { intros n. eapply all_chars_weaken; [|apply str_of_nat_digits].
    intros a Ha. unfold digit_or_blank. now rewrite Ha. }
  induction l as [|x l IH]; [reflexivity|].
  destruct l as [|y l]; [apply Hd|].
  change (join " " (map str_of_nat (x :: y :: l)))
    with (str_of_nat x +:+ " " +:+ join " " (map str_of_nat (y :: l))).
  now rewrite !all_chars_app, Hd, IH.
Qed.

Lemma blank_not_in_digits n : occurs " " (str_of_nat n) = false.
Proof.
  eapply all_chars_occurs; [apply str_of_nat_digits | reflexivity].
Qed.

Lemma ints_of_split l :
  l <> [] ->
  ints_of (split " " (join " " (map str_of_nat l))) = Ok l.
Proof.
  induction l as [|x l IH]; [congruence|]. intros _.
  destruct l as [|y l].
  - simpl. rewrite (split_none _ _ (blank_not_in_digits x)). simpl.
    now rewrite int_of_str_of_nat.
  - change (join " " (map str_of_nat (x :: y :: l)))
      with (str_of_nat x +:+ String " " (join " " (map str_of_nat (y :: l)))).
    rewrite (split_app _ _ _ (blank_not_in_digits x)).
    cbn [ints_of]. rewrite int_of_str_of_nat, IH by congruence. reflexivity.
Qed.

Lemma join_nonempty l :
  l <> [] -> join " " (map str_of_nat l) <> EmptyString.
Proof.
  destruct l as [|x l]; [congruence|]. intros _.
  pose proof (str_of_nat_nonempty x) as Hx.
  destruct l as [|y l]; [exact Hx|].
  change (join " " (map str_of_nat (x :: y :: l)))
    with (str_of_nat x +:+ String " " (join " " (map str_of_nat (y :: l)))).
  destruct (str_of_nat x); [congruence|]. rewrite app_cons. congruence.
Qed.

(** C9: decoding an encoded location record gives back the uid, the
    dataset and dataset index as they were formatted into the record,
    and the sample shape; the shape field of a rank-0 sample is empty
    and decodes to the empty tuple. The list separator is the blank
    that [str] puts between the extents of a tuple, the slice separator
    is neither a digit nor a blank, the uid does not contain the hash
    separator, and the formatted dataset and index contain no blank
    (as is the case for the two ints the writer passes). *)
Theorem encode_decode_roundtrip
    (SEP LISTSEP SLICESEP HASHSEP : ascii)
    (file_uid : string) (dset dset_idx : fmt_arg) (sample_shape : list nat) :
  LISTSEP = " "%char ->
  digit_or_blank SLICESEP = false ->
  occurs HASHSEP file_uid = false ->
  occurs LISTSEP (format dset) = false ->
  occurs LISTSEP (format dset_idx) = false ->
  decode LISTSEP SLICESEP HASHSEP
    (encode SEP LISTSEP SLICESEP HASHSEP file_uid dset dset_idx sample_shape)
  = Ok (mk_DataHashSpec FmtBackend file_uid (format dset) (format dset_idx)
          sample_shape)
  /\ shape_field [] = EmptyString
  /\ decode LISTSEP SLICESEP HASHSEP
       (encode SEP LISTSEP SLICESEP HASHSEP file_uid dset dset_idx [])
     = Ok (mk_DataHashSpec FmtBackend file_uid (format dset) (format dset_idx)
             []).
Proof.
  intros -> Hslice Huid Hds Hidx.
  assert (Hgen : forall l,
    decode " " SLICESEP HASHSEP
      (encode SEP " " SLICESEP HASHSEP file_uid dset dset_idx l)
    = Ok (mk_DataHashSpec FmtBackend file_uid (format dset) (format dset_idx)
            l)).
  { intros l. unfold decode, encode, FmtCode, FmtCodeIdx.
    rewrite !app_cons, !app_empty. cbn [drop_chars].
    rewrite (partition_first _ _ _ Huid).
    rewrite <- app_cons, app_assoc'.
    rewrite shape_field_join.
    rewrite rpartition_last.
    2:{ eapply all_chars_occurs; [apply shape_field_chars | exact Hslice]. }
    rewrite (split_app _ _ _ Hds), (split_none _ _ Hidx).
    destruct l as [|x l]; [reflexivity|].
    destruct (String.eqb_spec (join " " (map str_of_nat (x :: l))) EmptyString)
      as [He|_].
    - exfalso. revert He. apply join_nonempty. congruence.
    - rewrite ints_of_split by congruence. reflexivity. }
  split; [apply Hgen|]. split; [reflexivity | apply Hgen].
Qed.

Lemma encode_decode_roundtrip_witness :
  decode " " "*" "$"
    (encode ":" " " "*" "$" "a1B2c3" (IntArg 4) (IntArg 17) [50; 3; 2]%nat)
  = Ok (mk_DataHashSpec "hdf5_00" "a1B2c3" "4" "17" [50; 3; 2]%nat)
  /\ shape_field [] = EmptyString
  /\ decode " " "*" "$"
       (encode ":" " " "*" "$" "a1B2c3" (IntArg 4) (IntArg 17) [])
     = Ok (mk_DataHashSpec "hdf5_00" "a1B2c3" "4" "17" []).
Proof.
  apply (encode_decode_roundtrip ":" " " "*" "$" "a1B2c3"
           (IntArg 4) (IntArg 17) [50; 3; 2]%nat); reflexivity.
Defined.

End ParserProps.

(** ** Properties of the chunk-shape policy *)

Section ChunkOpts.
Import Hdf5.

Example chunk_opts_halves :
  _chunk_opts 10 [100; 100] 8 30000 = Some (Ok ([50; 50], 20000)).
Proof. reflexivity. Qed.

Example chunk_opts_fits :
  _chunk_opts 1 [3; 4] 8 96 = Some (Ok ([3; 4], 96)).
Proof. reflexivity. Qed.

(** Whatever [_chunk_opts] returns fits the budget: the loop is only left
    through its condition. *)
Lemma chunk_loop_partial fuel itemsize B st K nb :
  chunk_loop fuel itemsize B st = Some (Ok (K, nb)) ->
  chunk_nbytes st = nbytes itemsize (chunk_shape st) ->
  nb = nbytes itemsize K /\ nb <= B.
Proof.
  revert st. induction fuel as [|fuel IH]; intros st; simpl; [discriminate|].
  unfold chunk_body.
  destruct (Z.leb_spec (chunk_nbytes st) B) as [Hle|Hgt].
  - intros [= <- <-] Hnb. split; [exact Hnb | exact Hle].
  - destruct (chunk_shape st !! _) as [d|]; [|discriminate].
    destruct (d <=? 2); intros Hrun Hnb; apply IH in Hrun; simpl; auto.
Qed.

(** Once every axis is at most 2 and the chunk is still over budget, no
    iteration changes the shape or the byte count: the loop cannot end. *)
Lemma chunk_loop_stuck fuel itemsize B shape nb idx :
  shape <> [] ->
  Forall (fun d => d <= 2) shape ->
  B < nb ->
  chunk_loop fuel itemsize B (mk_chunk_state shape nb idx) = None.
Proof.
  intros Hne Hall Hgt. revert idx.
  induction fuel as [|fuel IH]; intros idx; simpl; [reflexivity|].
  unfold chunk_body; simpl.
  destruct (Z.leb_spec nb B) as [Hle|_]; [lia|].
  set (i := if (length shape <=? idx)%nat then 0%nat else idx).
  assert (Hi : (i < length shape)%nat).
  { subst i. destruct (Nat.leb_spec (length shape) idx); [|lia].
    destruct shape; [congruence | simpl; lia]. }
  destruct (lookup_lt_is_Some_2 shape i Hi) as [d Hd]. rewrite Hd.
  assert (Hd2 : d <= 2).
  { rewrite Forall_forall in Hall. apply Hall.
    apply list_elem_of_lookup. eauto. }
  destruct (Z.leb_spec d 2); [|lia]. apply IH.
Qed.

(** C4: the chunk-shape loop does not terminate on a sample of shape
    [(3,)] with 8-byte items and a budget of 4 bytes: after the single
    possible halving the chunk [(1,)] still takes 8 bytes and every axis
    is skipped for ever, so no chunk shape within the budget is
    returned although an axis of the sample exceeds 2. *)
Theorem chunk_opts_diverges :
  forall fuel, _chunk_opts fuel [3] 8 4 = None.
Proof.
  intros [|fuel]; [reflexivity|].
  unfold _chunk_opts. simpl. unfold chunk_body. simpl.
  apply chunk_loop_stuck;
    [congruence | constructor; [vm_compute; congruence | constructor] | reflexivity].
Qed.

End ChunkOpts.
(** ** Properties of the chunked-backend writer *)

Section WriterExamples.
Import PyStr Hdf5.

(** The first write through a fresh handle allocates a container and
    puts the sample at collection 0, row 0. *)
Lemma first_write :
  write_data 3 2 1000 id test_uid ":" " " "*" "$" 1 test_array false
    fresh_handles
  = Some (Ok ("00:uid0$0 0*2"%string, after_first_write)).
Proof. vm_compute. reflexivity. Qed.

(** C5, as stated, fails: the first sample written to a newly allocated
    container lands in the slab at collection 0, row 0. *)
Lemma first_slab_is_used :
  ~ skips_first_slab 3 2 1000 id test_uid ":" " " "*" "$".
Proof.
  intros H.
  assert (Hl : wFp after_first_write !! "uid0"%string = Some first_file)
    by reflexivity.
  specialize (H _ _ _ _ _ _ _ _ first_write eq_refl
                ltac:(discriminate) Hl).
  vm_compute in H. discriminate.
Qed.

End WriterExamples.

Section WriterProps.
Import PyStr Hdf5.

Variables num_collections collection_size max_nbytes : Z.
Variable HDF_ATTRS : string -> string.
Variable random_string : nat -> string.
Variables SEP LISTSEP SLICESEP HASHSEP : ascii.

Let write := write_data num_collections collection_size max_nbytes HDF_ATTRS
               random_string SEP LISTSEP SLICESEP HASHSEP.
Let location := encode SEP LISTSEP SLICESEP HASHSEP.

Lemma create_schema_ok fuel remote st chunk nb :
  _chunk_opts fuel (Z.of_nat <$> schema_shape st) (schema_itemsize st)
    max_nbytes = Some (Ok (chunk, nb)) ->
  nb <> 0 ->
  create_schema num_collections collection_size max_nbytes HDF_ATTRS
    random_string fuel remote st
  = Some (Ok (mk_handles (schema_shape st) (schema_itemsize st)
      (<[random_string (rng st) :=
           mk_h5file (initial_attrs num_collections collection_size HDF_ATTRS
                        (schema_shape st) chunk) (1 :: chunk) ∅ true true]>
         (wFp st))
      (Some (random_string (rng st))) (Some 0%nat) (Some 0%nat)
      (Some num_collections) (Some collection_size)
      ((if remote then REMOTEDIR else STAGEDIR, random_string (rng st))
         :: links st)
      (S (rng st)))).
Proof.
  intros Hc Hnb. unfold create_schema. rewrite Hc.
  destruct (Z.eqb_spec nb 0); [contradiction | reflexivity].
Qed.

Lemma write_direct_ok array path idx st fh :
  Z.of_nat path < num_collections ->
  Z.of_nat idx < collection_size ->
  Forall2 le (arr_shape array) (schema_shape st) ->
  write_direct num_collections collection_size array path idx st fh
  = Ok (mk_h5file (attrs fh) (chunks fh)
          (<[(path, idx) := array]> (slabs fh)) false (swmr_mode fh)).
Proof.
  intros Hp Hi Hs. unfold write_direct.
  destruct (Z.ltb_spec (Z.of_nat path) num_collections); [|lia].
  destruct (Z.ltb_spec (Z.of_nat idx) collection_size); [|lia].
  rewrite bool_decide_eq_true_2 by exact Hs. reflexivity.
Qed.

(** C5 (amended): the writer advances the cursor before writing only
    while a writer container is open. Without one it allocates a
    container and writes the first sample at collection 0, row 0. With
    one, a row advance inside the collection writes at the advanced
    row; and when the advance wraps the row and leaves
    [collections_remaining <= 1], the cursor attributes of the old
    container are set and flushed, a new container is allocated, and
    the pending sample is written at collection 0, row 0 of the new
    container. *)
Theorem write_data_cursor fuel array remote st chunk nb :
  _chunk_opts fuel (Z.of_nat <$> schema_shape st) (schema_itemsize st)
    max_nbytes = Some (Ok (chunk, nb)) ->
  nb <> 0 ->
  0 < num_collections -> 0 < collection_size ->
  Forall2 le (arr_shape array) (schema_shape st) ->
  let new_uid := random_string (rng st) in
  let origin := location new_uid (IntArg 0) (IntArg 0) (arr_shape array) in
  (writer_open st = false ->
     exists st' fh,
       write fuel array remote st = Some (Ok (origin, st'))
       /\ w_uid st' = Some new_uid
       /\ wFp st' !! new_uid = Some fh
       /\ slabs fh = {[ (0%nat, 0%nat) := array ]})
  /\ (forall u f i p r,
        w_uid st = Some u -> wFp st !! u = Some f ->
        hIdx st = Some i -> hNextPath st = Some p ->
        hColsRemain st = Some r -> hMaxSize st = Some collection_size ->
        (Z.of_nat (S i) < collection_size -> Z.of_nat p < num_collections ->
           exists st' fh,
             write fuel array remote st
             = Some (Ok (location u (IntArg p) (IntArg (S i))
                           (arr_shape array), st'))
             /\ w_uid st' = Some u
             /\ wFp st' !! u = Some fh
             /\ slabs fh = <[(p, S i) := array]> (slabs f))
        /\ (collection_size <= Z.of_nat (S i) -> r - 1 <= 1 ->
            new_uid <> u ->
            exists st' old new,
              write fuel array remote st = Some (Ok (origin, st'))
              /\ w_uid st' = Some new_uid
              /\ wFp st' !! u = Some old
              /\ attrs old !! "next_dset"%string = Some [Z.of_nat (S p); 0]
              /\ attrs old !! "num_collections_remaining"%string
                 = Some [r - 1]
              /\ synced old = true
              /\ slabs old = slabs f
              /\ wFp st' !! new_uid = Some new
              /\ slabs new = {[ (0%nat, 0%nat) := array ]})).
Proof.
  intros Hc Hnb HN HC Hfit new_uid origin. split.
  - intros Hclosed. unfold write, write_data. rewrite Hclosed.
    rewrite (create_schema_ok _ _ _ _ _ Hc Hnb).
    unfold write_at_cursor. cbn [w_uid wFp hNextPath hIdx of_option mbind
      result_bind]. rewrite lookup_insert_eq. cbn [of_option mbind result_bind].
    rewrite write_direct_ok by (simpl; first [lia | exact Hfit]).
    cbn [mbind result_bind]. do 2 eexists. split; [reflexivity|].
    cbn [w_uid wFp set_file slabs]. rewrite lookup_insert_eq.
    repeat split; reflexivity.
  - intros u f i p r Hu Hf Hi Hp Hr Hm.
    assert (Hopen : writer_open st = true).
    { unfold writer_open. rewrite Hu. apply bool_decide_eq_true_2. eauto. }
    split.
    + intros Hrow Hcol. unfold write, write_data. rewrite Hopen.
      unfold advance. rewrite Hi, Hm. cbn [of_option mbind result_bind].
      destruct (Z.ltb_spec (Z.of_nat (S i)) collection_size); [|lia].
      unfold write_at_cursor.
      cbn [set_cursor w_uid wFp hNextPath hIdx].
      rewrite Hu; cbn [of_option mbind result_bind].
      rewrite Hf; cbn [of_option mbind result_bind].
      rewrite Hp; cbn [of_option mbind result_bind].
      rewrite write_direct_ok by (simpl; first [lia | exact Hfit]).
      cbn [mbind result_bind]. do 2 eexists. split; [reflexivity|].
      cbn [w_uid wFp set_file slabs]. rewrite lookup_insert_eq.
      split; [exact Hu|]. split; reflexivity.
    + intros Hrow Hrem Hne. unfold write, write_data. rewrite Hopen.
      unfold advance. rewrite Hi, Hm, Hp, Hr.
      cbn [of_option mbind result_bind].
      destruct (Z.ltb_spec (Z.of_nat (S i)) collection_size); [lia|].
      destruct (Z.leb_spec (r - 1) 1); [|lia].
      cbn [set_cursor w_uid wFp].
      rewrite Hu; cbn [of_option mbind result_bind].
      rewrite Hf; cbn [of_option mbind result_bind].
      erewrite create_schema_ok; [| exact Hc | exact Hnb].
      unfold write_at_cursor.
      cbn [set_file w_uid wFp hNextPath hIdx rng schema_shape
           of_option mbind result_bind].
      rewrite lookup_insert_eq. cbn [of_option mbind result_bind].
      rewrite write_direct_ok by (simpl; first [lia | exact Hfit]).
      cbn [mbind result_bind]. do 3 eexists. split; [reflexivity|].
      cbn [w_uid wFp set_file slabs rng].
      rewrite lookup_insert_ne by exact Hne.
      rewrite lookup_insert_ne by exact Hne.
      rewrite !lookup_insert_eq.
      repeat split; cbn [attrs flush attrs_modify].
      * rewrite lookup_insert_ne by discriminate. apply lookup_insert_eq.
      * apply lookup_insert_eq.
Qed.

End WriterProps.

Lemma write_data_cursor_witness :
  (exists st' fh,
     write_data 3 2 1000 id test_uid ":" " " "*" "$" 1 test_array false
       fresh_handles
     = Some (Ok ("00:uid0$0 0*2"%string, st'))
     /\ w_uid st' = Some "uid0"%string
     /\ wFp st' !! "uid0"%string = Some fh
     /\ slabs fh = {[ (0%nat, 0%nat) := test_array ]})
  /\ (exists st' old new,
        write_data 2 2 1000 id test_uid ":" " " "*" "$" 1 test_array false
          (mk_handles [2%nat] 8 {[ "uid0"%string := first_file ]}
             (Some "uid0"%string) (Some 1%nat) (Some 0%nat) (Some 2) (Some 2)
             [(STAGEDIR, "uid0"%string)] 1)
        = Some (Ok ("00:uid1$0 0*2"%string, st'))
        /\ w_uid st' = Some "uid1"%string
        /\ wFp st' !! "uid0"%string = Some old
        /\ attrs old !! "next_dset"%string = Some [1; 0]
        /\ attrs old !! "num_collections_remaining"%string = Some [1]
        /\ synced old = true
        /\ slabs old = slabs first_file
        /\ wFp st' !! "uid1"%string = Some new
        /\ slabs new = {[ (0%nat, 0%nat) := test_array ]}).
Proof.
  split.
  - apply (proj1 (write_data_cursor 3 2 1000 id test_uid ":" " " "*" "$"
                    1 test_array false fresh_handles [2] 16
                    eq_refl ltac:(discriminate) eq_refl eq_refl
                    ltac:(repeat constructor))).
    reflexivity.
  - apply (proj2 (proj2 (write_data_cursor 2 2 1000 id test_uid
                    ":" " " "*" "$" 1 test_array false
                    (mk_handles [2%nat] 8 {[ "uid0"%string := first_file ]}
                       (Some "uid0"%string) (Some 1%nat) (Some 0%nat)
                       (Some 2) (Some 2) [(STAGEDIR, "uid0"%string)] 1)
                    [2] 16
                    eq_refl ltac:(discriminate) eq_refl eq_refl
                    ltac:(repeat constructor))
                  "uid0"%string first_file 1%nat 0%nat 2
                  eq_refl eq_refl eq_refl eq_refl eq_refl eq_refl));
      [vm_compute; discriminate | vm_compute; discriminate | discriminate].
Defined.


(** ** Properties of patch application *)

Import Diff Merger.

Section MergeChangesProps.
Context {K : Type} `{Countable K} {V : Type} `{EqDecision V}.
Implicit Types a m d r src : gmap K V.

Lemma has_key_true k (d : gmap K V) : has_key k d = true <-> is_Some (d !! k).
Proof. unfold has_key. apply bool_decide_eq_true. Qed.

Lemma has_key_false k (d : gmap K V) : has_key k d = false <-> d !! k = None.
Proof.
  unfold has_key. rewrite bool_decide_eq_false.
  split; [apply eq_None_not_Some | intros -> [? ?]; discriminate].
Qed.

(** The two inserting loops. *)
Lemma fold_insert_lookup (skip : gmap K V) src m k :
  map_fold (fun dK v acc => if has_key dK skip then acc else <[dK := v]> acc)
    m src !! k
  = match src !! k with
    | Some v => if has_key k skip then m !! k else Some v
    | None => m !! k
    end.
Proof.
  revert k.
  apply (map_fold_weak_ind (fun r src => forall k, r !! k =
           match src !! k with
           | Some v => if has_key k skip then m !! k else Some v
           | None => m !! k
           end)).
  - intros k. now rewrite lookup_empty.
  - intros i x src' r Hi IH k.
    destruct (decide (i = k)) as [->|Hne].
    + rewrite lookup_insert_eq. destruct (has_key k skip).
      * rewrite IH, Hi. reflexivity.
      * apply lookup_insert_eq.
    + rewrite (lookup_insert_ne src') by exact Hne.
      destruct (has_key i skip); [apply IH|].
      rewrite lookup_insert_ne by exact Hne. apply IH.
Qed.

(** The deleting loop: it raises no [KeyError] when every key it
    deletes is present. *)
Lemma fold_delete_lookup (sel : gmap K V) src m :
  (forall k, is_Some (src !! k) -> has_key k sel = true -> is_Some (m !! k)) ->
  exists r,
    map_fold (fun dK (_ : V) acc =>
                m_dict ← acc;
                if has_key dK sel then del_key dK m_dict else Ok m_dict)
      (Ok m) src = Ok r
    /\ forall k, r !! k = match src !! k with
                          | Some _ => if has_key k sel then None else m !! k
                          | None => m !! k
                          end.
Proof.
  apply (map_fold_weak_ind (fun res src =>
    (forall k, is_Some (src !! k) -> has_key k sel = true -> is_Some (m !! k)) ->
    exists r, res = Ok r
      /\ forall k, r !! k = match src !! k with
                            | Some _ => if has_key k sel then None else m !! k
                            | None => m !! k
                            end)).
  - intros _. exists m. split; [reflexivity|]. intros k.
    now rewrite lookup_empty.
  - intros i x src' res Hi IH Hpre.
    destruct IH as (r & -> & Hr).
    { intros k Hk. apply Hpre. rewrite lookup_insert_ne; [exact Hk|].
      intros ->. rewrite Hi in Hk. now destruct Hk. }
    cbn [mbind result_bind].
    destruct (has_key i sel) eqn:Hsel.
    + assert (Hin : is_Some (r !! i)).
      { rewrite Hr, Hi. apply Hpre; [|exact Hsel].
        rewrite lookup_insert_eq. eauto. }
      unfold del_key. rewrite (proj2 (has_key_true i r) Hin).
      eexists. split; [reflexivity|]. intros k.
      destruct (decide (i = k)) as [->|Hne].
      * rewrite lookup_delete_eq, lookup_insert_eq, Hsel. reflexivity.
      * rewrite lookup_delete_ne, lookup_insert_ne by exact Hne. apply Hr.
    + exists r. split; [reflexivity|]. intros k.
      destruct (decide (i = k)) as [->|Hne].
      * rewrite lookup_insert_eq, Hsel, Hr, Hi. reflexivity.
      * rewrite lookup_insert_ne by exact Hne. apply Hr.
Qed.

(** Lookups in the classified changes. *)
Lemma additions_lookup a v k x :
  additions (classify a v) !! k = Some x <-> v !! k = Some x /\ a !! k = None.
Proof. unfold classify. cbn [additions]. apply map_lookup_filter_Some. Qed.

Lemma removals_lookup a v k x :
  removals (classify a v) !! k = Some x <-> a !! k = Some x /\ v !! k = None.
Proof. unfold classify. cbn [removals]. apply map_lookup_filter_Some. Qed.

Lemma mutations_lookup a v k x :
  mutations (classify a v) !! k = Some x
  <-> v !! k = Some x /\ is_Some (a !! k) /\ a !! k <> Some x.
Proof. unfold classify. cbn [mutations]. apply map_lookup_filter_Some. Qed.

Lemma unchanged_lookup a v k x :
  unchanged (classify a v) !! k = Some x <-> v !! k = Some x /\ a !! k = Some x.
Proof. unfold classify. cbn [unchanged]. apply map_lookup_filter_Some. Qed.

Lemma has_key_match k (d : gmap K V) :
  has_key k d = match d !! k with Some _ => true | None => false end.
Proof.
  destruct (d !! k) eqn:E.
  - apply has_key_true. rewrite E. eauto.
  - now apply has_key_false.
Qed.

Lemma additions_at a v k :
  additions (classify a v) !! k
  = match a !! k with None => v !! k | Some _ => None end.
Proof.
  apply option_eq. intros x. rewrite additions_lookup.
  destruct (a !! k); naive_solver.
Qed.

Lemma removals_at a v k :
  removals (classify a v) !! k
  = match v !! k with None => a !! k | Some _ => None end.
Proof.
  apply option_eq. intros x. rewrite removals_lookup.
  destruct (v !! k); naive_solver.
Qed.

Lemma mutations_at a v k :
  mutations (classify a v) !! k
  = match a !! k, v !! k with
    | Some x, Some y => if decide (x = y) then None else Some y
    | _, _ => None
    end.
Proof.
  apply option_eq. intros x. rewrite mutations_lookup.
  destruct (a !! k) as [x0|], (v !! k) as [y|]; try case_decide;
    naive_solver.
Qed.

Lemma unchanged_at a v k :
  unchanged (classify a v) !! k
  = match a !! k, v !! k with
    | Some x, Some y => if decide (x = y) then Some y else None
    | _, _ => None
    end.
Proof.
  apply option_eq. intros x. rewrite unchanged_lookup.
  destruct (a !! k) as [x0|], (v !! k) as [y|]; try case_decide;
    naive_solver.
Qed.

(** On the changes of a three-way diff [_merge_changes] raises nothing. *)
Lemma merge_changes_three_way a m d :
  exists r, _merge_changes (three_way a m d) m = Ok r
            /\ forall k, r !! k = merged_at a m d k.
Proof.
  unfold _merge_changes, three_way. cbn [master dev].
  edestruct (fold_delete_lookup (unchanged (classify a m))
               (removals (classify a d))) as (r2 & -> & Hr2).
  2:{ cbn [mbind result_bind]. eexists. split; [reflexivity|].
      intros k. rewrite fold_insert_lookup, Hr2, fold_insert_lookup.
      rewrite !has_key_match, !additions_at, !removals_at, !mutations_at,
        !unchanged_at.
      unfold merged_at.
      destruct (a !! k) as [va|], (m !! k) as [vm|], (d !! k) as [vd|];
        repeat case_decide; simplify_eq; try reflexivity; congruence. }
  intros k [x Hx] Hsel. rewrite fold_insert_lookup.
  apply removals_lookup in Hx as [Ha Hd].
  rewrite additions_at, Ha.
  apply has_key_true in Hsel as [y Hy].
  apply unchanged_lookup in Hy as [Hm _]. rewrite Hm. eauto.
Qed.

Lemma merged_at_patched a m d r :
  (forall k, r !! k = merged_at a m d k) -> patched a m d r.
Proof.
  intros Hr k. unfold three_way. cbn [master dev].
  rewrite Hr, !additions_at, !removals_at, !mutations_at, !unchanged_at.
  unfold merged_at.
  destruct (a !! k) as [va|], (m !! k) as [vm|], (d !! k) as [vd|];
    repeat case_decide; simplify_eq;
    repeat split; intros; simplify_eq;
    try reflexivity; try congruence;
    repeat match goal with
           | H : is_Some None |- _ => destruct H as [? ?]; discriminate
           | H : _ \/ _ |- _ => destruct H
           end; simplify_eq; try reflexivity; try congruence.
Qed.

End MergeChangesProps.

Section MapMapM.
Context {K : Type} `{Countable K} {A B : Type}.

(** A successful dict-building loop has exactly the keys of the dict
    it iterates, each with the value computed for it. *)
Lemma map_mapM_Ok (f : K -> A -> result B) (m : gmap K A) bs :
  map_mapM f m = Ok bs ->
  forall k, match m !! k with
            | Some a => exists b, f k a = Ok b /\ bs !! k = Some b
            | None => bs !! k = None
            end.
Proof.
  unfold map_mapM. revert bs.
  apply (map_fold_weak_ind (fun res m => forall bs, res = Ok bs ->
    forall k, match m !! k with
              | Some a => exists b, f k a = Ok b /\ bs !! k = Some b
              | None => bs !! k = None
              end)).
  - intros bs [= <-] k. now rewrite !lookup_empty.
  - intros i x m' res Hi IH bs Hbs k.
    destruct res as [bs0|e]; [|discriminate]. cbn [mbind result_bind] in Hbs.
    destruct (f i x) as [b|e] eqn:Hf; [|discriminate].
    cbn [mbind result_bind] in Hbs. injection Hbs as <-.
    specialize (IH bs0 eq_refl k).
    destruct (decide (i = k)) as [->|Hne].
    + rewrite !lookup_insert_eq. eauto.
    + rewrite !lookup_insert_ne by exact Hne. exact IH.
Qed.

Lemma map_mapM_total (f : K -> A -> result B) (m : gmap K A) :
  (forall k a, m !! k = Some a -> exists b, f k a = Ok b) ->
  exists bs, map_mapM f m = Ok bs.
Proof.
  unfold map_mapM.
  apply (map_fold_weak_ind (fun res m =>
    (forall k a, m !! k = Some a -> exists b, f k a = Ok b) ->
    exists bs, res = Ok bs)).
  - intros _. eauto.
  - intros i x m' res Hi IH Hall.
    destruct IH as [bs0 ->].
    { intros k a Hk. apply (Hall k a). rewrite lookup_insert_ne; [exact Hk|].
      intros ->. congruence. }
    destruct (Hall i x) as [b Hb]; [apply lookup_insert_eq|].
    cbn [mbind result_bind]. rewrite Hb. cbn [mbind result_bind]. eauto.
Qed.

End MapMapM.

Section ComputeMergeProps.

Variable determine_conflicts : contents -> contents -> contents -> bool.

Lemma sample_changes_lookup a m d n cm cd :
  sc_master (sample_changes a m d) !! n = Some cm ->
  sc_dev (sample_changes a m d) !! n = Some cd ->
  exists md dd,
    datasets m !! n = Some md /\ datasets d !! n = Some dd
    /\ cm = classify (ancestor_samples a n) (data md)
    /\ cd = classify (ancestor_samples a n) (data dd).
Proof.
  unfold sample_changes. cbv zeta. cbn [sc_master sc_dev].
  rewrite !map_lookup_imap.
  destruct (map_zip (datasets m) (datasets d) !! n) as [[md dd]|] eqn:E;
    [|discriminate].
  apply map_lookup_zip_Some in E as [Hm Hd].
  cbn. intros [= <-] [= <-]. eauto 6.
Qed.

(** C2: in a merge that [_compute_merge_results] completes (so no
    conflict was found), the metadata, the schemas and, for every
    arrayset of the result that master has, the samples are master's
    map patched by the rules: a dev addition that is not a master
    addition is inserted, a dev removal of a key master left unchanged
    is deleted, a dev mutation that is not a master mutation overwrites,
    keys added or mutated on master keep master's value, and every
    other key keeps master's value. An arrayset of the result that
    master does not have (one present in dev only) takes its whole
    sample map from dev. *)
Theorem compute_merge_results_patched a m d out :
  _compute_merge_results determine_conflicts a m d = Ok out ->
  determine_conflicts a m d = false
  /\ patched (metadata a) (metadata m) (metadata d) (metadata out)
  /\ patched (schema <$> datasets a) (schema <$> datasets m)
       (schema <$> datasets d) (schema <$> datasets out)
  /\ forall n ds, datasets out !! n = Some ds ->
       exists dd, datasets d !! n = Some dd
         /\ match datasets m !! n with
            | Some md =>
                patched (ancestor_samples a n) (data md) (data dd) (data ds)
            | None => data ds = data dd
            end.
Proof.
  unfold _compute_merge_results.
  destruct (determine_conflicts a m d); [discriminate|].
  unfold dataset_changes, meta_changes.
  destruct (merge_changes_three_way (schema <$> datasets a)
              (schema <$> datasets m) (schema <$> datasets d))
    as (o_schema & -> & Hschema).
  cbn [mbind result_bind].
  destruct (map_mapM _ o_schema) as [o_data|] eqn:Hdata; [|discriminate].
  cbn [mbind result_bind].
  destruct (merge_changes_three_way (metadata a) (metadata m) (metadata d))
    as (o_meta & -> & Hmeta).
  cbn [mbind result_bind].
  match goal with
  | |- context [map_mapM ?f o_schema] =>
      destruct (map_mapM f o_schema) as [outds|] eqn:Hout
  end; cbn [mbind result_bind]; [|discriminate].
  intros Hres. injection Hres as <-. cbn [metadata datasets].
  pose proof (map_mapM_Ok _ _ _ Hout) as Hds.
  pose proof (map_mapM_Ok _ _ _ Hdata) as Hdt.
  split; [reflexivity|]. split; [now apply merged_at_patched|]. split.
  - apply merged_at_patched. intros k. rewrite <- Hschema, lookup_fmap.
    specialize (Hds k). destruct (o_schema !! k) as [s|].
    + destruct Hds as (b & Hb & ->).
      destruct (o_data !! k); [|discriminate]. now injection Hb as <-.
    + now rewrite Hds.
  - intros n ds Hn. specialize (Hds n). specialize (Hdt n).
    destruct (o_schema !! n) as [s|]; [|congruence].
    destruct Hds as (b & Hb & Hb'). destruct Hdt as (dt & Hdt & Hdt').
    rewrite Hdt' in Hb. cbn in Hb. injection Hb as <-.
    rewrite Hn in Hb'. injection Hb' as ->. cbn [data].
    unfold merge_dataset_samples in Hdt.
    destruct (datasets m !! n) as [md|] eqn:Hm.
    + destruct (sc_master _ !! n) as [cm|] eqn:Hcm; [|discriminate].
      destruct (sc_dev _ !! n) as [cd|] eqn:Hcd; [|discriminate].
      cbn [of_option mbind result_bind] in Hdt.
      destruct (sample_changes_lookup _ _ _ _ _ _ Hcm Hcd)
        as (md' & dd & Hm' & Hd & -> & ->).
      rewrite Hm in Hm'. injection Hm' as <-.
      exists dd. split; [exact Hd|].
      destruct (merge_changes_three_way (ancestor_samples a n) (data md)
                  (data dd)) as (r & Hr & Hrl).
      unfold three_way in Hr. rewrite Hr in Hdt. injection Hdt as <-.
      now apply merged_at_patched.
    + destruct (datasets d !! n) as [dd|]; [|discriminate].
      cbn in Hdt. injection Hdt as <-. eauto.
Qed.

(** [_compute_merge_results] completes when no conflict is found and
    every arrayset of master that survives the schema patch is also an
    arrayset of dev (the sample changes are only kept for arraysets of
    both). *)
Lemma compute_merge_results_total a m d :
  determine_conflicts a m d = false ->
  (forall n, is_Some (datasets m !! n) ->
     is_Some (datasets d !! n)
     \/ merged_at (schema <$> datasets a) (schema <$> datasets m)
          (schema <$> datasets d) n = None) ->
  exists out, _compute_merge_results determine_conflicts a m d = Ok out.
Proof.
  intros Hconf Hcov. unfold _compute_merge_results. rewrite Hconf.
  unfold dataset_changes, meta_changes.
  destruct (merge_changes_three_way (schema <$> datasets a)
              (schema <$> datasets m) (schema <$> datasets d))
    as (o_schema & -> & Hschema).
  cbn [mbind result_bind].
  destruct (map_mapM_total
    (fun dsetn (_ : schema_spec) =>
       merge_dataset_samples a m d (sample_changes a m d) dsetn) o_schema)
    as [o_data Hdata].
  { intros n s Hn. unfold merge_dataset_samples.
    destruct (datasets m !! n) as [md|] eqn:Hm.
    - destruct (Hcov n) as [[dd Hd]|Hnone]; [eauto | |congruence].
      unfold sample_changes. cbv zeta. cbn [sc_master sc_dev].
      rewrite !map_lookup_imap.
      rewrite (proj2 (map_lookup_zip_Some _ _ n (md, dd))) by auto.
      cbn. destruct (merge_changes_three_way (ancestor_samples a n)
                       (data md) (data dd)) as (r & Hr & _).
      unfold three_way in Hr. eauto.
    - rewrite Hschema in Hn. unfold merged_at in Hn.
      rewrite !lookup_fmap, Hm in Hn.
      destruct (datasets d !! n) as [dd|]; cbn; [eauto|].
      destruct (datasets a !! n); cbn in Hn; [|discriminate].
      case_decide; discriminate. }
  rewrite Hdata. cbn [mbind result_bind].
  destruct (merge_changes_three_way (metadata a) (metadata m) (metadata d))
    as (o_meta & -> & _).
  cbn [mbind result_bind].
  pose proof (map_mapM_Ok _ _ _ Hdata) as Hdt.
  destruct (map_mapM_total
    (fun dsetn dsetSchema =>
       dt ← of_option KeyError (o_data !! dsetn);
       Ok (mk_dataset dsetSchema dt)) o_schema) as [outds Hout].
  { intros n s Hn. specialize (Hdt n). rewrite Hn in Hdt.
    destruct Hdt as (dt & _ & ->). cbn. eauto. }
  rewrite Hout. cbn. eauto.
Qed.

End ComputeMergeProps.

(** A merge of three small commits: master adds a metadata entry and a
    sample and mutates a sample; dev adds an arrayset and a metadata
    entry and removes a sample. *)
Lemma compute_merge_results_example :
  _compute_merge_results conflict_found
    merge_ancestor merge_master merge_dev = Ok merge_result.
Proof. vm_compute. reflexivity. Qed.

Lemma compute_merge_results_patched_witness :
  conflict_found merge_ancestor merge_master merge_dev = false
  /\ patched (metadata merge_ancestor) (metadata merge_master)
       (metadata merge_dev) (metadata merge_result)
  /\ patched (schema <$> datasets merge_ancestor)
       (schema <$> datasets merge_master) (schema <$> datasets merge_dev)
       (schema <$> datasets merge_result)
  /\ forall n ds, datasets merge_result !! n = Some ds ->
       exists dd, datasets merge_dev !! n = Some dd
         /\ match datasets merge_master !! n with
            | Some md =>
                patched (ancestor_samples merge_ancestor n) (data md)
                  (data dd) (data ds)
            | None => data ds = data dd
            end.
Proof.
  apply (compute_merge_results_patched conflict_found
           merge_ancestor merge_master merge_dev merge_result).
  vm_compute. reflexivity.
Defined.
(** ** Properties of the merge-base choice *)

Import Repo.

Section SortProps.
Context {A : Type} (key : A -> Z).

Let newest (x y : A) : bool := key y <=? key x.

Lemma stable_sort_nil l : stable_sort newest l = [] -> l = [].
Proof.
  destruct l as [|x l]; [reflexivity|]. simpl.
  destruct (stable_sort newest l) as [|y s]; simpl; [discriminate|].
  destruct (newest x y); discriminate.
Qed.

(** The head of a list sorted newest-first with a stable sort is the
    first element of the list with the greatest key. *)
Lemma stable_sort_head l x rest :
  stable_sort newest l = x :: rest ->
  exists pre post,
    l = pre ++ x :: post
    /\ Forall (fun y => key y < key x) pre
    /\ Forall (fun y => key y <= key x) post.
Proof.
  revert x rest. induction l as [|y l IH]; intros x rest; [discriminate|].
  simpl. destruct (stable_sort newest l) as [|z s] eqn:Hs.
  - apply stable_sort_nil in Hs as ->. simpl. intros [= <- <-].
    exists [], []. repeat split; constructor.
  - simpl. unfold newest at 1. destruct (Z.leb_spec (key z) (key y)) as [Hle|Hlt].
    + intros [= <- <-]. destruct (IH z s eq_refl) as (pre & post & -> & Hpre & Hpost).
      exists [], (pre ++ z :: post). split; [reflexivity|].
      split; [constructor|].
      apply Forall_app. split.
      * eapply Forall_impl; [exact Hpre|]. simpl. intros; lia.
      * constructor; [exact Hle|].
        eapply Forall_impl; [exact Hpost|]. simpl. intros; lia.
    + intros [= <- <-]. destruct (IH z s eq_refl) as (pre & post & -> & Hpre & Hpost).
      exists (y :: pre), post. split; [reflexivity|].
      split; [constructor; assumption | exact Hpost].
Qed.

End SortProps.

Lemma insert_sorted_perm {A} (le : A -> A -> bool) x l :
  insert_sorted le x l ≡ₚ x :: l.
Proof.
  induction l as [|y l IH]; simpl; [reflexivity|].
  destruct (le x y); [reflexivity|]. rewrite IH. apply Permutation_swap.
Qed.

Lemma stable_sort_perm {A} (le : A -> A -> bool) l : stable_sort le l ≡ₚ l.
Proof.
  induction l as [|x l IH]; simpl; [reflexivity|].
  rewrite insert_sorted_perm. now rewrite IH.
Qed.

Lemma iter_ascending_enumerates : enumerates iter_ascending.
Proof.
  intros s x. unfold iter_ascending.
  rewrite stable_sort_perm. apply elem_of_elements.
Qed.

Lemma iter_descending_enumerates : enumerates iter_descending.
Proof.
  intros s x. unfold iter_descending. rewrite elem_of_reverse.
  apply iter_ascending_enumerates.
Qed.

Example tie_picks_root :
  _determine_ancestors iter_ascending ancestors_graph tie_repo "master" "dev"
  = Ok (mk_HistoryDiffStruct "ccc" "ddd" "aaa" false).
Proof. vm_compute. reflexivity. Qed.

Example tie_picks_child :
  _determine_ancestors iter_descending ancestors_graph tie_repo "master" "dev"
  = Ok (mk_HistoryDiffStruct "ccc" "ddd" "bbb" false).
Proof. vm_compute. reflexivity. Qed.

Lemma root_is_common :
  "aaa"%string ∈ common_ancestors ancestors_graph tie_repo "ccc" "ddd".
Proof. apply (bool_decide_unpack _). vm_compute. exact I. Qed.

Lemma child_is_common :
  "bbb"%string ∈ common_ancestors ancestors_graph tie_repo "ccc" "ddd".
Proof. apply (bool_decide_unpack _). vm_compute. exact I. Qed.

Lemma root_and_child_tie : time_of tie_repo "aaa" = time_of tie_repo "bbb".
Proof. vm_compute. reflexivity. Qed.

(** C3, as stated, fails: with two common ancestors of equal commit
    time the merge base follows the iteration order of the set of
    common ancestors, so it is neither always the least nor always the
    greatest digest among them. *)
Lemma tie_break_not_lexicographic :
  ~ lex_tie_break true /\ ~ lex_tie_break false.
Proof.
  split; intros Hlex.
  - specialize (Hlex iter_descending tie_repo "master"%string "dev"%string _
                  iter_descending_enumerates tie_picks_child "aaa"%string).
    cbn [masterHEAD devHEAD ancestorHEAD] in Hlex.
    specialize (Hlex root_is_common).
    specialize (Hlex root_and_child_tie).
    vm_compute in Hlex. discriminate.
  - specialize (Hlex iter_ascending tie_repo "master"%string "dev"%string _
                  iter_ascending_enumerates tie_picks_root "bbb"%string).
    cbn [masterHEAD devHEAD ancestorHEAD] in Hlex.
    specialize (Hlex child_is_common).
    specialize (Hlex (eq_sym root_and_child_tie)).
    vm_compute in Hlex. discriminate.
Qed.

Section AncestorProps.

Variable set_iter : gset string -> list string.
Variable get_commit_ancestors_graph :
  gmap string commit_record -> string -> gmap string (list string).

Lemma time_of_spec st c sp :
  get_commit_spec (refenv st) c = Ok sp -> commit_time sp = time_of st c.
Proof.
  unfold get_commit_spec, time_of. destruct (refenv st !! c); cbn; [|discriminate].
  now intros [= <-].
Qed.

Lemma ancestor_order_ok st l :
  (forall c, c ∈ l -> is_Some (refenv st !! c)) ->
  list_mapM (fun ancestor =>
               sp ← get_commit_spec (refenv st) ancestor;
               Ok (ancestor, commit_time sp)) l
  = Ok (map (fun c => (c, time_of st c)) l).
Proof.
  induction l as [|c l IH]; intros Hall; [reflexivity|].
  destruct (Hall c) as [rec Hrec]; [left|].
  assert (Hs : get_commit_spec (refenv st) c = Ok (spec rec))
    by (unfold get_commit_spec; rewrite Hrec; reflexivity).
  assert (Ht : time_of st c = commit_time (spec rec))
    by (unfold time_of; rewrite Hrec; reflexivity).
  cbn [list_mapM map]. rewrite Hs, Ht. cbn [mbind result_bind].
  rewrite IH by (intros; apply Hall; now right). reflexivity.
Qed.

(** C3 (amended): for heads that share a common ancestor, the merge
    base is a common ancestor of maximal commit time, and among the
    common ancestors of that time it is the one the iteration over the
    set of common ancestors reaches first. *)
Theorem determine_ancestors_newest st merge_master merge_dev mHEAD dHEAD :
  enumerates set_iter ->
  resolve_head st merge_master = Ok mHEAD ->
  resolve_head st merge_dev = Ok dHEAD ->
  let common := common_ancestors get_commit_ancestors_graph st mHEAD dHEAD in
  common <> ∅ ->
  (forall c, c ∈ common -> is_Some (refenv st !! c)) ->
  exists res,
    _determine_ancestors set_iter get_commit_ancestors_graph st
      merge_master merge_dev = Ok res
    /\ masterHEAD res = mHEAD /\ devHEAD res = dHEAD
    /\ canFF res = bool_decide (mHEAD ∈ common)
    /\ ancestorHEAD res ∈ common
    /\ (forall c, c ∈ common -> time_of st c <= time_of st (ancestorHEAD res))
    /\ exists earlier later,
         set_iter common = earlier ++ ancestorHEAD res :: later
         /\ forall c, c ∈ earlier ->
                      time_of st c < time_of st (ancestorHEAD res).
Proof.
  intros Henum Hm Hd common Hne Hrec.
  unfold _determine_ancestors. rewrite Hm, Hd. cbn [mbind result_bind].
  fold (common_ancestors get_commit_ancestors_graph st mHEAD dHEAD).
  fold common.
  rewrite ancestor_order_ok by (intros c Hc; apply Hrec, Henum, Hc).
  cbn [mbind result_bind].
  set (order := map (fun c => (c, time_of st c)) (set_iter common)).
  destruct (stable_sort newest_first order) as [|[x t] rest] eqn:Hsort.
  { apply (stable_sort_nil snd) in Hsort. subst order.
    apply map_eq_nil in Hsort. exfalso. apply Hne.
    apply set_eq. intros c. rewrite <- (Henum common c), Hsort. set_solver. }
  apply (stable_sort_head snd) in Hsort
    as (pre & post & Horder & Hpre & Hpost).
  subst order.
  apply map_eq_app in Horder as (earlier & rest' & Hiter & <- & Hrest).
  destruct rest' as [|c0 later]; [discriminate|].
  cbn [map] in Hrest. injection Hrest as <- <- <-.
  cbn [head fmap option_fmap option_map of_option mbind result_bind fst].
  eexists. split; [reflexivity|]. cbn [masterHEAD devHEAD canFF ancestorHEAD].
  repeat split.
  - apply Henum. rewrite Hiter. set_solver.
  - intros c Hc. apply Henum in Hc. rewrite Hiter in Hc.
    apply elem_of_app in Hc as [Hc|Hc].
    + rewrite Forall_forall in Hpre.
      specialize (Hpre (c, time_of st c)). cbn in Hpre.
      assert (Hin : (c, time_of st c)
                    ∈ map (fun c => (c, time_of st c)) earlier)
        by (apply list_elem_of_fmap; eauto).
      specialize (Hpre Hin). lia.
    + apply elem_of_cons in Hc as [->|Hc]; [lia|].
      rewrite Forall_forall in Hpost.
      specialize (Hpost (c, time_of st c)). cbn in Hpost. apply Hpost.
      apply list_elem_of_fmap. eauto.
  - exists earlier, later. split; [exact Hiter|]. intros c Hc.
    rewrite Forall_forall in Hpre.
    specialize (Hpre (c, time_of st c)). cbn in Hpre. apply Hpre.
    apply list_elem_of_fmap. eauto.
Qed.

End AncestorProps.

Lemma determine_ancestors_newest_witness :
  exists res,
    _determine_ancestors iter_ascending ancestors_graph tie_repo
      "master" "dev" = Ok res
    /\ masterHEAD res = "ccc"%string /\ devHEAD res = "ddd"%string
    /\ canFF res
       = bool_decide ("ccc"%string
                      ∈ common_ancestors ancestors_graph tie_repo "ccc" "ddd")
    /\ ancestorHEAD res ∈ common_ancestors ancestors_graph tie_repo "ccc" "ddd"
    /\ (forall c, c ∈ common_ancestors ancestors_graph tie_repo "ccc" "ddd" ->
                  time_of tie_repo c <= time_of tie_repo (ancestorHEAD res))
    /\ exists earlier later,
         iter_ascending (common_ancestors ancestors_graph tie_repo "ccc" "ddd")
         = earlier ++ ancestorHEAD res :: later
         /\ forall c, c ∈ earlier ->
                      time_of tie_repo c < time_of tie_repo (ancestorHEAD res).
Proof.
  apply (determine_ancestors_newest iter_ascending ancestors_graph tie_repo
           "master" "dev" "ccc" "ddd" iter_ascending_enumerates).
  - vm_compute. reflexivity.
  - vm_compute. reflexivity.
  - intros Hempty. pose proof root_is_common as Hc.
    rewrite Hempty in Hc. exact (not_elem_of_empty _ Hc).
  - change (set_Forall (fun c => is_Some (refenv tie_repo !! c))
              (common_ancestors ancestors_graph tie_repo "ccc" "ddd")).
    apply set_Forall_elements.
    apply (bool_decide_unpack _). vm_compute. exact I.
Defined.
(** ** Properties of the merge entry point *)

Lemma post_bind {S A B} (p : prog S A) (k : A -> prog S B) st
    (Q : result B -> S -> Prop) :
  post p st (fun r st' => match r with
                          | Ok a => post (k a) st' Q
                          | Raise e => Q (Raise e) st'
                          end) ->
  post (p ≫= k) st Q.
Proof.
  unfold post, mbind, prog_bind. cbn [run].
  destruct (run p st) as [[a|e] st']; cbn; auto.
Qed.

Lemma post_lift {S A B} (r : result A) (k : A -> prog S B) st
    (Q : result B -> S -> Prop) :
  match r with
  | Ok a => post (k a) st Q
  | Raise e => Q (Raise e) st
  end ->
  post (lift r ≫= k) st Q.
Proof. intros H. apply post_bind. unfold post. cbn. exact H. Qed.

Lemma post_get {S B} (k : S -> prog S B) st (Q : result B -> S -> Prop) :
  post (k st) st Q -> post (Repo.get ≫= k) st Q.
Proof. intros H. apply post_bind. exact H. Qed.

Lemma post_put {S B} (k : unit -> prog S B) st st'
    (Q : result B -> S -> Prop) :
  post (k tt) st' Q -> post (put st' ≫= k) st Q.
Proof. intros H. apply post_bind. exact H. Qed.

Lemma post_ret {S A} (a : A) (st : S) (Q : result A -> S -> Prop) :
  Q (Ok a) st -> post (mret a) st Q.
Proof. exact id. Qed.

Lemma post_raise {S A} e (st : S) (Q : result A -> S -> Prop) :
  Q (Raise e) st -> post (raise e) st Q.
Proof. exact id. Qed.

Lemma post_weaken {S A} (p : prog S A) st (Q Q' : result A -> S -> Prop) :
  post p st Q -> (forall r st', Q r st' -> Q' r st') -> post p st Q'.
Proof. unfold post. auto. Qed.

Section SelectMergeProps.

Variable set_iter : gset string -> list string.
Variable force_release_sentinel : string.
Variable get_commit_ancestors_graph :
  gmap string commit_record -> string -> gmap string (list string).
Variable get_commit_ref_contents :
  gmap string commit_record -> string -> result contents.
Variable determine_conflicts : contents -> contents -> contents -> bool.
Variable parsing : parsing_codec.
Variable remove_unused_dataset_hdf_files :
  data_dirs -> gmap string string -> result data_dirs.
Variable commit_digest :
  list (string * string) -> list string -> commit_spec -> string.
Variable commit_spec_of : string -> bool -> commit_spec.

Let three_way_merge :=
  _three_way_merge get_commit_ref_contents determine_conflicts parsing
    remove_unused_dataset_hdf_files commit_digest commit_spec_of.
Let select_merge :=
  select_merge_algorithm set_iter force_release_sentinel
    get_commit_ancestors_graph get_commit_ref_contents determine_conflicts
    parsing remove_unused_dataset_hdf_files commit_digest commit_spec_of.
Let determine_ancestors :=
  _determine_ancestors set_iter get_commit_ancestors_graph.

Lemma set_branch_head_commit_lock b name c r b' :
  set_branch_head_commit b name c = Ok (r, b') ->
  writer_lock b' = writer_lock b.
Proof.
  unfold set_branch_head_commit. destruct (heads b !! name); [|discriminate].
  now intros [= <- <-].
Qed.

Lemma fast_forward_merge_keeps_lock master_branch new_head st :
  post (_fast_forward_merge master_branch new_head) st
    (fun _ st' => lock_of st' = lock_of st).
Proof.
  unfold _fast_forward_merge. apply post_get, post_lift.
  destruct (set_branch_head_commit _ _ _) as [[s b]|e] eqn:E; [|reflexivity].
  apply post_put, post_ret. unfold lock_of. cbn.
  eapply set_branch_head_commit_lock, E.
Qed.

(** The deleting loop of [_overwrite_stageenv] ends and leaves the
    store empty. *)
Lemma delete_while_positioned_empties l :
  delete_while_positioned (S (S (length l))) true
    (mk_cursor l (negb (is_nil l)))
  = Some (mk_cursor [] false).
Proof.
  induction l as [|x l IH]; [reflexivity|].
  cbn [length delete_while_positioned cursor_delete positioned records
       is_nil negb].
  exact IH.
Qed.

Lemma overwrite_stageenv_replaces tuples st :
  run (_overwrite_stageenv tuples) st = (Ok tt, set_stageenv st tuples).
Proof.
  unfold _overwrite_stageenv, mbind, prog_bind. cbn [run Repo.get].
  unfold cursor_first. cbn [records].
  destruct (stageenv st) as [|x l] eqn:E; [reflexivity|].
  change (negb (is_nil (x :: l))) with true at 1.
  rewrite delete_while_positioned_empties. reflexivity.
Qed.

Lemma overwrite_stageenv_keeps_lock tuples st :
  post (_overwrite_stageenv tuples) st
    (fun _ st' => lock_of st' = lock_of st).
Proof.
  unfold _overwrite_stageenv. apply post_get.
  destruct (cursor_first _) as [p c].
  destruct (delete_while_positioned _ _ _); reflexivity.
Qed.

Lemma commit_records_keeps_lock message is_merge mm md st :
  post (commit_records commit_digest commit_spec_of message is_merge mm md) st
    (fun _ st' => lock_of st' = lock_of st).
Proof.
  unfold commit_records. apply post_get, post_bind, post_ret, post_lift.
  match goal with |- match ?r with _ => _ end => destruct r as [ps|e] end;
    [|reflexivity].
  apply post_lift.
  destruct (set_branch_head_commit _ _ _) as [[s b]|e] eqn:E; [|reflexivity].
  apply post_put, post_ret. unfold lock_of. cbn.
  eapply set_branch_head_commit_lock, E.
Qed.

Lemma three_way_merge_keeps_lock message mbn mh dbn dh ah st :
  post (three_way_merge message mbn mh dbn dh ah) st
    (fun _ st' => lock_of st' = lock_of st).
Proof.
  unfold three_way_merge, _three_way_merge. apply post_get.
  apply post_lift. destruct (get_commit_ref_contents _ ah); [|reflexivity].
  apply post_lift. destruct (get_commit_ref_contents _ mh); [|reflexivity].
  apply post_lift. destruct (get_commit_ref_contents _ dh); [|reflexivity].
  apply post_lift. destruct (_compute_merge_results _ _ _ _); [|reflexivity].
  apply post_lift. destruct (remove_unused_dataset_hdf_files _ _);
    [|reflexivity].
  apply post_put, post_bind.
  eapply post_weaken; [apply overwrite_stageenv_keeps_lock|].
  intros [[]|e] st1 H1; [|exact H1].
  apply post_bind.
  eapply post_weaken; [apply commit_records_keeps_lock|].
  intros [h|e] st2 H2; [|unfold lock_of in *; cbn in *; congruence].
  apply post_bind. unfold clear_stage_hash_records.
  apply post_get. unfold post, lock_of in *. cbn in *. congruence.
Qed.

Lemma post_try_finally {S A} (body : prog S A) (cleanup : prog S unit) st
    (Q : result A -> S -> Prop) :
  post body st (fun r st1 =>
    post cleanup st1 (fun rc st2 =>
      match rc with
      | Ok _ => Q r st2
      | Raise e => Q (Raise e) st2
      end)) ->
  post (try_finally body cleanup) st Q.
Proof.
  unfold post, try_finally. cbn [run].
  destruct (run body st) as [r st1]. cbn [fst snd].
  destruct (run cleanup st1) as [[[]|e] st2]; cbn; auto.
Qed.

Lemma acquire_writer_lock_holder b b1 :
  acquire_writer_lock b MERGE_PROCESS = Ok b1 ->
  b1 = set_writer_lock b MERGE_PROCESS.
Proof.
  unfold acquire_writer_lock. destruct (_ || _); [|discriminate].
  now intros [= <-].
Qed.

(** C10: once [select_merge_algorithm] has passed the staging check
    and acquired the writer lock, the lock is free when it returns,
    whether it returns the commit of a fast-forward or three-way merge
    or raises (for instance on a conflict). *)
Theorem select_merge_releases_lock message master_branch dev_branch st b1 :
  staging_area_status st = Ok "CLEAN"%string ->
  acquire_writer_lock (branchenv st) MERGE_PROCESS = Ok b1 ->
  forall r st',
    run (select_merge message master_branch dev_branch) st = (r, st') ->
    writer_lock (branchenv st') = EmptyString.
Proof.
  intros Hclean Hacq r st' Hrun.
  enough (Hpost : post (select_merge message master_branch dev_branch) st
            (fun _ st' => lock_of st' = EmptyString)).
  { unfold post in Hpost. rewrite Hrun in Hpost. exact Hpost. }
  apply acquire_writer_lock_holder in Hacq as Hb1.
  unfold select_merge, select_merge_algorithm.
  apply post_get, post_lift. rewrite Hclean. cbn [negb String.eqb].
  change (negb (String.eqb "CLEAN" "CLEAN")) with false. cbv iota.
  apply post_lift. rewrite Hacq. apply post_put, post_try_finally.
  eapply post_weaken.
  - apply post_get, post_lift.
    instantiate (1 := fun _ st1 => lock_of st1 = MERGE_PROCESS).
    destruct (_determine_ancestors _ _ _ _ _) as [bd|e];
      [|subst b1; reflexivity].
    destruct (canFF bd).
    + eapply post_weaken; [apply fast_forward_merge_keeps_lock|].
      cbn beta. intros _ st1 ->. subst b1. reflexivity.
    + eapply post_weaken; [apply three_way_merge_keeps_lock|].
      cbn beta. intros _ st1 ->. subst b1. reflexivity.
  - cbn beta. intros _ st1 Hlock. apply post_get, post_lift.
    unfold release_writer_lock. unfold lock_of in Hlock. rewrite Hlock.
    rewrite String.eqb_refl. cbn [orb]. reflexivity.
Qed.

Lemma compute_merge_results_conflict a m d :
  determine_conflicts a m d = true ->
  _compute_merge_results determine_conflicts a m d = Raise ValueError.
Proof. intros H. unfold _compute_merge_results. now rewrite H. Qed.

(** On a conflict [_three_way_merge] raises before it writes anything. *)
Lemma three_way_merge_conflict message mbn mh dbn dh ah st a m d :
  get_commit_ref_contents (refenv st) ah = Ok a ->
  get_commit_ref_contents (refenv st) mh = Ok m ->
  get_commit_ref_contents (refenv st) dh = Ok d ->
  determine_conflicts a m d = true ->
  run (three_way_merge message mbn mh dbn dh ah) st = (Raise ValueError, st).
Proof.
  intros Ha Hm Hd Hconf.
  unfold three_way_merge, _three_way_merge, mbind, prog_bind.
  cbn [run Repo.get lift].
  rewrite Ha, Hm, Hd, (compute_merge_results_conflict _ _ _ Hconf).
  reflexivity.
Qed.

(** C1: when the conflict check on the contents of the ancestor,
    master and dev commits finds a conflict, the three-way merge raises
    [ValueError] and leaves the repository as it found it, and the
    merge entry point raises [ValueError] with the staging records, the
    commit store, the branch heads, the stage-hash index and the data
    directories unchanged and the writer lock free again. *)
Theorem merge_conflict_aborts message master_branch dev_branch st b1 bd a m d :
  staging_area_status st = Ok "CLEAN"%string ->
  acquire_writer_lock (branchenv st) MERGE_PROCESS = Ok b1 ->
  determine_ancestors st master_branch dev_branch = Ok bd ->
  canFF bd = false ->
  get_commit_ref_contents (refenv st) (ancestorHEAD bd) = Ok a ->
  get_commit_ref_contents (refenv st) (masterHEAD bd) = Ok m ->
  get_commit_ref_contents (refenv st) (devHEAD bd) = Ok d ->
  determine_conflicts a m d = true ->
  run (three_way_merge message master_branch (masterHEAD bd) dev_branch
         (devHEAD bd) (ancestorHEAD bd)) st
  = (Raise ValueError, st)
  /\ exists st',
       run (select_merge message master_branch dev_branch) st
       = (Raise ValueError, st')
       /\ stageenv st' = stageenv st
       /\ refenv st' = refenv st
       /\ heads (branchenv st') = heads (branchenv st)
       /\ stagehashenv st' = stagehashenv st
       /\ dirs st' = dirs st
       /\ writer_lock (branchenv st') = EmptyString.
Proof.
  intros Hclean Hacq Hanc Hff Ha Hm Hd Hconf.
  split; [eapply three_way_merge_conflict; eassumption|].
  apply acquire_writer_lock_holder in Hacq as Hb1.
  set (st0 := set_branchenv st b1).
  assert (Hanc0 : determine_ancestors st0 master_branch dev_branch = Ok bd).
  { rewrite <- Hanc. subst st0 b1. reflexivity. }
  assert (H3 : run (three_way_merge message master_branch (masterHEAD bd)
                      dev_branch (devHEAD bd) (ancestorHEAD bd)) st0
               = (Raise ValueError, st0))
    by (eapply three_way_merge_conflict; eassumption).
  exists (set_branchenv st (set_writer_lock (branchenv st) EmptyString)).
  split; [|repeat split].
  unfold select_merge, select_merge_algorithm, mbind, prog_bind.
  cbn [run Repo.get lift]. rewrite Hclean.
  change (negb (String.eqb "CLEAN" "CLEAN")) with false. cbv iota.
  cbn [run lift]. rewrite Hacq. cbn [run put try_finally Repo.get lift].
  fold st0. unfold determine_ancestors in Hanc0. rewrite Hanc0, Hff.
  unfold three_way_merge in H3. rewrite H3.
  unfold release_writer_lock. subst st0 b1. cbn [branchenv set_branchenv
    writer_lock set_writer_lock]. rewrite String.eqb_refl. reflexivity.
Qed.

End SelectMergeProps.

Example conflict_aborts :
  run (test_merge conflicting_contents "msg" "master" "dev") branched_repo
  = (Raise ValueError, branched_repo).
Proof. vm_compute. reflexivity. Qed.

Lemma select_merge_releases_lock_witness :
  run (test_merge conflicting_contents "msg" "master" "dev") branched_repo
  = (Raise ValueError, branched_repo)
  /\ writer_lock (branchenv branched_repo) = EmptyString.
Proof.
  split; [vm_compute; reflexivity|].
  refine (select_merge_releases_lock iter_ascending "FORCE_RELEASE"
            ancestors_graph conflicting_contents conflict_found test_codec
            keep_dirs test_digest test_spec "msg" "master" "dev" branched_repo
            (set_writer_lock (branchenv branched_repo) MERGE_PROCESS)
            _ _ (Raise ValueError) branched_repo _);
    vm_compute; reflexivity.
Defined.

Example fast_forward_moves_master :
  let '(r, st') := run (test_merge conflicting_contents "msg" "master" "dev")
                     behind_repo in
  r = Ok "d1"%string
  /\ heads (branchenv st') = {[ "master" := "d1"; "dev" := "d1" ]}%string
  /\ refenv st' = three_commits
  /\ writer_lock (branchenv st') = EmptyString.
Proof. vm_compute. repeat split. Qed.

Example three_way_writes_merge_commit :
  let '(r, st') := run (test_merge mergeable_contents "msg" "master" "dev")
                     branched_repo in
  r = Ok "merge"%string
  /\ heads (branchenv st') = {[ "master" := "merge"; "dev" := "d1" ]}%string
  /\ parents <$> refenv st' !! "merge"%string = Some ["m1"; "d1"]%string
  /\ (refs <$> refenv st' !! "merge"%string) = Some (stageenv st')
  /\ stageenv st'
     = [("a.count", "2"); ("a:d", "hash-d"); ("a:d:0", "h0m"); ("a:d:2", "h2");
        ("a:d:count", "2"); ("a:e", "hash-e"); ("a:e:0", "g0");
        ("a:e:count", "1"); ("l.count", "3"); ("l:k0", "v0"); ("l:kd", "vd");
        ("l:km", "vm")]%string
  /\ writer_lock (branchenv st') = EmptyString.
Proof. vm_compute. repeat split. Qed.

Lemma merge_conflict_aborts_witness :
  run (_three_way_merge conflicting_contents conflict_found test_codec
         keep_dirs test_digest test_spec "msg" "master" "m1" "dev" "d1" "base")
    branched_repo
  = (Raise ValueError, branched_repo)
  /\ exists st',
       run (test_merge conflicting_contents "msg" "master" "dev") branched_repo
       = (Raise ValueError, st')
       /\ stageenv st' = stageenv branched_repo
       /\ refenv st' = refenv branched_repo
       /\ heads (branchenv st') = heads (branchenv branched_repo)
       /\ stagehashenv st' = stagehashenv branched_repo
       /\ dirs st' = dirs branched_repo
       /\ writer_lock (branchenv st') = EmptyString.
Proof.
  apply (merge_conflict_aborts iter_ascending "FORCE_RELEASE"
           ancestors_graph conflicting_contents conflict_found test_codec
           keep_dirs test_digest test_spec "msg" "master" "dev" branched_repo
           (set_writer_lock (branchenv branched_repo) MERGE_PROCESS)
           (mk_HistoryDiffStruct "m1" "d1" "base" false)
           (mk_contents {[ "k" := "v0" ]}%string ∅)
           (mk_contents {[ "k" := "v1" ]}%string ∅)
           (mk_contents {[ "k" := "v2" ]}%string ∅));
    vm_compute; reflexivity.
Defined.
(** ** Properties of fetch *)

Import Remotes.

Section FetchProps.

Variable connect : string -> result server.
Variable set_iter : gset string -> list string.
Variable list_history_order : repo -> string -> list string.
Variable CW_label : string -> string -> repo -> repo.
Variable CW_schema : string -> string -> repo -> repo.
Variable CW_data :
  string -> list (string * string) -> option string -> repo
  -> list string * repo.
Variable CW_commit : commit_content -> repo -> repo.

(** C8: a fetch that finds the server's branch head equal to the local
    branch head returns at once: [Remote.fetch] returns the branch
    name and [Repository.fetch] returns [None], the only call made is
    [fetch_branch_record], and the local repository, with it the
    branch store and so the remote-tracking branch, is unchanged. *)
Theorem fetch_equal_heads_is_noop s remote branch address client c concat :
  repo_is_initialized s = true ->
  get_remote_address (branchenv (local s)) remote = Ok address ->
  connect address = Ok client ->
  get_branch_head_commit (branchenv (local s)) branch = Ok c ->
  branch_head client (log s) branch = Ok c ->
  (exists s',
     run (fetch connect set_iter list_history_order CW_label CW_schema
            CW_data CW_commit remote branch) s = (Ok branch, s')
     /\ local s' = local s
     /\ branchenv (local s') = branchenv (local s)
     /\ log s' = log s ++ [FetchBranchRecord branch])
  /\ (exists s',
        run (repository_fetch connect set_iter list_history_order CW_label
               CW_schema CW_data CW_commit remote branch concat) s
        = (Ok None, s')
        /\ local s' = local s
        /\ branchenv (local s') = branchenv (local s)
        /\ log s' = log s ++ [FetchBranchRecord branch]).
Proof.
  intros Hinit Haddr Hconn Hhead Hsrv. split.
  - eexists. split.
    { unfold fetch, __verify_repo_initialized, rpc, mbind, prog_bind.
      cbn [run Repo.get lift]. rewrite Hinit. cbn [run mret prog_ret].
      rewrite Haddr, Hconn, Hhead. cbn [run Repo.get put lift].
      rewrite Hsrv, String.eqb_refl. reflexivity. }
    split; [|split]; reflexivity.
  - eexists. split.
    { unfold repository_fetch, __verify_repo_initialized, fetch_branch_reply,
        rpc_total, rpc, try_except, mbind, prog_bind.
      cbn [run Repo.get lift]. rewrite Hinit. cbn [run mret prog_ret].
      rewrite Haddr, Hconn. cbn [run Repo.get put lift]. rewrite Hhead.
      cbn [run Repo.get put lift]. rewrite Hsrv.
      cbn [reply_of error_code rec_commit Z.eqb].
      rewrite String.eqb_refl. reflexivity. }
    split; [|split]; reflexivity.
Qed.

End FetchProps.

Lemma fetch_equal_heads_is_noop_witness :
  (exists s',
     run (fetch (test_connect quiet_server) iter_ascending test_history
            keep_label keep_label save_all keep_commit "origin" "master")
       cloned_session = (Ok "master"%string, s')
     /\ local s' = local cloned_session
     /\ branchenv (local s') = branchenv (local cloned_session)
     /\ log s' = log cloned_session ++ [FetchBranchRecord "master"])
  /\ (exists s',
        run (repository_fetch (test_connect quiet_server) iter_ascending
               test_history keep_label keep_label save_all keep_commit
               "origin" "master" true) cloned_session
        = (Ok None, s')
        /\ local s' = local cloned_session
        /\ branchenv (local s') = branchenv (local cloned_session)
        /\ log s' = log cloned_session ++ [FetchBranchRecord "master"]).
Proof.
  apply (fetch_equal_heads_is_noop (test_connect quiet_server) iter_ascending
           test_history keep_label keep_label save_all keep_commit
           cloned_session "origin" "master" "localhost:50051" quiet_server
           "m1" true); vm_compute; reflexivity.
Defined.
(** ** Properties of fetch_data *)

Example fetch_data_partial_clone :
  fetch_data (test_connect data_server) iter_ascending save_all
    partial_hashes partial_index 3 "origin" (Some "master"%string) None
    cloned_session
  = Some (Ok "m1"%string, after_fetch_data).
Proof. vm_compute. reflexivity. Qed.

(** C6, as stated, fails: the digest whose hash-index entry names the
    chunked backend is not requested; the digest that is requested is
    the one whose entry is the reference-only placeholder. *)
Lemma fetch_data_skips_chunked_entries :
  ~ requests_chunked_entries (test_connect data_server) iter_ascending
      save_all partial_hashes partial_index.
Proof.
  intros H.
  specialize (H _ _ _ _ _ _ _ fetch_data_partial_clone "h00"%string).
  destruct H as [_ H].
  destruct H as (schema & hashes & Hin & Hd).
  - split.
    + apply (bool_decide_unpack _). vm_compute. exact I.
    + eexists. vm_compute. reflexivity.
  - change (drop (length (log cloned_session)) (log after_fetch_data))
      with [FetchData "sch" {[ "h50"%string ]}] in Hin.
    apply list_elem_of_singleton in Hin. injection Hin as _ ->.
    apply elem_of_singleton in Hd. discriminate.
Qed.

Section Grouping.

Lemma group_append_grouped k v (m : list (string * list string)) k' d :
  grouped (group_append k v m) k' d <-> grouped m k' d \/ (k' = k /\ d = v).
Proof.
  unfold grouped. induction m as [|[k1 vs] m IH]; cbn [group_append].
  - split.
    + intros (l & Hl & Hd). apply list_elem_of_singleton in Hl.
      injection Hl as -> ->. apply list_elem_of_singleton in Hd. auto.
    + intros [(l & Hl & _)|[-> ->]]; [inversion Hl|].
      exists [v]. split; apply list_elem_of_singleton; reflexivity.
  - destruct (String.eqb_spec k1 k) as [->|Hne].
    + split.
      * intros (l & Hl & Hd). apply elem_of_cons in Hl as [Hl|Hl].
        -- injection Hl as -> ->. apply elem_of_app in Hd as [Hd|Hd].
           ++ left. exists vs. split; [left | exact Hd].
           ++ apply list_elem_of_singleton in Hd. auto.
        -- left. exists l. split; [right; exact Hl | exact Hd].
      * intros [(l & Hl & Hd)|[-> ->]].
        -- apply elem_of_cons in Hl as [Hl|Hl].
           ++ injection Hl as -> ->. exists (vs ++ [v]).
              split; [left | apply elem_of_app; auto].
           ++ exists l. split; [right; exact Hl | exact Hd].
        -- exists (vs ++ [v]). split; [left|].
           apply elem_of_app. right. apply list_elem_of_singleton. reflexivity.
    + split.
      * intros (l & Hl & Hd). apply elem_of_cons in Hl as [Hl|Hl].
        -- injection Hl as -> ->. left. exists vs. split; [left | exact Hd].
        -- destruct (proj1 IH) as [(l' & Hl' & Hd')|Heq]; [eauto | | auto].
           left. exists l'. split; [right; exact Hl' | exact Hd'].
      * intros [(l & Hl & Hd)|Heq].
        -- apply elem_of_cons in Hl as [Hl|Hl].
           ++ injection Hl as -> ->. exists vs. split; [left | exact Hd].
           ++ destruct (proj2 IH) as (l' & Hl' & Hd'); [left; eauto|].
              exists l'. split; [right; exact Hl' | exact Hd'].
        -- destruct (proj2 IH) as (l' & Hl' & Hd'); [right; exact Heq|].
           exists l'. split; [right; exact Hl' | exact Hd'].
Qed.

Lemma group_append_keys k v (m : list (string * list string)) :
  forall k', k' ∈ (group_append k v m).*1 <-> k' ∈ m.*1 \/ k' = k.
Proof.
  induction m as [|[k1 vs] m IH]; intros k'; cbn [group_append].
  - cbn. rewrite list_elem_of_singleton. split; [auto|].
    intros [H|H]; [inversion H | exact H].
  - destruct (String.eqb_spec k1 k) as [->|Hne]; cbn [fmap list_fmap fst].
    + rewrite elem_of_cons. tauto.
    + rewrite !elem_of_cons, IH. tauto.
Qed.

Lemma group_append_NoDup k v (m : list (string * list string)) :
  NoDup m.*1 -> NoDup (group_append k v m).*1.
Proof.
  induction m as [|[k1 vs] m IH]; cbn [group_append]; intros Hnd.
  - cbn. apply NoDup_singleton.
  - cbn [fmap list_fmap fst] in Hnd. apply NoDup_cons in Hnd as [Hk1 Hnd].
    destruct (String.eqb_spec k1 k) as [->|Hne]; cbn [fmap list_fmap fst].
    + apply NoDup_cons. auto.
    + apply NoDup_cons. split; [|auto].
      intros Hin. apply group_append_keys in Hin as [Hin| ->]; auto.
Qed.

Lemma group_append_nonempty k v (m : list (string * list string)) :
  Forall (fun g => g.2 <> []) m ->
  Forall (fun g => g.2 <> []) (group_append k v m).
Proof.
  induction m as [|[k1 vs] m IH]; cbn [group_append]; intros Hall.
  - constructor; [discriminate | constructor].
  - apply Forall_cons in Hall as [H1 Hall].
    destruct (String.eqb k1 k).
    + constructor; [|exact Hall]. cbn. destruct vs; discriminate.
    + constructor; [exact H1 | auto].
Qed.

Variable hashMap : gmap string hash_spec.

Lemma schema_hash_map_spec digests m g :
  schema_hash_map hashMap digests m = Ok g ->
  (forall k d, grouped g k d
               <-> grouped m k d
                   \/ (d ∈ digests /\ hashMap !! d = Some (Remote_50 k)))
  /\ (NoDup m.*1 -> NoDup g.*1)
  /\ (Forall (fun x => x.2 <> []) m -> Forall (fun x => x.2 <> []) g).
Proof.
  revert m. induction digests as [|x digests IH]; intros m; cbn [schema_hash_map].
  - intros [= <-]. split; [|auto]. intros k d. split; [auto|].
    intros [H|[H _]]; [exact H | inversion H].
  - destruct (hashMap !! x) as [v|] eqn:Hx; [|discriminate].
    cbn [of_option mbind result_bind].
    destruct v as [location|h]; cbn [backend_of schema_hash_of].
    + destruct (String.eqb (Hdf5.backend location) "50"); [discriminate|].
      intros Hg. destruct (IH _ Hg) as (Hgr & Hnd & Hne).
      split; [|auto]. intros k d. rewrite Hgr, elem_of_cons.
      split; [tauto|]. intros [H|[[->|H] Hd]]; [auto|congruence|auto].
    + change (String.eqb "50" "50") with true. cbv iota.
      cbn [mbind result_bind].
      intros Hg. destruct (IH _ Hg) as (Hgr & Hnd & Hne).
      split; [|split].
      * intros k d. rewrite Hgr, group_append_grouped, elem_of_cons.
        split.
        -- intros [[H|[-> ->]]|[H Hd]]; auto.
        -- intros [H|[[->|H] Hd]]; auto.
           left. right. split; congruence.
      * intros H. apply Hnd, group_append_NoDup, H.
      * intros H. apply Hne, group_append_nonempty, H.
Qed.

End Grouping.

Lemma schema_hash_map_total (hashMap : gmap string hash_spec) digests m :
  (forall d, d ∈ digests ->
     exists v, hashMap !! d = Some v
               /\ (backend_of v = "50"%string -> exists h, v = Remote_50 h)) ->
  exists g, schema_hash_map hashMap digests m = Ok g.
Proof.
  revert m. induction digests as [|x digests IH]; intros m Hall;
    cbn [schema_hash_map]; [eauto|].
  destruct (Hall x ltac:(left)) as (v & -> & Hv).
  cbn [of_option mbind result_bind].
  assert (Hrest : forall d, d ∈ digests ->
     exists v, hashMap !! d = Some v
               /\ (backend_of v = "50"%string -> exists h, v = Remote_50 h)).
  { intros d Hd. apply Hall. now right. }
  destruct (String.eqb_spec (backend_of v) "50") as [H50|_]; [|auto].
  destruct (Hv H50) as [h ->]. cbn [schema_hash_of mbind result_bind]. auto.
Qed.

Lemma requested_nil d : ~ requested [] d.
Proof. intros (schema & hashes & Hin & _). inversion Hin. Qed.

Lemma requested_app a b d :
  requested (a ++ b) d <-> requested a d \/ requested b d.
Proof.
  unfold requested. split.
  - intros (schema & hashes & Hin & Hd). apply elem_of_app in Hin as [Hin|Hin];
      [left | right]; eauto.
  - intros [(schema & hashes & Hin & Hd)|(schema & hashes & Hin & Hd)];
      exists schema, hashes; (split; [apply elem_of_app; auto | exact Hd]).
Qed.

Section FetchDataProps.

Variable connect : string -> result server.
Variable set_iter : gset string -> list string.
Variable CW_data :
  string -> list (string * string) -> option string -> repo
  -> list string * repo.
Variable data_hashes : repo -> string -> list string.
Variable hash_index : gmap string string -> gmap string hash_spec.

(** The loop for one schema does what [retries] says. *)
Lemma fetch_group_retries fuel client schema hashes s s' :
  fetch_group CW_data fuel client schema hashes s = Some s' ->
  retries CW_data client schema hashes s s'.
Proof.
  revert hashes s. induction fuel as [|fuel IH]; intros hashes s;
    cbn [fetch_group]; [discriminate|].
  case_bool_decide as Hempty.
  - intros [= <-]. subst hashes. constructor.
  - cbn [local set_log].
    destruct (CW_data _ _ _ _) as [saved st] eqn:Hcw. intros Hrun.
    eapply retries_step; [exact Hempty | exact Hcw | apply IH, Hrun].
Qed.

Lemma fetch_groups_runs fuel client groups s s' :
  fetch_groups CW_data fuel client groups s = Some s' ->
  group_runs CW_data client groups s s'.
Proof.
  revert s. induction groups as [|[schema digests] groups IH]; intros s;
    cbn [fetch_groups].
  - intros [= <-]. constructor.
  - destruct (fetch_group _ _ _ _ _ _) as [s1|] eqn:H1; [|discriminate].
    intros Hrest. econstructor; [apply (fetch_group_retries _ _ _ _ _ _ H1)|].
    apply IH, Hrest.
Qed.

(** [retries] and [group_runs] leave one session only. *)
Lemma retries_det client schema hashes s s1 s2 :
  retries CW_data client schema hashes s s1 ->
  retries CW_data client schema hashes s s2 -> s1 = s2.
Proof.
  intros H1. revert s2.
  induction H1 as [s|hashes s saved st s' Hne Hcw _ IH]; intros s2 H2.
  - inversion H2 as [|? ? ? ? ? Hne' _ _]; [reflexivity | congruence].
  - inversion H2 as [|? ? saved' st' ? _ Hcw' Hrest]; subst; [congruence|].
    rewrite Hcw in Hcw'. injection Hcw' as <- <-. apply IH, Hrest.
Qed.

Lemma group_runs_det client groups s s1 s2 :
  group_runs CW_data client groups s s1 ->
  group_runs CW_data client groups s s2 -> s1 = s2.
Proof.
  intros H1. revert s2.
  induction H1 as [s|schema digests rest s sa s' Hr _ IH]; intros s2 H2.
  - now inversion H2.
  - inversion H2 as [|? ? ? ? sb ? Hr' Hrest]; subst.
    rewrite <- (retries_det _ _ _ _ _ _ Hr Hr') in Hrest. apply IH, Hrest.
Qed.

(** The calls of one schema: all of them [fetch_data] calls for the
    schema, asking between them for the digests of the group. *)
Lemma retries_log client schema hashes s s' :
  retries CW_data client schema hashes s s' ->
  exists calls,
    log s' = log s ++ calls
    /\ (forall call, call ∈ calls -> exists h, call = FetchData schema h)
    /\ forall d, requested calls d <-> d ∈ hashes.
Proof.
  induction 1 as [s|hashes s saved st s' Hne Hcw _ IH].
  - exists []. rewrite app_nil_r. split; [reflexivity|].
    split; [intros call Hin; inversion Hin|].
    intros d. split; [intros H; now apply requested_nil in H|].
    intros H. now apply not_elem_of_empty in H.
  - destruct IH as (calls & Hlog & Hcalls & Hreq).
    cbn [log set_local set_log] in Hlog.
    exists (FetchData schema hashes :: calls).
    rewrite Hlog, <- app_assoc. split; [reflexivity|]. split.
    + intros call Hin. apply elem_of_cons in Hin as [->|Hin]; eauto.
    + intros d. change (FetchData schema hashes :: calls)
        with ([FetchData schema hashes] ++ calls).
      rewrite requested_app, Hreq. split.
      * intros [(sch & h & Hin & Hd)|Hd].
        -- apply list_elem_of_singleton in Hin. now injection Hin as <- <-.
        -- now apply elem_of_difference in Hd as [Hd _].
      * intros Hd. left. exists schema, hashes.
        split; [apply list_elem_of_singleton; reflexivity | exact Hd].
Qed.

Lemma group_runs_log client groups s s' :
  group_runs CW_data client groups s s' ->
  exists calls,
    log s' = log s ++ calls
    /\ (forall call, call ∈ calls -> exists schema h, call = FetchData schema h)
    /\ forall d, requested calls d <-> exists schema, grouped groups schema d.
Proof.
  induction 1 as [s|schema digests rest s s1 s' Hr _ IH].
  - exists []. rewrite app_nil_r. split; [reflexivity|].
    split; [intros call Hin; inversion Hin|].
    intros d. split; [intros H; now apply requested_nil in H|].
    intros (schema & l & Hl & _). inversion Hl.
  - apply retries_log in Hr as (c1 & Hlog1 & Hc1 & Hreq1).
    destruct IH as (c2 & Hlog2 & Hc2 & Hreq2).
    exists (c1 ++ c2). rewrite Hlog2, Hlog1, <- app_assoc.
    split; [reflexivity|]. split.
    + intros call Hin. apply elem_of_app in Hin as [Hin|Hin]; [|auto].
      destruct (Hc1 call Hin) as [h ->]. eauto.
    + intros d. rewrite requested_app, Hreq1, Hreq2, elem_of_list_to_set.
      unfold grouped. split.
      * intros [Hd|(sch & l & Hl & Hd)].
        -- exists schema, digests. split; [left | exact Hd].
        -- exists sch, l. split; [right; exact Hl | exact Hd].
      * intros (sch & l & Hl & Hd). apply elem_of_cons in Hl as [Hl|Hl].
        -- injection Hl as -> ->. now left.
        -- right. exists sch, l. auto.
Qed.

Lemma materialises_requests client hashMap digests s s' :
  materialises CW_data client hashMap digests s s' ->
  requests_references hashMap digests s s'.
Proof.
  intros (groups & s1 & _ & Hgr & _ & Hruns & ->).
  apply group_runs_log in Hruns as (calls & Hlog & Hcalls & Hreq).
  exists calls. cbn [log set_local]. split; [exact Hlog|].
  split; [exact Hcalls|]. intros d. rewrite Hreq. split.
  - intros [schema Hd]. apply Hgr in Hd as [Hd Hs]. eauto.
  - intros (Hd & schema & Hs). exists schema. apply Hgr. auto.
Qed.

Lemma fetch_commit_data_materialises fuel client cmt s r s' :
  enumerates set_iter ->
  fetch_commit_data set_iter CW_data data_hashes hash_index fuel client cmt s
  = Some (Ok r, s') ->
  r = cmt
  /\ materialises CW_data client (hash_index (hashenv (local s)))
       (list_to_set (data_hashes (local s) cmt)) s s'.
Proof.
  intros Henum. unfold fetch_commit_data.
  destruct (schema_hash_map _ _ _) as [groups|e] eqn:Hgroups;
    [|discriminate].
  destruct (fetch_groups _ _ _ _ _) as [s1|] eqn:Hfetch; [|discriminate].
  intros [= <- <-]. split; [reflexivity|].
  apply schema_hash_map_spec in Hgroups as (Hgr & Hnd & Hne).
  apply fetch_groups_runs in Hfetch.
  exists groups, s1.
  split; [apply Hnd; constructor|].
  split; [|split; [apply Hne; constructor | split; [exact Hfetch | reflexivity]]].
  intros schema d. rewrite Hgr, (Henum _ d), elem_of_list_to_set.
  split; [|auto].
  intros [(l & Hl & _)|H]; [inversion Hl | exact H].
Qed.

(** The loop for one schema ends within as many calls as there are
    digests, provided every call makes the writer save at least one of
    the digests that were requested. *)
Lemma fetch_group_terminates client schema :
  writer_progresses CW_data client ->
  forall n hashes s,
    (size hashes <= n)%nat ->
    exists s', fetch_group CW_data (S n) client schema hashes s = Some s'.
Proof.
  intros Hprogress n.
  induction n as [|n IH]; intros hashes s Hn; cbn [fetch_group].
  - assert (Hempty : hashes = ∅).
    { apply leibniz_equiv, size_empty_iff. lia. }
    rewrite bool_decide_eq_true_2 by exact Hempty. eauto.
  - case_bool_decide as Hempty; [eauto|].
    destruct (Hprogress schema (log s) hashes
                (local (set_log s (log s ++ [FetchData schema hashes])))
                Hempty) as (d & Hd & Hsaved).
    destruct (CW_data _ _ _ _) as [saved st] eqn:Hcw.
    cbn [fst] in Hsaved.
    apply IH.
    assert (Hlt : (size (hashes ∖ list_to_set saved) < size hashes)%nat).
    { apply subset_size. apply strict_spec_alt. split; [set_solver|].
      intros Heq. assert (Hin : d ∈ hashes ∖ list_to_set saved).
      { rewrite Heq. exact Hd. }
      apply elem_of_difference in Hin as [_ Hnot]. apply Hnot.
      apply elem_of_list_to_set. exact Hsaved. }
    lia.
Qed.

Lemma fetch_groups_terminates client n groups s :
  writer_progresses CW_data client ->
  Forall (fun g : string * list string =>
            (size (list_to_set g.2 : gset string) <= n)%nat) groups ->
  exists s', fetch_groups CW_data (S n) client groups s = Some s'.
Proof.
  intros Hprogress Hall. revert s.
  induction Hall as [|[schema digests] groups Hg _ IH]; intros s;
    cbn [fetch_groups]; [eauto|].
  destruct (fetch_group_terminates client schema Hprogress n
              (list_to_set digests) s Hg) as [s1 ->].
  apply IH.
Qed.

(** With a complete hash index and a writer that saves something of
    every batch, the walk over the digests of a commit returns, and
    with the same session for every amount of fuel above the number
    of digests. *)
Lemma fetch_commit_data_returns client cmt s :
  enumerates set_iter ->
  index_covers (hash_index (hashenv (local s)))
    (list_to_set (data_hashes (local s) cmt)) ->
  writer_progresses CW_data client ->
  exists s',
    forall fuel,
      (size (list_to_set (data_hashes (local s) cmt) : gset string) < fuel)%nat ->
      fetch_commit_data set_iter CW_data data_hashes hash_index fuel client
        cmt s = Some (Ok cmt, s').
Proof.
  intros Henum Hcov Hprogress.
  set (digests := list_to_set (data_hashes (local s) cmt) : gset string) in *.
  set (hashMap := hash_index (hashenv (local s))) in *.
  destruct (schema_hash_map_total hashMap (set_iter digests) [])
    as [groups Hgroups].
  { intros d Hd. apply Hcov, Henum, Hd. }
  pose proof (schema_hash_map_spec _ _ _ _ Hgroups) as (Hgr & _ & _).
  assert (Hsizes : Forall (fun g : string * list string =>
            (size (list_to_set g.2 : gset string) <= size digests)%nat) groups).
  { apply Forall_forall. intros [schema l] Hin. cbn [snd].
    apply subseteq_size. intros d Hd. apply elem_of_list_to_set in Hd.
    assert (Hg : grouped groups schema d) by (exists l; auto).
    apply Hgr in Hg as [(l' & Hl' & _)|[Hd' _]]; [inversion Hl'|].
    now apply Henum in Hd'. }
  assert (Hrun : forall n, (size digests <= n)%nat ->
            exists s1, fetch_groups CW_data (S n) client groups s = Some s1).
  { intros n Hn. apply fetch_groups_terminates; [exact Hprogress|].
    eapply Forall_impl; [exact Hsizes|]. cbn. intros g Hg. lia. }
  destruct (Hrun (size digests) ltac:(lia)) as [s1 Hs1].
  exists (set_local s1 (move_remote_data_to_store (local s1))).
  intros [|n] Hfuel; [lia|].
  destruct (Hrun n ltac:(lia)) as [s2 Hs2].
  unfold fetch_commit_data. fold digests hashMap. rewrite Hgroups, Hs2.
  apply fetch_groups_runs in Hs1, Hs2.
  now rewrite (group_runs_det _ _ _ _ _ Hs1 Hs2).
Qed.

(** C6 (amended): [fetch_data] walks the digest set of the commit and
    requests bytes for exactly the digests whose hash-index entry is a
    reference-only entry (backend ["50"]), grouped by the schema hash
    of the entry; for each group it calls [fetch_data] with the
    digests that remain, takes off the digests the writer reports as
    saved, and calls again with the rest until nothing remains.

    With the repository initialised and the remote connected: a run of
    [Remote.fetch_data] or of [Repository.fetch_data] that returns has
    done this ([materialises]: every next request is the last one
    without what the writer returned for it) and its calls ask for
    exactly the reference-only digests of the commit; and when the
    hash index has an entry for every digest of the commit and the
    writer saves at least one digest of every batch, both functions do
    return the commit, in the same session for every amount of fuel
    above the number of digests. *)
Theorem fetch_data_requests_references remote branch commit s address client :
  enumerates set_iter ->
  repo_is_initialized s = true ->
  get_remote_address (branchenv (local s)) remote = Ok address ->
  connect address = Ok client ->
  let fetch := fetch_data connect set_iter CW_data data_hashes hash_index in
  let repo_fetch :=
    repository_fetch_data connect set_iter CW_data data_hashes hash_index in
  let index := hash_index (hashenv (local s)) in
  let digests cmt : gset string := list_to_set (data_hashes (local s) cmt) in
  (forall fuel cmt s',
     fetch fuel remote branch commit s = Some (Ok cmt, s') ->
     resolve_commit (local s) branch commit = Ok cmt
     /\ materialises CW_data client index (digests cmt) s s'
     /\ requests_references index (digests cmt) s s')
  /\ (forall fuel commit_hash cmt s',
        repo_fetch fuel remote commit_hash s = Some (Ok cmt, s') ->
        cmt = commit_hash
        /\ materialises CW_data client index (digests cmt) s s'
        /\ requests_references index (digests cmt) s s')
  /\ (forall cmt,
        index_covers index (digests cmt) ->
        writer_progresses CW_data client ->
        exists s',
          materialises CW_data client index (digests cmt) s s'
          /\ forall fuel,
               (size (digests cmt) < fuel)%nat ->
               repo_fetch fuel remote cmt s = Some (Ok cmt, s')
               /\ (resolve_commit (local s) branch commit = Ok cmt ->
                   fetch fuel remote branch commit s = Some (Ok cmt, s'))).
Proof.
  intros Henum Hinit Haddr Hconn fetch repo_fetch index digests.
  assert (Hfetch : forall fuel,
    fetch fuel remote branch commit s
    = match resolve_commit (local s) branch commit with
      | Raise e => Some (Raise e, s)
      | Ok cmt => fetch_commit_data set_iter CW_data data_hashes hash_index
                    fuel client cmt s
      end).
  { intros fuel. unfold fetch, fetch_data, resolve_commit.
    rewrite Hinit, Haddr, Hconn. cbn [negb].
    destruct (truthy branch && truthy commit); reflexivity. }
  assert (Hrepo : forall fuel c,
    repo_fetch fuel remote c s
    = fetch_commit_data set_iter CW_data data_hashes hash_index fuel client
        c s).
  { intros fuel c. unfold repo_fetch, repository_fetch_data.
    rewrite Hinit, Haddr, Hconn. reflexivity. }
  split; [|split].
  - intros fuel cmt s'. rewrite Hfetch.
    destruct (resolve_commit (local s) branch commit) as [c|e];
      [|discriminate].
    intros Hrun.
    apply (fetch_commit_data_materialises _ _ _ _ _ _ Henum) in Hrun
      as [-> Hm].
    split; [reflexivity|]. split; [exact Hm|].
    apply (materialises_requests _ _ _ _ _ Hm).
  - intros fuel commit_hash cmt s'. rewrite Hrepo. intros Hrun.
    apply (fetch_commit_data_materialises _ _ _ _ _ _ Henum) in Hrun
      as [-> Hm].
    split; [reflexivity|]. split; [exact Hm|].
    apply (materialises_requests _ _ _ _ _ Hm).
  - intros cmt Hcov Hprogress.
    destruct (fetch_commit_data_returns client cmt s Henum Hcov Hprogress)
      as [s' Hret].
    exists s'. split.
    + specialize (Hret _ (Nat.lt_succ_diag_r _)).
      now apply (fetch_commit_data_materialises _ _ _ _ _ _ Henum) in Hret
        as [_ Hm].
    + intros fuel Hfuel. rewrite Hrepo, Hfetch.
      split; [apply Hret, Hfuel|]. intros ->. apply Hret, Hfuel.
Qed.

End FetchDataProps.

(** In the example the writer saves every digest it is sent and the
    server sends every digest it is asked for. *)
Lemma save_all_progresses : writer_progresses save_all data_server.
Proof.
  intros schema calls hashes st Hne.
  apply set_choose_L in Hne as [d Hd]. exists d. split; [exact Hd|].
  cbn. rewrite <- list_fmap_compose. apply list_elem_of_fmap.
  exists d. split; [reflexivity | now apply elem_of_elements].
Qed.

Lemma partial_index_covers :
  index_covers (partial_index (hashenv (local cloned_session)))
    (list_to_set (partial_hashes (local cloned_session) "m1")).
Proof.
  intros d Hd. change (partial_hashes (local cloned_session) "m1")
    with ["h00"; "h50"]%string in Hd.
  apply elem_of_list_to_set in Hd.
  apply elem_of_cons in Hd as [->|Hd];
    [|apply list_elem_of_singleton in Hd as ->].
  - eexists. split; [vm_compute; reflexivity|]. vm_compute. discriminate.
  - eexists. split; [vm_compute; reflexivity|]. eauto.
Qed.

Lemma fetch_data_requests_references_witness :
  exists s',
    materialises save_all data_server
      (partial_index (hashenv (local cloned_session)))
      (list_to_set (partial_hashes (local cloned_session) "m1"))
      cloned_session s'
    /\ forall fuel,
         (size (list_to_set (partial_hashes (local cloned_session) "m1")
                : gset string) < fuel)%nat ->
         repository_fetch_data (test_connect data_server) iter_ascending
           save_all partial_hashes partial_index fuel "origin" "m1"
           cloned_session = Some (Ok "m1"%string, s')
         /\ (resolve_commit (local cloned_session) (Some "master"%string) None
             = Ok "m1"%string ->
             fetch_data (test_connect data_server) iter_ascending save_all
               partial_hashes partial_index fuel "origin"
               (Some "master"%string) None cloned_session
             = Some (Ok "m1"%string, s')).
Proof.
  refine (proj2 (proj2 (fetch_data_requests_references
            (test_connect data_server) iter_ascending save_all partial_hashes
            partial_index "origin" (Some "master"%string) None cloned_session
            "localhost:50051" data_server iter_ascending_enumerates
            _ _ _)) "m1"%string partial_index_covers save_all_progresses);
    vm_compute; reflexivity.
Defined.

(** ** Push *)

Section PushProps.

Variable connect : string -> result server.
Variable set_iter : gset string -> list string.
Variable list_history_order : repo -> string -> list string.
Variable CR_schema : repo -> string -> option string.
Variable CR_label : repo -> string -> option string.
Variable CR_commit : repo -> string -> option commit_content.
Variable unpack_commit_ref :
  gmap string commit_record -> ref_db -> string -> result ref_db.

(** On a cursor that [first] could not position, the clearing loop of
    [Remote.push] keeps calling [delete], which keeps answering
    [False]. *)
Lemma delete_while_not_stuck fuel c :
  positioned c = false -> delete_while_not fuel false c = None.
Proof.
  intros Hp. induction fuel as [|fuel IH]; [reflexivity|].
  cbn [delete_while_not]. unfold cursor_delete. rewrite Hp. exact IH.
Qed.

(** The same loop leaves a store that has records as it is. *)
Lemma delete_while_not_keeps fuel c :
  delete_while_not (S fuel) true c = Some c.
Proof. reflexivity. Qed.

(** [Remote] has no attribute [env]. *)
Lemma remote_has_no_env s : remote_getattr s "env" = Raise AttributeError.
Proof. reflexivity. Qed.

(** With a commit to look at and the fresh temporary store, the commit
    loop of [Remote.push] never comes back. *)
Lemma count_objects_diverges fuel client commit rest acc s :
  count_objects unpack_commit_ref fuel client (commit :: rest) [] acc s = None.
Proof.
  cbn [count_objects cursor_first records is_nil negb].
  rewrite delete_while_not_stuck; reflexivity.
Qed.

(** [Remote.push] returns nothing as soon as the server reports a
    commit missing. *)
Lemma push_diverges fuel remote branch s client commit rest s' :
  run (push_prelude connect list_history_order remote branch) s
    = (Ok (inr (client, commit :: rest)), s') ->
  push connect set_iter list_history_order CR_schema CR_label CR_commit
    unpack_commit_ref fuel remote branch s = None.
Proof.
  intros H. unfold push. rewrite H, count_objects_diverges. reflexivity.
Qed.

End PushProps.

(** C7: during a push, the client is to build a temporary ref database
    per missing commit and pass it with every [push_find_missing_*]
    call. With the server one commit behind, [Remote.push] never
    returns, whatever the fuel (it does not get past the clearing of the
    temporary store, so that no [push_find_missing_*] call is made), and
    [Repository.push] makes its three [push_find_missing_*] calls with
    the commit alone. *)
Theorem push_sends_no_ref_db :
  (forall fuel,
     push (test_connect stale_server) iter_ascending test_history
       read_value read_value read_commit unpack_refs
       fuel "origin" "master" cloned_session = None)
  /\ run (repository_push (test_connect stale_server) iter_ascending
            test_history read_value read_value read_commit
            "origin" "master") cloned_session
     = (Ok true, set_log cloned_session after_repository_push)
  /\ existsb carries_ref_db after_repository_push = false.
Proof.
  split; [|split].
  - intros fuel.
    eapply push_diverges with (client := stale_server) (commit := "m1"%string)
      (rest := []).
    vm_compute. reflexivity.
  - vm_compute. reflexivity.
  - reflexivity.
Qed.

(** ** More on the chunk-shape loop *)

Import Hdf5Files Fixtures2.

Section ChunkLoop.
Variables itemsize max_chunk_nbytes : Z.

Let loop fuel st := chunk_loop fuel itemsize max_chunk_nbytes st.

(** The index the loop body works at. *)
Lemma chunk_body_index (st : chunk_state) :
  chunk_shape st <> [] ->
  ((if (length (chunk_shape st) <=? chunk_idx st)%nat then 0%nat
    else chunk_idx st) < length (chunk_shape st))%nat.
Proof.
  intros Hne. destruct (Nat.leb_spec (length (chunk_shape st)) (chunk_idx st));
    [|lia].
  destruct (chunk_shape st); [congruence | simpl; lia].
Qed.

Lemma chunk_loop_more fuel k st r :
  loop fuel st = Some r -> loop (fuel + k) st = Some r.
Proof.
  unfold loop. revert st. induction fuel as [|fuel IH]; intros st;
    [discriminate|].
  cbn [chunk_loop Nat.add].
  destruct (chunk_body itemsize max_chunk_nbytes st); auto.
Qed.

Lemma Forall2_insert_weaken {A} (R : A -> A -> Prop) K l i d x :
  l !! i = Some d ->
  (forall c, R c x -> R c d) ->
  Forall2 R K (<[i := x]> l) -> Forall2 R K l.
Proof.
  intros Hd Hw H. apply Forall2_same_length_lookup.
  apply Forall2_same_length_lookup in H as [Hlen H].
  rewrite length_insert in Hlen. split; [exact Hlen|].
  intros j c y Hc Hy. destruct (decide (j = i)) as [->|Hne].
  - rewrite Hd in Hy. injection Hy as <-. apply Hw, (H i); [exact Hc|].
    apply list_lookup_insert_eq. eapply lookup_lt_Some, Hd.
  - apply (H j); [exact Hc|]. rewrite list_lookup_insert_ne by congruence.
    exact Hy.
Qed.

Lemma halved_once c d k :
  2 < d -> c = d / 2 / 2 ^ Z.of_nat k -> (k = 0%nat \/ 1 <= c) ->
  c = d / 2 ^ Z.of_nat (S k) /\ 1 <= c.
Proof.
  intros Hd -> Hk. split.
  - rewrite Nat2Z.inj_succ, Z.pow_succ_r by lia.
    rewrite Z.div_div by lia. reflexivity.
  - destruct Hk as [->|Hk]; [|exact Hk].
    change (2 ^ Z.of_nat 0) with 1. rewrite Z.div_1_r.
    apply Z.div_le_lower_bound; lia.
Qed.

Lemma chunk_loop_extents fuel st K nb :
  loop fuel st = Some (Ok (K, nb)) ->
  Forall2 (fun c d => exists k : nat,
             c = d / 2 ^ Z.of_nat k /\ (k = 0%nat \/ 1 <= c))
    K (chunk_shape st).
Proof.
  unfold loop. revert st. induction fuel as [|fuel IH]; intros st;
    cbn [chunk_loop]; [discriminate|].
  unfold chunk_body.
  destruct (chunk_nbytes st <=? max_chunk_nbytes).
  - intros [= <- <-]. apply Forall2_same_length_lookup. split; [reflexivity|].
    intros i c d Hc Hd. exists 0%nat. split; [|now left].
    change (2 ^ Z.of_nat 0) with 1. rewrite Z.div_1_r. congruence.
  - destruct (chunk_shape st !! _) as [d|] eqn:Hd; [|discriminate].
    destruct (Z.leb_spec d 2) as [_|Hbig]; intros Hrun; apply IH in Hrun;
      cbn [chunk_shape] in Hrun; [exact Hrun|].
    eapply Forall2_insert_weaken; [exact Hd | | exact Hrun].
    intros c (k & Hc & Hk). exists (S k).
    destruct (halved_once c d k Hbig Hc Hk) as [H1 H2]. auto.
Qed.

Lemma chunk_loop_raises fuel st e :
  loop fuel st = Some (Raise e) -> e = IndexError /\ chunk_shape st = [].
Proof.
  unfold loop. revert st. induction fuel as [|fuel IH]; intros st;
    cbn [chunk_loop]; [discriminate|].
  unfold chunk_body.
  destruct (chunk_nbytes st <=? max_chunk_nbytes); [discriminate|].
  destruct (chunk_shape st !! _) as [d|] eqn:Hd.
  - destruct (d <=? 2); intros Hrun; apply IH in Hrun as [-> Hnil];
      cbn [chunk_shape] in Hnil; [auto|].
    apply (f_equal length) in Hnil. rewrite length_insert in Hnil.
    split; [reflexivity|]. now destruct (chunk_shape st).
  - intros [= <-]. split; [reflexivity|].
    destruct (chunk_shape st) as [|x l] eqn:Hs; [reflexivity|].
    apply lookup_ge_None in Hd.
    pose proof (chunk_body_index st) as Hi. rewrite Hs in Hi.
    specialize (Hi ltac:(congruence)). lia.
Qed.

End ChunkLoop.




Section ChunkTermination.
Variables itemsize max_chunk_nbytes : Z.
Hypothesis itemsize_pos : 0 < itemsize.

Lemma product_small l :
  Forall (fun d => 0 <= d <= 2) l ->
  0 <= product l <= 2 ^ Z.of_nat (length l).
Proof.
  induction 1 as [|d l Hd _ IH]; [cbn; lia|].
  unfold product in *. cbn [fold_right length].
  rewrite Nat2Z.inj_succ, Z.pow_succ_r by lia. nia.
Qed.

Lemma no_big_extent l :
  existsb (fun d => 2 <? d) l = false -> Forall (fun d => d <= 2) l.
Proof.
  induction l as [|d l IH]; [constructor|]. cbn [existsb].
  intros H. apply orb_false_elim in H as [Hd Hl].
  constructor; [|auto]. destruct (Z.ltb_spec 2 d); [discriminate | lia].
Qed.

Lemma sum_extents_insert l i d x :
  l !! i = Some d -> sum_extents (<[i := x]> l) = sum_extents l - d + x.
Proof.
  revert i. induction l as [|y l IH]; intros [|i]; try discriminate.
  - intros [= ->]. unfold sum_extents. cbn. lia.
  - intros Hd. change (<[S i := x]> (y :: l)) with (y :: <[i := x]> l).
    change (sum_extents (y :: <[i := x]> l))
      with (y + sum_extents (<[i := x]> l)).
    change (sum_extents (y :: l)) with (y + sum_extents l).
    rewrite (IH i Hd). lia.
Qed.

Lemma sum_extents_nonneg l : Forall (fun d => 0 <= d) l -> 0 <= sum_extents l.
Proof.
  induction 1; unfold sum_extents in *; cbn [fold_right]; lia.
Qed.

(** The steps left before the next halving, at most: to the end of the
    shape if an extent above 2 lies ahead, else to the end and once
    more from the start. *)
Let ahead (shape : list Z) (i : nat) : Z :=
  let rank := Z.of_nat (length shape) in
  if existsb (fun d => 2 <? d) (drop i shape) then rank - Z.of_nat i
  else 2 * rank + 1 - Z.of_nat i.

Let potential (st : chunk_state) : Z :=
  let rank := Z.of_nat (length (chunk_shape st)) in
  let i := if (length (chunk_shape st) <=? chunk_idx st)%nat then 0%nat
           else chunk_idx st in
  (2 * rank + 2) * sum_extents (chunk_shape st) + ahead (chunk_shape st) i.

Lemma chunk_loop_ends fuel st :
  chunk_nbytes st = nbytes itemsize (chunk_shape st) ->
  Forall (fun d => 0 <= d) (chunk_shape st) ->
  itemsize * 2 ^ Z.of_nat (length (chunk_shape st)) <= max_chunk_nbytes ->
  potential st < Z.of_nat fuel ->
  exists r, chunk_loop fuel itemsize max_chunk_nbytes st = Some (Ok r).
Proof.
  revert st. induction fuel as [|fuel IH]; intros [shape nb idx];
    cbn [chunk_nbytes chunk_shape chunk_idx]; intros Hnb Hpos Hbudget Hpot.
  { exfalso. unfold potential, ahead in Hpot.
    cbn [chunk_nbytes chunk_shape chunk_idx] in Hpot.
    pose proof (sum_extents_nonneg _ Hpos) as Hsum.
    set (i := if (length shape <=? idx)%nat then 0%nat else idx) in *.
    assert (Hi : (i <= length shape)%nat).
    { subst i. destruct (Nat.leb_spec (length shape) idx); lia. }
    destruct (existsb _ _); nia. }
  cbn [chunk_loop]. unfold chunk_body.
  cbn [chunk_nbytes chunk_shape chunk_idx].
  destruct (Z.leb_spec nb max_chunk_nbytes) as [Hle|Hgt]; [eauto|].
  assert (Hbig : existsb (fun d => 2 <? d) shape = true).
  { destruct (existsb _ shape) eqn:E; [reflexivity|]. exfalso.
    apply no_big_extent in E.
    assert (Hsmall : Forall (fun d => 0 <= d <= 2) shape).
    { rewrite Forall_forall in *. intros d Hd.
      specialize (E d Hd). specialize (Hpos d Hd). lia. }
    apply product_small in Hsmall. unfold nbytes in Hnb. nia. }
  assert (Hne : shape <> []) by (intros ->; discriminate).
  pose proof (chunk_body_index (mk_chunk_state shape nb idx) Hne) as Hi.
  cbn [chunk_shape chunk_idx] in Hi.
  unfold potential in Hpot. cbn [chunk_shape chunk_idx] in Hpot.
  set (i := if (length shape <=? idx)%nat then 0%nat else idx) in *.
  destruct (lookup_lt_is_Some_2 shape i Hi) as [d Hd]. rewrite Hd.
  pose proof (sum_extents_nonneg _ Hpos) as Hsum.
  assert (Hdrop : drop i shape = d :: drop (S i) shape)
    by (apply drop_S, Hd).
  destruct (Z.leb_spec d 2) as [Hd2|Hd2].
  - apply IH; cbn [chunk_nbytes chunk_shape chunk_idx]; try assumption.
    unfold potential. cbn [chunk_shape chunk_idx].
    enough (ahead shape (if (length shape <=? S i)%nat then 0%nat else S i)
            < ahead shape i) by lia.
    unfold ahead. rewrite Hdrop. cbn [existsb].
    destruct (Z.ltb_spec 2 d) as [|_]; [lia|]. cbn [orb].
    destruct (Nat.leb_spec (length shape) (S i)) as [Hend|Hin].
    + assert (Hnil : drop (S i) shape = []) by (apply drop_ge; lia).
      rewrite Hnil. cbn [existsb]. rewrite drop_0, Hbig. lia.
    + destruct (existsb _ (drop (S i) shape)); lia.
  - assert (Hpos' : Forall (fun d => 0 <= d) (<[i := d / 2]> shape)).
    { apply Forall_insert; [exact Hpos|]. apply Z.div_pos; lia. }
    apply IH; cbn [chunk_nbytes chunk_shape chunk_idx];
      rewrite ?length_insert; try assumption; [reflexivity|].
    unfold potential. cbn [chunk_shape chunk_idx].
    rewrite length_insert, (sum_extents_insert _ _ _ _ Hd).
    assert (Hhalf : d / 2 <= d - 2).
    { clear - Hd2. Z.div_mod_to_equations. lia. }
    assert (Ha : forall l j, (j <= length l)%nat ->
                 0 <= ahead l j <= 2 * Z.of_nat (length l) + 1).
    { intros l j Hj. unfold ahead. cbv zeta.
      destruct (existsb _ (drop j l)); lia. }
    set (j := if (length shape <=? S i)%nat then 0%nat else S i).
    assert (Hj : (j <= length shape)%nat).
    { subst j. destruct (Nat.leb_spec (length shape) (S i)); lia. }
    pose proof (Ha (<[i := d / 2]> shape) j) as H1.
    rewrite length_insert in H1. specialize (H1 Hj).
    pose proof (Ha shape i ltac:(lia)) as H2.
    nia.
Qed.

End ChunkTermination.



(** ** More on the location records *)

Section DecodeErrors.
Variables LISTSEP SLICESEP HASHSEP : ascii.

Lemma occurs_drop_chars c n s :
  occurs c (drop_chars n s) = true -> occurs c s = true.
Proof.
  revert s. induction n as [|n IH]; intros [|a s]; cbn; auto.
  intros H. rewrite (IH _ H). apply orb_true_r.
Qed.

Lemma occurs_partition_tail c x s :
  occurs x (partition c s).2 = true -> occurs x s = true.
Proof.
  induction s as [|a s IH]; [auto|]. cbn [partition].
  destruct (Ascii.eqb a c).
  - cbn. intros ->. apply orb_true_r.
  - destruct (partition c s) as [[h m] t]. cbn in *.
    intros H. rewrite (IH H). apply orb_true_r.
Qed.

Lemma occurs_rpartition_head c x s :
  occurs x (rpartition c s).1.1 = true -> occurs x s = true.
Proof.
  induction s as [|a s IH]; [auto|]. cbn [rpartition].
  destruct (rpartition c s) as [[h m] t]. cbn [fst snd] in IH.
  destruct m.
  - destruct (Ascii.eqb a c); cbn; discriminate.
  - cbn. intros H. apply orb_prop in H as [->|H]; [reflexivity|].
    rewrite (IH H). apply orb_true_r.
Qed.

End DecodeErrors.



(** ** Runs of the writer *)

Section WriterRunProps.

Variables num_collections collection_size max_nbytes : Z.
Variable HDF_ATTRS : string -> string.
Variable random_string : nat -> string.
Variables SEP LISTSEP SLICESEP HASHSEP : ascii.

Let write := write_data num_collections collection_size max_nbytes HDF_ATTRS
               random_string SEP LISTSEP SLICESEP HASHSEP.
Let create := create_schema num_collections collection_size max_nbytes
                HDF_ATTRS random_string.
Let runs := written num_collections collection_size max_nbytes HDF_ATTRS
              random_string SEP LISTSEP SLICESEP HASHSEP.
Let inv := cursor_ok num_collections collection_size random_string.

Lemma create_schema_inv fuel remote st st1 :
  create fuel remote st = Some (Ok st1) ->
  exists chunk,
    st1 = mk_handles (schema_shape st) (schema_itemsize st)
      (<[random_string (rng st) :=
           mk_h5file (initial_attrs num_collections collection_size HDF_ATTRS
                        (schema_shape st) chunk) (1 :: chunk) ∅ true true]>
         (wFp st))
      (Some (random_string (rng st))) (Some 0%nat) (Some 0%nat)
      (Some num_collections) (Some collection_size)
      ((if remote then REMOTEDIR else STAGEDIR, random_string (rng st))
         :: links st)
      (S (rng st)).
Proof.
  unfold create, create_schema.
  destruct (_chunk_opts _ _ _ _) as [[[chunk nb]|e]|]; try discriminate.
  destruct (nb =? 0); [discriminate|]. intros [= <-]. eauto.
Qed.

Lemma write_direct_inv array p i st fh fh' :
  write_direct num_collections collection_size array p i st fh = Ok fh' ->
  Z.of_nat p < num_collections /\ Z.of_nat i < collection_size
  /\ fh' = mk_h5file (attrs fh) (chunks fh) (<[(p, i) := array]> (slabs fh))
             false (swmr_mode fh).
Proof.
  unfold write_direct.
  destruct (Z.ltb_spec (Z.of_nat p) num_collections); [|discriminate].
  destruct (Z.ltb_spec (Z.of_nat i) collection_size); [|discriminate].
  cbn [negb]. destruct (negb _); [discriminate|]. intros [= <-]. auto.
Qed.

(** What a [write_data] that returns has done: it made the handles
    ready (by a new container or by a cursor advance) and wrote at the
    cursor of the ready handles. *)
Lemma write_data_inv fuel array remote st loc st' :
  write fuel array remote st = Some (Ok (loc, st')) ->
  exists st1 u fh p i,
    ((writer_open st = false /\ create fuel remote st = Some (Ok st1))
     \/ (writer_open st = true /\ advance st = Ok (inl st1))
     \/ (writer_open st = true
         /\ exists st2, advance st = Ok (inr st2)
                        /\ create fuel remote st2 = Some (Ok st1)))
    /\ w_uid st1 = Some u /\ wFp st1 !! u = Some fh
    /\ hNextPath st1 = Some p /\ hIdx st1 = Some i
    /\ Z.of_nat p < num_collections /\ Z.of_nat i < collection_size
    /\ loc = encode SEP LISTSEP SLICESEP HASHSEP u (IntArg p) (IntArg i)
               (arr_shape array)
    /\ st' = set_file st1 u
               (mk_h5file (attrs fh) (chunks fh)
                  (<[(p, i) := array]> (slabs fh)) false (swmr_mode fh)).
Proof.
  unfold write, write_data. intros Hrun.
  assert (Hready : exists st1,
    ((writer_open st = false /\ create fuel remote st = Some (Ok st1))
     \/ (writer_open st = true /\ advance st = Ok (inl st1))
     \/ (writer_open st = true
         /\ exists st2, advance st = Ok (inr st2)
                        /\ create fuel remote st2 = Some (Ok st1)))
    /\ write_at_cursor num_collections collection_size SEP LISTSEP SLICESEP
         HASHSEP array st1 = Ok (loc, st')).
  { fold create in Hrun. destruct (writer_open st).
    - destruct (advance st) as [[st1|st2]|e] eqn:Ha; [| |discriminate].
      + injection Hrun as Hw. exists st1. split; [|exact Hw].
        right. left. split; reflexivity.
      + destruct (create fuel remote st2) as [[st1|e]|] eqn:Hc;
          try discriminate.
        injection Hrun as Hw. exists st1. split; [|exact Hw].
        right. right. split; [reflexivity|]. exists st2.
        split; [reflexivity | exact Hc].
    - destruct (create fuel remote st) as [[st1|e]|] eqn:Hc; try discriminate.
      injection Hrun as Hw. exists st1. split; [|exact Hw].
      left. split; reflexivity. }
  destruct Hready as (st1 & Hhow & Hw). unfold write_at_cursor in Hw.
  destruct (w_uid st1) as [u|] eqn:Hu; [|discriminate].
  cbn [of_option mbind result_bind] in Hw.
  destruct (wFp st1 !! u) as [fh|] eqn:Hf; [|discriminate].
  cbn [of_option mbind result_bind] in Hw.
  destruct (hNextPath st1) as [p|] eqn:Hp; [|discriminate].
  cbn [of_option mbind result_bind] in Hw.
  destruct (hIdx st1) as [i|] eqn:Hi; [|discriminate].
  cbn [of_option mbind result_bind] in Hw.
  destruct (write_direct _ _ _ _ _ _ _) as [fh'|e] eqn:Hd; [|discriminate].
  cbn [mbind result_bind] in Hw. injection Hw as <- <-.
  apply write_direct_inv in Hd as (Hpn & Him & ->).
  exists st1, u, fh, p, i. repeat split; auto.
Qed.

Lemma advance_inv st r :
  advance st = Ok r ->
  exists i, hIdx st = Some i
    /\ exists size, hMaxSize st = Some size
    /\ ((Z.of_nat (S i) < size
         /\ r = inl (set_cursor st (Some (S i)) (hNextPath st)
                       (hColsRemain st)))
        \/ (size <= Z.of_nat (S i)
            /\ exists p rem,
                 hNextPath st = Some p /\ hColsRemain st = Some rem
                 /\ ((1 < rem - 1
                      /\ r = inl (set_cursor st (Some 0%nat) (Some (S p))
                                    (Some (rem - 1))))
                     \/ (rem - 1 <= 1
                         /\ exists u fh,
                              w_uid st = Some u /\ wFp st !! u = Some fh
                              /\ r = inr (set_file
                                   (set_cursor st (Some 0%nat) (Some (S p))
                                      (Some (rem - 1)))
                                   u
                                   (flush
                                      (attrs_modify "num_collections_remaining"
                                         [rem - 1]
                                         (attrs_modify "next_dset"
                                            [Z.of_nat (S p); 0] fh)))))))).
Proof.
  unfold advance.
  destruct (hIdx st) as [i|]; [|discriminate].
  cbn [of_option mbind result_bind].
  destruct (hMaxSize st) as [size|]; [|discriminate].
  cbn [of_option mbind result_bind].
  intros H. exists i. split; [reflexivity|]. exists size.
  split; [reflexivity|].
  destruct (Z.ltb_spec (Z.of_nat (S i)) size) as [Hlt|Hge].
  - injection H as <-. left. auto.
  - right. split; [exact Hge|].
    destruct (hNextPath st) as [p|]; [|discriminate].
    cbn [of_option mbind result_bind] in H.
    destruct (hColsRemain st) as [rem|]; [|discriminate].
    cbn [of_option mbind result_bind] in H.
    exists p, rem. do 2 (split; [reflexivity|]).
    destruct (Z.leb_spec (rem - 1) 1) as [Hle|Hgt].
    + right. split; [exact Hle|].
      cbn [set_cursor w_uid wFp] in H.
      destruct (w_uid st) as [u|] eqn:Hu; [|discriminate].
      cbn [of_option mbind result_bind] in H.
      destruct (wFp st !! u) as [fh|] eqn:Hf; [|discriminate].
      cbn [of_option mbind result_bind] in H.
      injection H as <-. exists u, fh. auto.
    + left. injection H as <-. auto.
Qed.

Let files_ok (st : handles) : Prop :=
  forall u fh, wFp st !! u = Some fh ->
    slots_ok num_collections collection_size fh.

Let keys_ok (st : handles) : Prop :=
  forall u, is_Some (wFp st !! u) ->
    exists k, (k < rng st)%nat /\ u = random_string k.

Let stored (array : ndarray) (fh : h5file) (p i : nat) : h5file :=
  mk_h5file (attrs fh) (chunks fh) (<[(p, i) := array]> (slabs fh)) false
    (swmr_mode fh).

Lemma slab_lookup_stored array fh p i q j :
  is_Some (slabs (stored array fh p i) !! (q, j)) ->
  (q = p /\ j = i) \/ is_Some (slabs fh !! (q, j)).
Proof.
  cbn [stored slabs]. destruct (decide ((p, i) = (q, j))) as [[= -> ->]|Hne].
  - auto.
  - rewrite lookup_insert_ne by exact Hne. auto.
Qed.

(** A write into a container made for it. *)
Lemma new_container fuel remote st2 st1 u fh p i array :
  files_ok st2 -> keys_ok st2 ->
  create fuel remote st2 = Some (Ok st1) ->
  w_uid st1 = Some u -> wFp st1 !! u = Some fh ->
  hNextPath st1 = Some p -> hIdx st1 = Some i ->
  Z.of_nat p < num_collections -> Z.of_nat i < collection_size ->
  let st' := set_file st1 u (stored array fh p i) in
  u = random_string (rng st2) /\ p = 0%nat /\ i = 0%nat
  /\ inv st'
  /\ wFp st' !! u = Some (stored array fh p i)
  /\ slabs fh = ∅
  /\ w_uid st' = Some u /\ hNextPath st' = Some p /\ hIdx st' = Some i
  /\ (forall u0, u0 <> u -> wFp st' !! u0 = wFp st2 !! u0)
  /\ ((forall m n, random_string m = random_string n -> m = n) ->
      wFp st2 !! u = None).
Proof.
  intros Hfiles Hkeys Hc Hu Hf Hp Hi HpN HiM st'.
  apply create_schema_inv in Hc as [chunk ->].
  cbn [w_uid wFp hNextPath hIdx] in Hu, Hf, Hp, Hi.
  injection Hu as <-. injection Hp as <-. injection Hi as <-.
  rewrite lookup_insert_eq in Hf. injection Hf as <-.
  set (u := random_string (rng st2)) in *.
  assert (Hst' : wFp st' !! u = Some (stored array
            (mk_h5file (initial_attrs num_collections collection_size
               HDF_ATTRS (schema_shape st2) chunk) (1 :: chunk) ∅ true true)
            0 0)).
  { subst st'. cbn [set_file wFp]. apply lookup_insert_eq. }
  assert (Hother : forall v, v <> u -> wFp st' !! v = wFp st2 !! v).
  { intros v Hne. subst st'. cbn [set_file wFp].
    rewrite !lookup_insert_ne by congruence. reflexivity. }
  do 3 (split; [reflexivity|]).
  split; [|split; [exact Hst'|]; do 4 (split; [reflexivity|]);
           split; [exact Hother|]].
  - split; [|split].
    + intros v f Hl. destruct (decide (v = u)) as [->|Hne].
      * rewrite Hst' in Hl. injection Hl as <-. intros q j Hs.
        apply slab_lookup_stored in Hs as [[-> ->]|Hs].
        -- split; [exact HiM | now left].
        -- cbn [slabs] in Hs. rewrite lookup_empty in Hs. now destruct Hs.
      * rewrite Hother in Hl by exact Hne. eapply Hfiles, Hl.
    + intros v Hs. subst st'. cbn [set_file rng].
      destruct (decide (v = u)) as [->|Hne].
      * exists (rng st2). split; [lia | reflexivity].
      * cbn [set_file wFp] in Hs.
        rewrite !lookup_insert_ne in Hs by congruence.
        destruct (Hkeys v Hs) as (k & Hk & ->). exists k. split; [lia|auto].
    + subst st'. cbn [set_file w_uid wFp hIdx hNextPath hColsRemain hMaxSize].
      eexists _, 0%nat, 0%nat. rewrite lookup_insert_eq.
      split; [reflexivity|]. do 2 (split; [reflexivity|]).
      split; [f_equal; lia|]. split; [reflexivity|]. split; [now left|].
      split.
      * cbn [stored slabs]. rewrite lookup_insert_eq. eauto.
      * intros q j Hs. apply slab_lookup_stored in Hs as [[-> ->]|Hs].
        -- right. split; [reflexivity | lia].
        -- cbn [slabs] in Hs. rewrite lookup_empty in Hs. now destruct Hs.
  - intros Hinj. destruct (wFp st2 !! u) as [f|] eqn:E; [|reflexivity].
    destruct (Hkeys u ltac:(eauto)) as (k & Hk & Heq).
    subst u. apply Hinj in Heq. lia.
Qed.

(** One step of the writer: the state the handles keep, where the
    sample went, and what happened to the samples stored before. *)
Lemma write_data_step fuel array remote st loc st' :
  inv st ->
  write fuel array remote st = Some (Ok (loc, st')) ->
  inv st'
  /\ exists u p i fh',
       w_uid st' = Some u /\ hNextPath st' = Some p /\ hIdx st' = Some i
       /\ wFp st' !! u = Some fh' /\ slabs fh' !! (p, i) = Some array
       /\ loc = encode SEP LISTSEP SLICESEP HASHSEP u (IntArg p) (IntArg i)
                  (arr_shape array)
       /\ (u = random_string (rng st) \/ w_uid st = Some u)
       /\ ((forall m n, random_string m = random_string n -> m = n) ->
           (forall fh, wFp st !! u = Some fh -> slabs fh !! (p, i) = None)
           /\ (forall u0 fh0 k a,
                 wFp st !! u0 = Some fh0 -> slabs fh0 !! k = Some a ->
                 exists fh1, wFp st' !! u0 = Some fh1
                             /\ slabs fh1 !! k = Some a)).
Proof.
  intros (Hfiles & Hkeys & Hcur) Hrun.
  apply write_data_inv in Hrun
    as (st1 & u & fh & p & i & Hhow & Hu & Hf & Hp & Hi & HpN & HiM & -> & ->).
  fold (stored array fh p i).
  destruct Hhow as [[Hclosed Hc]|[[Hopen Ha]|(Hopen & st2 & Ha & Hc)]].
  - (* no container open: a new one *)
    assert (Hempty : wFp st = ∅).
    { destruct (w_uid st) as [u0|] eqn:Hu0; [|exact Hcur].
      destruct Hcur as (f & _ & _ & Hl & _). unfold writer_open in Hclosed.
      rewrite Hu0, Hl in Hclosed.
      rewrite bool_decide_eq_true_2 in Hclosed by eauto. discriminate. }
    destruct (new_container fuel remote st st1 u fh p i array Hfiles Hkeys
                Hc Hu Hf Hp Hi HpN HiM)
      as (-> & -> & -> & Hinv & Hl & Hfresh & Hu' & Hp' & Hi' & Hother & Hnone).
    split; [exact Hinv|].
    exists (random_string (rng st)), 0%nat, 0%nat, (stored array fh 0 0).
    do 4 (split; [first [reflexivity | assumption]|]).
    split; [cbn [stored slabs]; apply lookup_insert_eq|].
    split; [reflexivity|]. split; [now left|]. intros _. split.
    + intros f Hl'. rewrite Hempty, lookup_empty in Hl'. discriminate.
    + intros u0 f k a Hl'. rewrite Hempty, lookup_empty in Hl'. discriminate.
  - (* the cursor moved inside the current container *)
    assert (Hsome : exists u0, w_uid st = Some u0).
    { unfold writer_open in Hopen. destruct (w_uid st); [eauto|discriminate]. }
    destruct Hsome as [u0 Hu0]. rewrite Hu0 in Hcur.
    destruct Hcur as (f0 & i0 & p0 & Hl0 & Hi0 & Hp0 & Hr0 & Hm0 & Hlast
                      & Hat & Hbehind).
    apply advance_inv in Ha as (i1 & Hi1 & size & Hsize & Hadv).
    rewrite Hi0 in Hi1. injection Hi1 as <-.
    rewrite Hm0 in Hsize. injection Hsize as <-.
    assert (Hst1 : w_uid st1 = Some u0 /\ wFp st1 = wFp st
                   /\ rng st1 = rng st /\ hMaxSize st1 = Some collection_size
                   /\ hColsRemain st1 = Some (num_collections - Z.of_nat p)
                   /\ ((p = p0 /\ i = S i0)
                       \/ (p = S p0 /\ i = 0%nat
                           /\ 1 < num_collections - Z.of_nat p0 - 1))).
    { destruct Hadv as [[Hlt Hr]|(Hge & p1 & rem & Hp1 & Hrem & Hadv)].
      - injection Hr as ->. cbn [set_cursor w_uid wFp rng hNextPath hIdx
          hMaxSize hColsRemain] in *.
        rewrite Hp0 in Hp. injection Hp as <-. injection Hi as <-.
        rewrite Hr0. auto 10.
      - rewrite Hp0 in Hp1. injection Hp1 as <-.
        rewrite Hr0 in Hrem. injection Hrem as <-.
        destruct Hadv as [[Hgt Hr]|(_ & ? & ? & _ & _ & Hr)]; [|discriminate].
        injection Hr as ->. cbn [set_cursor w_uid wFp rng hNextPath hIdx
          hMaxSize hColsRemain] in *.
        injection Hp as <-. injection Hi as <-.
        repeat split; try assumption.
        + f_equal. lia.
        + right. repeat split. lia. }
    destruct Hst1 as (Hu1 & Hw1 & Hrng1 & Hm1 & Hr1 & Hpos).
    rewrite Hu1 in Hu. injection Hu as <-.
    rewrite Hw1, Hl0 in Hf. injection Hf as <-.
    assert (Hfree : slabs f0 !! (p, i) = None).
    { destruct (slabs f0 !! (p, i)) eqn:E; [|reflexivity].
      destruct (Hbehind p i ltac:(eauto)) as [H1|[H1 H2]];
        destruct Hpos as [[-> ->]|(-> & -> & _)]; lia. }
    assert (Hl' : wFp (set_file st1 u0 (stored array f0 p i)) !! u0
                  = Some (stored array f0 p i)).
    { cbn [set_file wFp]. apply lookup_insert_eq. }
    assert (Hother : forall u1, u1 <> u0 ->
              wFp (set_file st1 u0 (stored array f0 p i)) !! u1
              = wFp st !! u1).
    { intros u1 Hne. cbn [set_file wFp].
      rewrite lookup_insert_ne by congruence. now rewrite Hw1. }
    assert (Hslot : p = 0%nat \/ Z.of_nat p + 1 < num_collections).
    { destruct Hpos as [[-> ->]|(-> & -> & Hgt)]; [exact Hlast | right; lia]. }
    split.
    + split; [|split].
      * intros u1 f Hl. destruct (decide (u1 = u0)) as [->|Hne].
        -- rewrite Hl' in Hl. injection Hl as <-. intros q j Hs.
           apply slab_lookup_stored in Hs as [[-> ->]|Hs];
             [split; assumption | eapply Hfiles; eauto].
        -- rewrite Hother in Hl by exact Hne. eapply Hfiles, Hl.
      * intros u1 Hs. cbn [set_file rng]. rewrite Hrng1. apply Hkeys.
        destruct (decide (u1 = u0)) as [->|Hne]; [eauto|].
        now rewrite Hother in Hs.
      * cbn [set_file w_uid]. rewrite Hu1.
        exists (stored array f0 p i), i, p.
        cbn [set_file wFp hIdx hNextPath hColsRemain hMaxSize].
        rewrite lookup_insert_eq.
        do 6 (split; [first [reflexivity | assumption]|]). split.
        -- cbn [stored slabs]. rewrite lookup_insert_eq. eauto.
        -- intros q j Hs. apply slab_lookup_stored in Hs as [[-> ->]|Hs];
             [right; split; [reflexivity | lia]|].
           destruct (Hbehind q j Hs) as [H1|[H1 H2]];
             destruct Hpos as [[-> ->]|(-> & -> & _)]; lia.
    + exists u0, p, i, (stored array f0 p i).
      cbn [set_file w_uid hNextPath hIdx]. rewrite Hu1.
      do 3 (split; [first [reflexivity | assumption]|]). split; [exact Hl'|].
      split; [cbn [stored slabs]; apply lookup_insert_eq|].
      split; [reflexivity|]. split; [now right|]. intros _. split.
      * intros f Hl. rewrite Hl0 in Hl. injection Hl as <-. exact Hfree.
      * intros u1 f1 k a Hl Hk. destruct (decide (u1 = u0)) as [->|Hne].
        -- rewrite Hl0 in Hl. injection Hl as <-.
           exists (stored array f0 p i). split; [exact Hl'|].
           cbn [stored slabs]. rewrite lookup_insert_ne; [exact Hk|].
           intros <-. congruence.
        -- exists f1. split; [|exact Hk]. now rewrite Hother.
  - (* the current container is full: it is flushed and a new one made *)
    assert (Hsome : exists u0, w_uid st = Some u0).
    { unfold writer_open in Hopen. destruct (w_uid st); [eauto|discriminate]. }
    destruct Hsome as [u0 Hu0]. rewrite Hu0 in Hcur.
    destruct Hcur as (f0 & i0 & p0 & Hl0 & Hi0 & Hp0 & Hr0 & Hm0 & Hlast
                      & Hat & Hbehind).
    apply advance_inv in Ha as (i1 & Hi1 & size & Hsize & Hadv).
    destruct Hadv as [[_ Hr]|(Hge & p1 & rem & Hp1 & Hrem & Hadv)];
      [discriminate|].
    destruct Hadv as [[_ Hr]|(Hle & u1 & f1 & Hu1 & Hl1 & Hr)];
      [discriminate|].
    rewrite Hu0 in Hu1. injection Hu1 as <-.
    rewrite Hl0 in Hl1. injection Hl1 as <-.
    injection Hr as ->.
    set (flushed := flush _) in *.
    set (st2 := set_file _ u0 flushed) in *.
    assert (Hslabs : slabs flushed = slabs f0) by reflexivity.
    assert (Hw2 : wFp st2 = <[u0 := flushed]> (wFp st)) by reflexivity.
    assert (Hfiles2 : files_ok st2).
    { intros u1 f Hl. rewrite Hw2 in Hl.
      destruct (decide (u1 = u0)) as [->|Hne].
      - rewrite lookup_insert_eq in Hl. injection Hl as <-.
        intros q j Hs. rewrite Hslabs in Hs. eapply Hfiles; eauto.
      - rewrite lookup_insert_ne in Hl by congruence. eapply Hfiles, Hl. }
    assert (Hkeys2 : keys_ok st2).
    { intros u1 Hs. rewrite Hw2 in Hs. change (rng st2) with (rng st).
      apply Hkeys. destruct (decide (u1 = u0)) as [->|Hne]; [eauto|].
      now rewrite lookup_insert_ne in Hs by congruence. }
    destruct (new_container fuel remote st2 st1 u fh p i array Hfiles2 Hkeys2
                Hc Hu Hf Hp Hi HpN HiM)
      as (-> & -> & -> & Hinv & Hl & Hfresh & Hu' & Hp' & Hi' & Hother & Hnone).
    change (rng st2) with (rng st) in *.
    split; [exact Hinv|].
    exists (random_string (rng st)), 0%nat, 0%nat, (stored array fh 0 0).
    do 4 (split; [first [reflexivity | assumption]|]).
    split; [cbn [stored slabs]; apply lookup_insert_eq|].
    split; [reflexivity|]. split; [now left|]. intros H. split.
    + intros f Hl'. specialize (Hnone H). rewrite Hw2 in Hnone.
      destruct (decide (random_string (rng st) = u0)) as [He|Hne].
      * rewrite He, lookup_insert_eq in Hnone. discriminate.
      * rewrite lookup_insert_ne in Hnone by congruence. congruence.
    + intros u1 f1 k a Hl' Hk. specialize (Hnone H). rewrite Hw2 in Hnone.
      assert (Hne : u1 <> random_string (rng st)).
      { intros ->. destruct (decide (random_string (rng st) = u0)) as [He|Hne].
        - rewrite He, lookup_insert_eq in Hnone. discriminate.
        - rewrite lookup_insert_ne in Hnone by congruence. congruence. }
      rewrite (Hother u1 Hne), Hw2.
      destruct (decide (u1 = u0)) as [->|Hne'].
      * rewrite lookup_insert_eq. exists flushed. split; [reflexivity|].
        rewrite Hslabs. rewrite Hl0 in Hl'. now injection Hl' as <-.
      * rewrite lookup_insert_ne by congruence. eauto.
Qed.

Lemma written_cursor_ok st : runs st -> inv st.
Proof.
  induction 1 as [shape itemsize ls n|fuel array remote st loc st' _ IH Hrun].
  - split; [|split]; cbn [wFp w_uid]; [| |reflexivity].
    + intros u fh Hl. rewrite lookup_empty in Hl. discriminate.
    + intros u [fh Hl]. rewrite lookup_empty in Hl. discriminate.
  - apply (write_data_step _ _ _ _ _ _ IH Hrun).
Qed.

(** The record of a location given by two ints decodes to their
    decimal forms. *)
Lemma decode_location file_uid p i sample_shape :
  digit_or_blank SLICESEP = false ->
  occurs HASHSEP file_uid = false ->
  decode " " SLICESEP HASHSEP
    (encode SEP " " SLICESEP HASHSEP file_uid (IntArg p) (IntArg i)
       sample_shape)
  = Ok (mk_DataHashSpec FmtBackend file_uid (str_of_nat p) (str_of_nat i)
          sample_shape).
Proof.
  intros Hslice Huid. unfold decode, encode, FmtCode, FmtCodeIdx.
  rewrite !app_cons, !app_empty. cbn [drop_chars format].
  rewrite (partition_first _ _ _ Huid).
  rewrite <- app_cons, app_assoc', shape_field_join, rpartition_last.
  2:{ eapply all_chars_occurs; [apply shape_field_chars | exact Hslice]. }
  rewrite (split_app _ _ _ (blank_not_in_digits p)),
    (split_none _ _ (blank_not_in_digits i)).
  destruct sample_shape as [|x l]; [reflexivity|].
  destruct (String.eqb_spec (join " " (map str_of_nat (x :: l))) EmptyString)
    as [He|_].
  - exfalso. revert He. apply join_nonempty. congruence.
  - rewrite ints_of_split by congruence. reflexivity.
Qed.




End WriterRunProps.

Lemma test_uid_inj m n : test_uid m = test_uid n -> m = n.
Proof.
  unfold test_uid. rewrite !app_cons, !app_empty. intros [= H].
  pose proof (int_of_str_of_nat m) as Hm. rewrite H in Hm.
  rewrite int_of_str_of_nat in Hm. congruence.
Qed.

Lemma test_uid_chars n : occurs "$" (test_uid n) = false.
Proof.
  unfold test_uid. rewrite occurs_app.
  rewrite (all_chars_occurs is_digit "$" _ (str_of_nat_digits n) eq_refl).
  reflexivity.
Qed.

Lemma written_first :
  written 3 2 1000 id test_uid ":" " " "*" "$" after_first_write.
Proof.
  eapply written_step; [apply written_init | exact first_write].
Qed.

Lemma second_write :
  write_data 3 2 1000 id test_uid ":" " " "*" "$" 1 test_array false
    after_first_write
  = Some (Ok ("00:uid0$0 1*2"%string, after_second_write)).
Proof. vm_compute. reflexivity. Qed.




(** ** Reading, opening and closing *)

Section ReaderProps.

Variables num_collections collection_size max_nbytes : Z.
Variable HDF_ATTRS : string -> string.
Variable random_string : nat -> string.
Variables SEP LISTSEP SLICESEP HASHSEP : ascii.
Variable open_file : backend_dir -> string -> result h5file.
Variable read_direct : h5file -> string -> nat -> list nat -> result ndarray.

Let write := write_data num_collections collection_size max_nbytes HDF_ATTRS
               random_string SEP LISTSEP SLICESEP HASHSEP.
Let runs := written num_collections collection_size max_nbytes HDF_ATTRS
              random_string SEP LISTSEP SLICESEP HASHSEP.
Let read := read_data open_file read_direct.


Lemma register_lookup d uids m k r :
  register d uids m !! k = Some r ->
  m !! k = Some r \/ (k ∈ uids /\ r = Partial d (k +:+ ".hdf5")).
Proof.
  unfold register. revert m. induction uids as [|x uids IH]; intros m;
    cbn [foldl]; [auto|].
  intros H. apply IH in H as [H|[Hin ->]].
  - destruct (decide (x = k)) as [->|Hne].
    + rewrite lookup_insert_eq in H. injection H as <-.
      right. split; [left|reflexivity].
    + rewrite lookup_insert_ne in H by exact Hne. now left.
  - right. split; [now right | reflexivity].
Qed.

Lemma hdf5_entries_spec x entries :
  x ∈ hdf5_entries entries <-> x ∈ entries /\ endswith x ".hdf5" = true.
Proof.
  unfold hdf5_entries. rewrite !list_elem_of_In, List.filter_In. reflexivity.
Qed.



End ReaderProps.

Lemma read_slab_back fh p i a :
  slabs fh !! (p, i) = Some a ->
  read_slab fh ("/" +:+ str_of_nat p) i (arr_shape a) = Ok a.
Proof.
  intros H. rewrite app_cons, app_empty. unfold read_slab.
  rewrite int_of_str_of_nat, H, bool_decide_eq_true_2 by reflexivity.
  reflexivity.
Qed.



(** ** The static methods of the file handles *)

Lemma index_of_raises x l e :
  index_of x l = Raise e -> e = ValueError /\ x ∉ l.
Proof.
  induction l as [|y l IH]; cbn [index_of].
  - intros [= <-]. split; [reflexivity | apply not_elem_of_nil].
  - destruct (String.eqb_spec y x) as [->|Hne]; [discriminate|].
    destruct (index_of x l) as [n|e'] eqn:E; [discriminate|].
    cbn [mbind result_bind]. intros [= <-].
    destruct (IH eq_refl) as [-> Hnot]. split; [reflexivity|].
    rewrite elem_of_cons. intros [->|Hin]; [congruence | contradiction].
Qed.


Section RemoveUnusedProps.

Variable set_iter : gset string -> list string.
Variable list_all_hash_values : gmap string string -> list hash_spec.
Hypothesis set_iter_enumerates : enumerates set_iter.

Lemma append_suffix_inj (s s' t : string) : s +:+ t = s' +:+ t -> s = s'.
Proof.
  assert (Hlen : forall a b : string,
            String.length (a +:+ b) = (String.length a + String.length b)%nat).
  { intros a b. induction a as [|c a IH]; [reflexivity|].
    rewrite app_cons. cbn [String.length]. now rewrite IH. }
  revert s'. induction s as [|a s IH]; intros [|a' s'].
  - reflexivity.
  - rewrite app_empty, app_cons. intros H. apply (f_equal String.length) in H.
    cbn [String.length] in H. rewrite Hlen in H. lia.
  - rewrite app_empty, app_cons. intros H. apply (f_equal String.length) in H.
    cbn [String.length] in H. rewrite Hlen in H. lia.
  - rewrite !app_cons. intros [= -> H]. f_equal. now apply IH.
Qed.

Lemma remove_files_spec l stg dat err stg' dat' :
  remove_files l stg dat = (err, (stg', dat')) ->
  stg' ⊆ stg /\ dat' ⊆ dat
  /\ (forall x, x ∈ stg -> x ∉ stg' -> exists u, u ∈ l /\ x = u +:+ ".hdf5")
  /\ (forall x, x ∈ dat -> x ∉ dat' -> exists u, u ∈ l /\ x = u +:+ ".hdf5")
  /\ (err = None ->
      forall u, u ∈ l ->
        ((u +:+ ".hdf5") ∉ stg') /\ ((u +:+ ".hdf5") ∉ dat')).
Proof.
  revert stg dat. induction l as [|u l IH]; intros stg dat;
    cbn [remove_files].
  - intros [= <- <- <-]. repeat split; set_solver.
  - case_bool_decide as Hs.
    + case_bool_decide as Hd.
      * intros Hrun. apply IH in Hrun as (H1 & H2 & H3 & H4 & H5).
        split; [set_solver|]. split; [set_solver|].
        split; [|split].
        -- intros x Hx Hnx. destruct (decide (x = u +:+ ".hdf5")) as [->|Hne].
           ++ exists u. split; [left | reflexivity].
           ++ destruct (H3 x ltac:(set_solver) Hnx) as (u' & Hu' & ->).
              exists u'. split; [now right | reflexivity].
        -- intros x Hx Hnx. destruct (decide (x = u +:+ ".hdf5")) as [->|Hne].
           ++ exists u. split; [left | reflexivity].
           ++ destruct (H4 x ltac:(set_solver) Hnx) as (u' & Hu' & ->).
              exists u'. split; [now right | reflexivity].
        -- intros He u' Hu'. apply elem_of_cons in Hu' as [->|Hu'].
           ++ split; set_solver.
           ++ now apply H5.
      * intros [= <- <- <-]. split; [apply subseteq_difference_l; reflexivity|].
        split; [reflexivity|].
        split; [|split; [|discriminate]].
        -- intros x Hx Hnx. exists u. split; [left|].
           apply not_elem_of_difference in Hnx as [Hnx|Hnx]; [contradiction|].
           now apply elem_of_singleton in Hnx.
        -- intros x Hx Hnx. contradiction.
    + intros [= <- <- <-]. do 2 (split; [reflexivity|]).
      do 2 (split; [intros x Hx Hnx; contradiction|]). discriminate.
Qed.

Lemma staged_files_spec stgHashs u :
  u ∈ staged_files stgHashs
  <-> exists loc, Hdf5_00 loc ∈ stgHashs /\ backend loc = FmtBackend
                  /\ uid loc = u.
Proof.
  unfold staged_files. rewrite elem_of_list_to_set, list_elem_of_omap.
  split.
  - intros ([loc|h] & Hin & Hv); [|discriminate].
    destruct (String.eqb_spec (backend loc) FmtBackend); [|discriminate].
    injection Hv as <-. eauto.
  - intros (loc & Hin & Hb & <-). exists (Hdf5_00 loc). split; [exact Hin|].
    rewrite Hb. reflexivity.
Qed.


End RemoveUnusedProps.

Lemma remove_unused_example :
  remove_unused iter_ascending staged_hashes ∅ (Some stage_listing)
    data_listing
  = (None, (Some stage_kept, data_kept)).
Proof. vm_compute. reflexivity. Qed.

